(** * Chart Data Extractor: a shallow embedding of [backend/main.py]

    The service has four parts, each embedded below from the Python source:
    the image normaliser [compress_image], the upload route [upload_file]
    (PDF, raster image and slide deck), the extraction route [extract_chart]
    with its parsing fallback chain, and the export route [export_data]
    (JSON, CSV and spreadsheet) with [safe_sheet_name].

    Python values are modelled as the code has them: a [str] is a list of
    Unicode code points, [bytes] a list of bytes, a parsed JSON document a
    tree whose objects keep insertion order, an exception a value of [exn]
    threaded through the [res] monad.  Library calls whose result is pure
    data handling ([json.loads], [json.dumps], [csv.writer], [str.encode],
    the regular expressions) are written out; the libraries that decode
    pictures and documents are interfaces (type classes). *)

From Stdlib Require Import Strings.String Strings.Ascii Strings.Byte.
From Stdlib Require Import List ZArith NArith QArith Qround Qabs Qpower Lqa Lia Bool.
From Stdlib Require Import FinFun.
Import ListNotations.

Set Implicit Arguments.

(** ** Python strings and bytes *)

(** A code point, [0 .. 0x10FFFF] (Python keeps lone surrogates in a [str]). *)
Abbreviation char := N (only parsing).
Abbreviation pystr := (list N) (only parsing).
Abbreviation bytes := (list byte) (only parsing).

(** A Python string literal with ASCII content. *)
Definition lit (s : string) : pystr :=
  List.map N_of_ascii (list_ascii_of_string s).

Definition char_eqb (a b : char) : bool := N.eqb a b.

Fixpoint str_eqb (a b : pystr) : bool :=
  match a, b with
  | [], [] => true
  | x :: a', y :: b' => char_eqb x y && str_eqb a' b'
  | _, _ => false
  end.

(** [s.startswith(p)]: when it holds, the rest of [s] after [p]. *)
Fixpoint strip_prefix (p s : pystr) : option pystr :=
  match p, s with
  | [], _ => Some s
  | x :: p', y :: s' => if char_eqb x y then strip_prefix p' s' else None
  | _ :: _, [] => None
  end.

Definition startswith (s p : pystr) : bool :=
  match strip_prefix p s with Some _ => true | None => false end.

(** [s.endswith(p)] *)
Definition endswith (s p : pystr) : bool := startswith (rev s) (rev p).

(** [str.isspace] on one code point, which is also the class [\s] of [re]
    on a [str] pattern: the Unicode white space of CPython. *)
Definition isspace (c : char) : bool :=
  ((9 <=? c) && (c <=? 13) || (28 <=? c) && (c <=? 32)
   || (c =? 133) || (c =? 160) || (c =? 5760)
   || (8192 <=? c) && (c <=? 8202) || (c =? 8232) || (c =? 8233)
   || (c =? 8239) || (c =? 8287) || (c =? 12288))%N.

Fixpoint lstrip (s : pystr) : pystr :=
  match s with
  | c :: s' => if isspace c then lstrip s' else s
  | [] => []
  end.

Definition rstrip (s : pystr) : pystr := rev (lstrip (rev s)).

(** [s.strip()] *)
Definition strip (s : pystr) : pystr := rstrip (lstrip s).

(** [str.lower] on the ASCII letters.  The case mappings of other code
    points are not modelled: the program compares lowered strings with
    ASCII literals only, which no other code point lowers into. *)
Definition lower_char (c : char) : char :=
  if ((65 <=? c) && (c <=? 90))%N then (c + 32)%N else c.

Definition lower (s : pystr) : pystr := List.map lower_char s.

(** ** Decimal numerals: [str(n)] of a Python [int] *)

Definition digit_char (d : N) : char := (48 + d)%N.

Fixpoint digits_fuel (fuel : nat) (n : N) (acc : pystr) : pystr :=
  match fuel with
  | O => acc
  | S fuel' =>
      let acc' := digit_char (n mod 10) :: acc in
      if (n <? 10)%N then acc' else digits_fuel fuel' (n / 10) acc'
  end.

(** The decimal digits of [n]; its bit count bounds the digit count. *)
Definition str_of_N (n : N) : pystr :=
  digits_fuel (S (N.to_nat (N.log2 n))) n [].

Definition minus_sign : char := 45%N.

Definition str_of_Z (z : Z) : pystr :=
  match z with
  | Z0 => str_of_N 0
  | Zpos p => str_of_N (Npos p)
  | Zneg p => minus_sign :: str_of_N (Npos p)
  end.

(** ** Exceptions and results *)

Inductive exn : Type :=
| HTTPException (status_code : Z) (detail : pystr)
| JSONDecodeError (msg : pystr)
| ImportError (msg : pystr)
| Exception (msg : pystr).

(** [str(e)], as the f-strings of the handlers use it. *)
Definition exn_str (e : exn) : pystr :=
  match e with
  | HTTPException s d => str_of_Z s ++ lit ": " ++ d
  | JSONDecodeError m | ImportError m | Exception m => m
  end.

Inductive res (A : Type) : Type :=
| Ret (a : A)
| Raise (e : exn).
Arguments Ret {A} a.
Arguments Raise {A} e.

Definition bind {A B} (m : res A) (k : A -> res B) : res B :=
  match m with
  | Ret a => k a
  | Raise e => Raise e
  end.

Declare Scope py_scope.
Delimit Scope py_scope with py.
Notation "x <- m ;; k" := (bind m (fun x => k))
  (at level 61, m at next level, right associativity) : py_scope.
Notation "' pat <- m ;; k" := (bind m (fun x => match x with pat => k end))
  (at level 61, pat pattern, m at next level, right associativity) : py_scope.

(** [try: m  except Exception: h e] *)
Definition try_except {A} (m : res A) (h : exn -> res A) : res A :=
  match m with
  | Ret a => Ret a
  | Raise e => h e
  end.

(** The response status the framework sends for an exception that leaves a
    route: the status of an [HTTPException], 500 for anything else. *)
Definition response_status {A} (r : res A) : Z :=
  match r with
  | Ret _ => 200
  | Raise (HTTPException s _) => s
  | Raise _ => 500
  end.

(** ** Binary64 arithmetic

    Python's [float] is an IEEE binary64.  [fl x] is the double nearest to
    the rational [x]; an operation on doubles is the exact operation
    followed by [fl].  Overflow and subnormal numbers are left out: the
    only floats of the program are ratios and products of pixel counts. *)

(** The unit round-off of binary64, [2^-53]. *)
Definition unit_roundoff : Q := 1 # 9007199254740992.

(** [int(x)] of a float: truncation towards zero. *)
Definition int_of_float (x : Q) : Z :=
  if Qle_bool 0 x then Qfloor x else Qceiling x.

(** Round half to even, to an integer. *)
Definition round_half_even (q : Q) : Z :=
  let f := Qfloor q in
  match Qcompare (q - inject_Z f) (1 # 2) with
  | Lt => f
  | Gt => (f + 1)%Z
  | Eq => if Z.even f then f else (f + 1)%Z
  end.

(** For [a > 0], the exponent [e] with [2^e <= a < 2^(e+1)]. *)
Definition binade (a : Q) : Z :=
  let k := (Z.log2 (Qnum a) - Z.log2 (Zpos (Qden a)))%Z in
  if Qle_bool (2 ^ k) a then k else (k - 1)%Z.

(** Round to 53 significant bits, ties to even (normal range). *)
Definition round53 (x : Q) : Q :=
  if Qeq_bool x 0 then 0
  else
    let a := Qabs x in
    let e := (binade a - 52)%Z in
    let m := inject_Z (round_half_even (a / 2 ^ e)) * 2 ^ e in
    if Qle_bool 0 x then m else - m.

Definition fl (x : Q) : Q := round53 x.

(** ** Image Normalizer *)

(** A decoded picture: [img.mode], [img.size] and the pixel store. *)
Record pil_image (raster : Type) : Type := Image {
  mode : pystr;
  size : Z * Z;
  pixels : raster
}.
Arguments Image {raster} mode size pixels.

(** The calls into Pillow that [compress_image] makes. *)
Class Pillow := {
  raster : Type;
  (** [Image.open(io.BytesIO(b))] *)
  Image_open : bytes -> res (pil_image raster);
  (** the pixels of [img.convert("RGB")] *)
  convert_RGB : pil_image raster -> raster;
  (** the pixels of [img.resize(size, Image.LANCZOS)] *)
  resample_LANCZOS : pil_image raster -> Z * Z -> raster;
  (** [img.save(buf, format="JPEG", quality=85, optimize=True); buf.getvalue()] *)
  save_JPEG : pil_image raster -> res bytes
}.

Definition mem_str (s : pystr) (l : list pystr) : bool :=
  existsb (str_eqb s) l.

Section ImageNormalizer.
Context `{Pillow}.

(** [img.resize((w, h), Image.LANCZOS)]: Pillow refuses an empty target
    with [ValueError("height and width must be > 0")]. *)
Definition resize (img : pil_image raster) (target : Z * Z) : res (pil_image raster) :=
  let '(w, h) := target in
  if ((w <? 1) || (h <? 1))%Z
  then Raise (Exception (lit "height and width must be > 0"))
  else Ret (Image (mode img) target (resample_LANCZOS img target)).

(** Lines 49-54 of [compress_image]: the picture that is handed to
    [img.save]. *)
Definition prepare_image (img : pil_image raster) (max_side : Z) : res (pil_image raster) :=
  let img :=
    if mem_str (mode img) [lit "RGBA"; lit "P"; lit "LA"]
    then Image (lit "RGB") (size img) (convert_RGB img)
    else img in
  let '(w, h) := size img in
  if (Z.max w h >? max_side)%Z then
    let ratio := fl (inject_Z max_side / inject_Z (Z.max w h)) in
    resize img (int_of_float (fl (inject_Z w * ratio)),
                int_of_float (fl (inject_Z h * ratio)))
  else Ret img.
End ImageNormalizer.

(** [base64.b64encode(b).decode()] *)
Definition b64_char (v : N) : char :=
  (if v <? 26 then 65 + v
   else if v <? 52 then 97 + (v - 26)
   else if v <? 62 then 48 + (v - 52)
   else if v =? 62 then 43 else 47)%N.

Fixpoint b64encode (b : bytes) : pystr :=
  match b with
  | [] => []
  | [x] =>
      let n := (Byte.to_N x * 65536)%N in
      [b64_char (n / 262144); b64_char ((n / 4096) mod 64); 61%N; 61%N]
  | [x; y] =>
      let n := (Byte.to_N x * 65536 + Byte.to_N y * 256)%N in
      [b64_char (n / 262144); b64_char ((n / 4096) mod 64);
       b64_char ((n / 64) mod 64); 61%N]
  | x :: y :: z :: rest =>
      let n := (Byte.to_N x * 65536 + Byte.to_N y * 256 + Byte.to_N z)%N in
      b64_char (n / 262144) :: b64_char ((n / 4096) mod 64)
        :: b64_char ((n / 64) mod 64) :: b64_char (n mod 64) :: b64encode rest
  end.

Definition image_jpeg : pystr := lit "image/jpeg".

Section CompressImage.
Context `{Pillow}.
Local Open Scope py_scope.

(** [compress_image(image_bytes, max_side)]: the pair
    [(base64_string, media_type)]. *)
Definition compress_image (image_bytes : bytes) (max_side : Z)
  : res (pystr * pystr) :=
  img <- Image_open image_bytes ;;
  img <- prepare_image img max_side ;;
  buf <- save_JPEG img ;;
  Ret (b64encode buf, image_jpeg).

(** The default of the parameter [max_side]. *)
Definition max_side_default : Z := 1400.
End CompressImage.

(** ** Document Rasterizer: [POST /api/upload] *)

(** [file: UploadFile] after [await file.read()]. *)
Record UploadFile : Type := {
  file_filename : option pystr;
  file_content : bytes
}.

(** One entry of [images]; the key ["placeholder"] is present on
    placeholders only. *)
Record PageImage : Type := {
  page : Z;
  data : pystr;
  media_type : pystr;
  placeholder : option bool
}.

Record UploadResponse : Type := {
  resp_filename : option pystr;
  total_pages : Z;
  images : list PageImage
}.

(** The calls into PyMuPDF. *)
Class PyMuPDF := {
  pdf_page : Type;
  (** [fitz.open(stream=content, filetype="pdf")]: the pages [doc[0..]] *)
  fitz_open : bytes -> res (list pdf_page);
  (** [doc[i].get_pixmap(matrix=fitz.Matrix(1.5, 1.5)).tobytes("png")] *)
  pixmap_png : pdf_page -> res bytes
}.

(** A shape of a slide: [shape.shape_type == MSO_SHAPE_TYPE.PICTURE] and
    [shape.image.blob], either of which python-pptx may refuse. *)
Record shape : Type := {
  is_picture : res bool;
  image_blob : res bytes
}.

(** The calls into python-pptx. *)
Class PythonPptx := {
  (** [from pptx import Presentation] and the [MSO_SHAPE_TYPE] import *)
  import_pptx : res unit;
  (** [Presentation(io.BytesIO(content)).slides], each with its [shapes] *)
  Presentation : bytes -> res (list (list shape))
}.

Section UploadRoute.
Context `{Pillow} `{PyMuPDF} `{PythonPptx}.
Local Open Scope py_scope.

(** The body of [for i in range(min(len(doc), 30))], from page [i]. *)
Fixpoint pdf_pages (i : Z) (pages : list pdf_page) : res (list PageImage) :=
  match pages with
  | [] => Ret []
  | p :: rest =>
      png <- pixmap_png p ;;
      '(b64, mt) <- compress_image png max_side_default ;;
      imgs <- pdf_pages (i + 1) rest ;;
      Ret ({| page := i + 1; data := b64; media_type := mt;
              placeholder := None |} :: imgs)
  end.

(** The PDF branch (lines 137-143). *)
Definition pdf_images (content : bytes) : res (list PageImage) :=
  doc <- fitz_open content ;;
  pdf_pages 0 (firstn 30 doc).

(** [for shape in slide.shapes]: the list [slide_images]. *)
Fixpoint slide_pictures (slide_num : Z) (shapes : list shape)
  : res (list PageImage) :=
  match shapes with
  | [] => Ret []
  | sh :: rest =>
      pic <- is_picture sh ;;
      let found :=
        if pic then
          match (blob <- image_blob sh ;;
                 compress_image blob max_side_default) with
          | Ret (b64, mt) =>
              [{| page := slide_num; data := b64; media_type := mt;
                  placeholder := None |}]
          | Raise _ => []
          end
        else [] in
      more <- slide_pictures slide_num rest ;;
      Ret (found ++ more)
  end.

Definition placeholder_image (slide_num : Z) : PageImage :=
  {| page := slide_num; data := []; media_type := image_jpeg;
     placeholder := Some true |}.

(** [for slide_num, slide in enumerate(prs.slides, start=1)] *)
Fixpoint pptx_slides (slide_num : Z) (slides : list (list shape))
  : res (list PageImage) :=
  match slides with
  | [] => Ret []
  | slide :: rest =>
      slide_images <- slide_pictures slide_num slide ;;
      let slide_images :=
        match slide_images with
        | [] => [placeholder_image slide_num]
        | _ => slide_images
        end in
      imgs <- pptx_slides (slide_num + 1) rest ;;
      Ret (firstn 1 slide_images ++ imgs)
  end.

(** The slide-deck branch (lines 152-182). *)
Definition pptx_images (content : bytes) : res (list PageImage) :=
  try_except
    (_ <- import_pptx ;;
     prs <- Presentation content ;;
     pptx_slides 1 prs)
    (fun e =>
       match e with
       | ImportError _ =>
           Raise (HTTPException 400
             (lit "python-pptx is required for PPTX support. Run: pip install python-pptx"))
       | _ =>
           Raise (HTTPException 400 (lit "PPTX processing error: " ++ exn_str e))
       end).

Definition raster_suffixes : list pystr :=
  [lit ".png"; lit ".jpg"; lit ".jpeg"; lit ".webp"; lit ".gif"].

Definition upload_file (file : UploadFile) : res UploadResponse :=
  let content := file_content file in
  let filename :=
    lower (match file_filename file with Some f => f | None => [] end) in
  images <-
    (if endswith filename (lit ".pdf") then pdf_images content
     else if existsb (endswith filename) raster_suffixes then
       '(b64, mt) <- compress_image content max_side_default ;;
       Ret [{| page := 1; data := b64; media_type := mt;
               placeholder := None |}]
     else if endswith filename (lit ".pptx") then pptx_images content
     else
       Raise (HTTPException 400
         (lit "Unsupported file type '" ++ filename
            ++ lit "'. Supported: PDF, PNG, JPG, JPEG, WEBP, PPTX"))) ;;
  match images with
  | [] =>
      Raise (HTTPException 400
        (lit "Could not extract any images from the file."))
  | _ =>
      Ret {| resp_filename := file_filename file;
             total_pages := Z.of_nat (List.length images);
             images := images |}
  end.

(** What [upload_file] answers, from the list that its branch built. *)
Definition upload_answer (file : UploadFile) (imgs : res (list PageImage))
  : res UploadResponse :=
  match imgs with
  | Ret [] =>
      Raise (HTTPException 400
        (lit "Could not extract any images from the file."))
  | Ret l =>
      Ret {| resp_filename := file_filename file;
             total_pages := Z.of_nat (List.length l);
             images := l |}
  | Raise e => Raise e
  end.

Definition lowered_name (file : UploadFile) : pystr :=
  lower (match file_filename file with Some f => f | None => [] end).
(** A page that renders and normalises without an exception. *)
Definition page_ok (p : pdf_page) : Prop :=
  exists png d mt,
    pixmap_png p = Ret png /\ compress_image png max_side_default = Ret (d, mt).

(** A slide whose shapes all tell their type. *)
Definition readable (slide : list shape) : Prop :=
  Forall (fun sh => exists b, is_picture sh = Ret b) slide.

(** A slide with zero picture shapes. *)
Definition no_pictures (slide : list shape) : Prop :=
  Forall (fun sh => is_picture sh = Ret false) slide.
End UploadRoute.

(** ** Python values that JSON carries

    [None], [bool], [int], [float], [str], [list] and [dict] with [str]
    keys in insertion order.  A float is kept as a decimal literal that
    denotes it ([PyFloat (lit "0.95")]); what Python computes from a
    double beyond that (its [repr], its truth value) is the interface
    [PyRuntime] further down. *)

#[local] Set Warnings "-register-all".
Inductive pyval : Type :=
| PyNone
| PyBool (b : bool)
| PyInt (n : Z)
| PyFloat (literal : pystr)
| PyStr (s : pystr)
| PyList (items : list pyval)
| PyDict (items : list (pystr * pyval)).


(** [d.get(key)] *)
Fixpoint dict_get (d : list (pystr * pyval)) (key : pystr) : option pyval :=
  match d with
  | [] => None
  | (k, v) :: d' => if str_eqb k key then Some v else dict_get d' key
  end.

(** [d[key] = v]: a key that is present keeps its position. *)
Fixpoint dict_set (d : list (pystr * pyval)) (key : pystr) (v : pyval)
  : list (pystr * pyval) :=
  match d with
  | [] => [(key, v)]
  | (k, x) :: d' =>
      if str_eqb k key then (k, v) :: d' else (k, x) :: dict_set d' key v
  end.

(** [dict(pairs)] *)
Definition dict_of_pairs (pairs : list (pystr * pyval)) : list (pystr * pyval) :=
  fold_left (fun d kv => dict_set d (fst kv) (snd kv)) pairs [].

(** ** [json.loads] on a [str] (the scanner of CPython's [json] module) *)

(** The result of a scanner on the text that is left: a value and the
    text after it, no match (the module raises [JSONDecodeError]), or the
    recursion budget of the embedding used up. *)
Inductive scan (A : Type) : Type :=
| Found (a : A) (rest : pystr)
| Invalid
| Exhausted.
Arguments Found {A} a rest.
Arguments Invalid {A}.
Arguments Exhausted {A}.

Definition json_space (c : char) : bool :=
  ((c =? 32) || (c =? 9) || (c =? 10) || (c =? 13))%N.

Fixpoint skip_ws (s : pystr) : pystr :=
  match s with
  | c :: s' => if json_space c then skip_ws s' else s
  | [] => []
  end.

Definition is_digit (c : char) : bool := ((48 <=? c) && (c <=? 57))%N.

Definition hex_value (c : char) : option N :=
  (if (48 <=? c) && (c <=? 57) then Some (c - 48)
   else if (97 <=? c) && (c <=? 102) then Some (c - 87)
   else if (65 <=? c) && (c <=? 70) then Some (c - 55)
   else None)%N.

(** The four hex digits of a [\uXXXX] escape. *)
Definition hex4 (a b c d : char) : option N :=
  match hex_value a, hex_value b, hex_value c, hex_value d with
  | Some x, Some y, Some z, Some w => Some (((x * 16 + y) * 16 + z) * 16 + w)%N
  | _, _, _, _ => None
  end.

Definition is_high_surrogate (c : char) : bool := ((55296 <=? c) && (c <=? 56319))%N.
Definition is_low_surrogate (c : char) : bool := ((56320 <=? c) && (c <=? 57343))%N.
Definition is_surrogate (c : char) : bool := ((55296 <=? c) && (c <=? 57343))%N.

Definition join_surrogates (hi lo : char) : char :=
  (65536 + ((hi - 55296) * 1024 + (lo - 56320)))%N.

(** The one-letter escapes of a JSON string. *)
Definition simple_escape (c : char) : option char :=
  (if c =? 34 then Some 34          (* a quote *)
   else if c =? 92 then Some 92     (* a backslash *)
   else if c =? 47 then Some 47     (* a slash *)
   else if c =? 98 then Some 8      (* b: backspace *)
   else if c =? 102 then Some 12    (* f: form feed *)
   else if c =? 110 then Some 10    (* n: line feed *)
   else if c =? 114 then Some 13    (* r: carriage return *)
   else if c =? 116 then Some 9     (* t: tab *)
   else None)%N.

(** A low surrogate written as an escape at the head of [s]. *)
Definition low_surrogate_escape (s : pystr) : option char :=
  match s with
  | x :: y :: a :: b :: c :: d :: _ =>
      if ((x =? 92) && (y =? 117))%N then
        match hex4 a b c d with
        | Some lo => if is_low_surrogate lo then Some lo else None
        | None => None
        end
      else None
  | _ => None
  end.

(** [scanstring(s, end, strict=True)], from the character after the
    opening quote: the decoded string and the text after the closing
    quote.  A high surrogate escape followed by a low surrogate escape is
    joined into one code point; any other surrogate is kept as it is. *)
Fixpoint scanstring (s : pystr) : option (pystr * pystr) :=
  let cons_to c r :=
    match r with Some (t, rest) => Some (c :: t, rest) | None => None end in
  match s with
  | [] => None
  | c :: s1 =>
      if (c =? 34)%N then Some ([], s1)
      else if (c =? 92)%N then
        match s1 with
        | [] => None
        | e :: s2 =>
            if (e =? 117)%N then
              match s2 with
              | a :: b :: c' :: d :: s3 =>
                  match hex4 a b c' d with
                  | None => None
                  | Some u =>
                      if is_high_surrogate u then
                        match s3 with
                        | _ :: _ :: _ :: _ :: _ :: _ :: s4 =>
                            match low_surrogate_escape s3 with
                            | Some lo =>
                                cons_to (join_surrogates u lo) (scanstring s4)
                            | None => cons_to u (scanstring s3)
                            end
                        | _ => cons_to u (scanstring s3)
                        end
                      else cons_to u (scanstring s3)
                  end
              | _ => None
              end
            else
              match simple_escape e with
              | Some ch => cons_to ch (scanstring s2)
              | None => None
              end
        end
      else if (c <? 32)%N then None
      else cons_to c (scanstring s1)
  end.

(** One step of [scanstring] on a text that does not start with the
    closing quote: the code point that the next character or escape
    stands for, and the text after it. *)
Definition next_char (s : pystr) : option (char * pystr) :=
  match s with
  | [] => None
  | c :: s1 =>
      if (c =? 92)%N then
        match s1 with
        | [] => None
        | e :: s2 =>
            if (e =? 117)%N then
              match s2 with
              | a :: b :: c' :: d :: s3 =>
                  match hex4 a b c' d with
                  | None => None
                  | Some u =>
                      if is_high_surrogate u then
                        match low_surrogate_escape s3 with
                        | Some lo => Some (join_surrogates u lo, skipn 6 s3)
                        | None => Some (u, s3)
                        end
                      else Some (u, s3)
                  end
              | _ => None
              end
            else
              match simple_escape e with
              | Some ch => Some (ch, s2)
              | None => None
              end
        end
      else if (c <? 32)%N then None
      else Some (c, s1)
  end.

(** The longest run of ASCII digits at the head of [s], and the rest. *)
Fixpoint take_digits (s : pystr) : pystr * pystr :=
  match s with
  | c :: s' =>
      if is_digit c then let '(ds, rest) := take_digits s' in (c :: ds, rest)
      else ([], s)
  | [] => ([], [])
  end.

(** [int(digits)] for a run of ASCII digits. *)
Definition N_of_digits (ds : pystr) : N :=
  fold_left (fun acc c => (acc * 10 + (c - 48))%N) ds 0%N.

(** The parts of a number, each with the text after it: an optional
    minus sign; [0] or a run of digits that does not start with [0]; a
    fraction, a point and digits; an exponent, [e] or [E], an optional
    sign and digits.  A part that is not complete matches nothing. *)
Definition scan_sign (s : pystr) : pystr * pystr :=
  match s with
  | c :: r => if (c =? 45)%N then ([c], r) else ([], s)
  | [] => ([], s)
  end.

Definition scan_int (s : pystr) : option (pystr * pystr) :=
  match s with
  | c :: r =>
      if (c =? 48)%N then Some ([c], r)
      else if is_digit c then
        let '(ds, rest) := take_digits r in Some (c :: ds, rest)
      else None
  | [] => None
  end.

Definition scan_frac (s : pystr) : pystr * pystr :=
  match s with
  | c :: r =>
      if (c =? 46)%N then
        match take_digits r with
        | ([], _) => ([], s)
        | (fs, rest) => (c :: fs, rest)
        end
      else ([], s)
  | [] => ([], s)
  end.

Definition scan_exp (s : pystr) : pystr * pystr :=
  match s with
  | c :: r =>
      if ((c =? 101) || (c =? 69))%N then
        let '(esign, r') :=
          match r with
          | c' :: r'' =>
              if ((c' =? 45) || (c' =? 43))%N then ([c'], r'') else ([], r)
          | [] => ([], r)
          end in
        match take_digits r' with
        | ([], _) => ([], s)
        | (es, rest) => (c :: esign ++ es, rest)
        end
      else ([], s)
  | [] => ([], s)
  end.

(** The number at the head of [s], as [_match_number] of the scanner reads
    it.  With a fraction or an exponent the value is a float, otherwise an
    int. *)
Definition match_number (s : pystr) : option (pyval * pystr) :=
  let '(sign, s1) := scan_sign s in
  match scan_int s1 with
  | None => None
  | Some (ds, s2) =>
      let '(frac, s3) := scan_frac s2 in
      let '(exp, s4) := scan_exp s3 in
      match frac, exp with
      | [], [] =>
          let n := Z.of_N (N_of_digits ds) in
          Some (PyInt (match sign with [] => n | _ => (- n)%Z end), s4)
      | _, _ => Some (PyFloat (sign ++ ds ++ frac ++ exp), s4)
      end
  end.

(** The named constants and the numbers of [scan_once]. *)
Definition scan_atom (s : pystr) : option (pyval * pystr) :=
  match strip_prefix (lit "null") s with
  | Some r => Some (PyNone, r)
  | None =>
  match strip_prefix (lit "true") s with
  | Some r => Some (PyBool true, r)
  | None =>
  match strip_prefix (lit "false") s with
  | Some r => Some (PyBool false, r)
  | None =>
  match strip_prefix (lit "NaN") s with
  | Some r => Some (PyFloat (lit "NaN"), r)
  | None =>
  match strip_prefix (lit "Infinity") s with
  | Some r => Some (PyFloat (lit "Infinity"), r)
  | None =>
  match strip_prefix (lit "-Infinity") s with
  | Some r => Some (PyFloat (lit "-Infinity"), r)
  | None => match_number s
  end end end end end end.

Definition scan_of_option {A} (o : option (A * pystr)) : scan A :=
  match o with Some (a, rest) => Found a rest | None => Invalid end.

(** [scan_once], [JSONArray] and [JSONObject].  [fuel] bounds the calls;
    [json_loads] gives enough of it for the whole text. *)
Fixpoint scan_once (fuel : nat) (s : pystr) : scan pyval :=
  match fuel with
  | O => Exhausted
  | S fuel =>
      match s with
      | [] => Invalid
      | c :: r =>
          if (c =? 34)%N then
            match scanstring r with
            | Some (t, rest) => Found (PyStr t) rest
            | None => Invalid
            end
          else if (c =? 123)%N then
            match skip_ws r with
            | [] => Invalid
            | c' :: r' =>
                if (c' =? 125)%N then Found (PyDict []) r'
                else
                  match object_items fuel (c' :: r') with
                  | Found pairs rest => Found (PyDict (dict_of_pairs pairs)) rest
                  | Invalid => Invalid
                  | Exhausted => Exhausted
                  end
            end
          else if (c =? 91)%N then
            match skip_ws r with
            | [] => Invalid
            | c' :: r' =>
                if (c' =? 93)%N then Found (PyList []) r'
                else
                  match array_items fuel (c' :: r') with
                  | Found items rest => Found (PyList items) rest
                  | Invalid => Invalid
                  | Exhausted => Exhausted
                  end
            end
          else scan_of_option (scan_atom s)
      end
  end

(** The items of an array, from the first character of an item. *)
with array_items (fuel : nat) (s : pystr) : scan (list pyval) :=
  match fuel with
  | O => Exhausted
  | S fuel =>
      match scan_once fuel s with
      | Found v rest =>
          match skip_ws rest with
          | [] => Invalid
          | c :: r =>
              if (c =? 93)%N then Found [v] r
              else if (c =? 44)%N then
                match array_items fuel (skip_ws r) with
                | Found vs rest' => Found (v :: vs) rest'
                | Invalid => Invalid
                | Exhausted => Exhausted
                end
              else Invalid
          end
      | Invalid => Invalid
      | Exhausted => Exhausted
      end
  end

(** The pairs of an object, from the opening quote of a key. *)
with object_items (fuel : nat) (s : pystr) : scan (list (pystr * pyval)) :=
  match fuel with
  | O => Exhausted
  | S fuel =>
      match s with
      | [] => Invalid
      | q :: r =>
          if (q =? 34)%N then
            match scanstring r with
            | None => Invalid
            | Some (key, rest) =>
                match skip_ws rest with
                | [] => Invalid
                | c :: r1 =>
                    if (c =? 58)%N then
                      match scan_once fuel (skip_ws r1) with
                      | Found v rest1 =>
                          match skip_ws rest1 with
                          | [] => Invalid
                          | c1 :: r2 =>
                              if (c1 =? 125)%N then Found [(key, v)] r2
                              else if (c1 =? 44)%N then
                                match object_items fuel (skip_ws r2) with
                                | Found kvs rest2 => Found ((key, v) :: kvs) rest2
                                | Invalid => Invalid
                                | Exhausted => Exhausted
                                end
                              else Invalid
                          end
                      | Invalid => Invalid
                      | Exhausted => Exhausted
                      end
                    else Invalid
                end
            end
          else Invalid
      end
  end.

(** [json.loads(s)] for a [str]: [None] stands for [JSONDecodeError].  A
    text that starts with a byte order mark is refused; white space
    around the value is skipped; anything after it is [Extra data]. *)
Definition json_loads (s : pystr) : option pyval :=
  if startswith s [65279%N] then None
  else
    match scan_once (2 * List.length s + 2) (skip_ws s) with
    | Found v rest =>
        match skip_ws rest with
        | [] => Some v
        | _ :: _ => None
        end
    | Invalid | Exhausted => None
    end.

(** ** Extraction Client: [POST /api/extract] *)

(** A block of [final.content]: [b.type] and [b.text]. *)
Record content_block : Type := {
  block_type : pystr;
  block_text : pystr
}.

Record ExtractRequest : Type := {
  image : pystr;
  request_media_type : pystr
}.

(** The exchange with the model provider: [claude.messages.stream(...)]
    and [stream.get_final_message()], giving [final.content]. *)
Class ModelProvider := {
  get_final_message : ExtractRequest -> res (list content_block)
}.

(** [next((b.text for b in content if b.type == "text"), "{}")] *)
Fixpoint first_text (content : list content_block) : pystr :=
  match content with
  | [] => lit "{}"
  | b :: rest =>
      if str_eqb (block_type b) (lit "text") then block_text b
      else first_text rest
  end.

Definition fence : pystr := lit "```".

(** [re.sub(r"^```(?:json)?\s*", "", text)]: the pattern can match at the
    start of the text only, and takes the tag and all the white space
    that follow the fence. *)
Definition sub_fence_open (text : pystr) : pystr :=
  match strip_prefix fence text with
  | Some r =>
      lstrip (match strip_prefix (lit "json") r with Some r' => r' | None => r end)
  | None => text
  end.

(** Whether [\s*```$] matches at the head of [s]; what is left of [s]
    after the match is empty, or the line feed that [$] stops before. *)
Definition fence_close_at (s : pystr) : option pystr :=
  match strip_prefix fence (lstrip s) with
  | Some [] => Some []
  | Some [c] => if (c =? 10)%N then Some [c] else None
  | _ => None
  end.

(** [re.sub(r"\s*```$", "", text)]: the leftmost match is removed. *)
Fixpoint sub_fence_close (text : pystr) : pystr :=
  match fence_close_at text with
  | Some after => after
  | None =>
      match text with
      | [] => []
      | c :: r => c :: sub_fence_close r
      end
  end.

(** The text from the first occurrence of [c] on. *)
Fixpoint seek (c : char) (s : pystr) : option pystr :=
  match s with
  | [] => None
  | x :: r => if char_eqb x c then Some s else seek c r
  end.

(** [re.search(r"\{.*\}", text, re.DOTALL)]: [match.group()], from the
    first opening brace to the last closing brace after it. *)
Definition search_braces (text : pystr) : option pystr :=
  match seek 123%N text with
  | Some (open :: r) =>
      match seek 125%N (rev r) with
      | Some t => Some (open :: rev t)
      | None => None
      end
  | _ => None
  end.

(** [{"has_charts": False, "confidence": 0.0, "charts": []}] *)
Definition no_charts : pyval :=
  PyDict [(lit "has_charts", PyBool false);
          (lit "confidence", PyFloat (lit "0.0"));
          (lit "charts", PyList [])].

(** Lines 236-254: the text of the reply to the returned document. *)
Definition parse_reply (content : list content_block) : res pyval :=
  let text := strip (first_text content) in
  let text := sub_fence_open text in
  let text := sub_fence_close text in
  match json_loads text with
  | Some v => Ret v
  | None =>
      (* except json.JSONDecodeError *)
      match search_braces text with
      | Some span =>
          match json_loads span with
          | Some v => Ret v
          | None => Ret no_charts
          end
      | None => Ret no_charts
      end
  end.

Section ExtractRoute.
Context `{ModelProvider}.

Definition extract_chart (request : ExtractRequest) : res pyval :=
  match image request with
  | [] => Raise (HTTPException 400 (lit "Empty image data"))
  | _ :: _ =>
      match get_final_message request with
      | Ret content => parse_reply content
      | Raise (JSONDecodeError _) =>
          (* the handler reads [text] before it was ever assigned *)
          Raise (Exception
            (lit "cannot access local variable 'text' where it is not associated with a value"))
      | Raise e =>
          Raise (HTTPException 500 (lit "Extraction failed: " ++ exn_str e))
      end
  end.
End ExtractRoute.

(** ** [json.dumps(obj, indent=2, ensure_ascii=False)] *)

(** What the interpreter computes and the embedding does not write out. *)
Class PyRuntime := {
  (** what [json.dumps] writes for [float(literal)] *)
  float_json : pystr -> pystr;
  (** [str(float(literal))] *)
  float_str : pystr -> pystr;
  (** [bool(float(literal))] *)
  float_truth : pystr -> bool;
  (** [str(o)] of a list or a dict *)
  container_str : pyval -> pystr;
  (** [s.title()] *)
  str_title : pystr -> pystr;
  (** the class [\w] of [re] on a [str] pattern *)
  is_word_char : char -> bool
}.

Definition hex_digit (n : N) : char := (if n <? 10 then 48 + n else 87 + n)%N.

(** [ESCAPE_DCT] of [json.encoder]: the quote, the backslash and the
    control characters are escaped, nothing else. *)
Definition escape_char (c : char) : pystr :=
  (if c =? 34 then [92; 34]
   else if c =? 92 then [92; 92]
   else if c =? 10 then [92; 110]
   else if c =? 13 then [92; 114]
   else if c =? 9 then [92; 116]
   else if c =? 8 then [92; 98]
   else if c =? 12 then [92; 102]
   else if c <? 32 then [92; 117; 48; 48; hex_digit (c / 16); hex_digit (c mod 16)]
   else [c])%N.

(** [encode_basestring(s)] *)
Definition encode_basestring (s : pystr) : pystr :=
  34%N :: flat_map escape_char s ++ [34%N].

(** [sep.join(parts)] *)
Fixpoint join (sep : pystr) (parts : list pystr) : pystr :=
  match parts with
  | [] => []
  | [p] => p
  | p :: rest => p ++ sep ++ join sep rest
  end.

(** ['\n' + ' ' * (2 * level)] *)
Definition newline_indent (level : nat) : pystr :=
  10%N :: repeat 32%N (2 * level).

Section Dumps.
Context `{PyRuntime}.

(** [_iterencode(o, _current_indent_level)], the chunks joined. *)
Fixpoint iterencode (level : nat) (o : pyval) {struct o} : pystr :=
  match o with
  | PyNone => lit "null"
  | PyBool true => lit "true"
  | PyBool false => lit "false"
  | PyInt n => str_of_Z n
  | PyFloat l => float_json l
  | PyStr s => encode_basestring s
  | PyList [] => lit "[]"
  | PyList items =>
      lit "[" ++ newline_indent (S level)
        ++ join (lit "," ++ newline_indent (S level))
             (List.map (iterencode (S level)) items)
        ++ newline_indent level ++ lit "]"
  | PyDict [] => lit "{}"
  | PyDict items =>
      lit "{" ++ newline_indent (S level)
        ++ join (lit "," ++ newline_indent (S level))
             (List.map (fun kv => encode_basestring (fst kv) ++ lit ": "
                                  ++ iterencode (S level) (snd kv)) items)
        ++ newline_indent level ++ lit "}"
  end.

Definition json_dumps (obj : pyval) : pystr := iterencode 0 obj.
End Dumps.

(** ** [str.encode()] and [bytes.decode()]: UTF-8 *)

Definition byte_of_N (n : N) : byte :=
  match Byte.of_N n with Some b => b | None => x00 end.

(** The bytes of one code point; a surrogate has none
    ([UnicodeEncodeError]). *)
Definition utf8_char (c : char) : option bytes :=
  (if c <? 128 then Some [byte_of_N c]
   else if c <? 2048 then
     Some [byte_of_N (192 + c / 64); byte_of_N (128 + c mod 64)]
   else if is_surrogate c then None
   else if c <? 65536 then
     Some [byte_of_N (224 + c / 4096); byte_of_N (128 + (c / 64) mod 64);
           byte_of_N (128 + c mod 64)]
   else if c <? 1114112 then
     Some [byte_of_N (240 + c / 262144); byte_of_N (128 + (c / 4096) mod 64);
           byte_of_N (128 + (c / 64) mod 64); byte_of_N (128 + c mod 64)]
   else None)%N.

Fixpoint utf8_encode (s : pystr) : option bytes :=
  match s with
  | [] => Some []
  | c :: s' =>
      match utf8_char c, utf8_encode s' with
      | Some b, Some bs => Some (b ++ bs)
      | _, _ => None
      end
  end.

(** [s.encode()] *)
Definition str_encode (s : pystr) : res bytes :=
  match utf8_encode s with
  | Some b => Ret b
  | None =>
      Raise (Exception (lit "'utf-8' codec can't encode character: surrogates not allowed"))
  end.

Definition is_continuation (b : byte) : bool :=
  ((128 <=? Byte.to_N b) && (Byte.to_N b <? 192))%N.

(** [b.decode("utf-8")]: shortest forms only, no surrogates, nothing above
    [0x10FFFF]; [None] stands for [UnicodeDecodeError]. *)
Fixpoint utf8_decode (b : bytes) : option pystr :=
  let cons_to c r :=
    match r with Some t => Some (c :: t) | None => None end in
  match b with
  | [] => Some []
  | b0 :: r =>
      let n0 := Byte.to_N b0 in
      (if n0 <? 128 then cons_to n0 (utf8_decode r)
       else if n0 <? 194 then None
       else if n0 <? 224 then
         match r with
         | b1 :: r1 =>
             if is_continuation b1 then
               cons_to ((n0 - 192) * 64 + (Byte.to_N b1 - 128)) (utf8_decode r1)
             else None
         | _ => None
         end
       else if n0 <? 240 then
         match r with
         | b1 :: b2 :: r2 =>
             let c := (n0 - 224) * 4096 + (Byte.to_N b1 - 128) * 64
                      + (Byte.to_N b2 - 128) in
             if is_continuation b1 && is_continuation b2
                && negb (c <? 2048) && negb (is_surrogate c)
             then cons_to c (utf8_decode r2) else None
         | _ => None
         end
       else if n0 <? 245 then
         match r with
         | b1 :: b2 :: b3 :: r3 =>
             let c := (n0 - 240) * 262144 + (Byte.to_N b1 - 128) * 4096
                      + (Byte.to_N b2 - 128) * 64 + (Byte.to_N b3 - 128) in
             if is_continuation b1 && is_continuation b2 && is_continuation b3
                && negb (c <? 65536) && (c <? 1114112)
             then cons_to c (utf8_decode r3) else None
         | _ => None
         end
       else None)%N
  end.

(** [json.loads(b.decode())]: the body decoded as UTF-8, strictly, and
    parsed. *)
Definition json_loads_bytes (b : bytes) : option pyval :=
  match utf8_decode b with
  | Some s => json_loads s
  | None => None
  end.

(** ** Export Serializer: [POST /api/export] *)

(** [re.sub(r"[\\/*?:\[\]]", "_", name)] on one character. *)
Definition sheet_char (c : char) : char :=
  (if (c =? 92) || (c =? 47) || (c =? 42) || (c =? 63) || (c =? 58)
      || (c =? 91) || (c =? 93)
   then 95 else c)%N.

(** [f"{base}_{suffix}"] *)
Definition suffixed (base : pystr) (suffix : Z) : pystr :=
  base ++ 95%N :: str_of_Z suffix.

(** The [while candidate in existing] loop; [fuel] bounds its rounds. *)
Fixpoint probe_name (fuel : nat) (base candidate : pystr) (suffix : Z)
  (existing : list pystr) : pystr :=
  match fuel with
  | O => candidate
  | S fuel' =>
      if mem_str candidate existing
      then probe_name fuel' base (suffixed base suffix) (suffix + 1) existing
      else candidate
  end.

(** [safe_sheet_name(name, existing)].  The loop leaves after at most
    [len(existing)] rounds with a name that is free (see
    [safe_sheet_name_fresh]), so the bound on the rounds is never what
    ends it. *)
Definition safe_sheet_name (name : pystr) (existing : list pystr) : pystr :=
  let base :=
    match firstn 28 (List.map sheet_char name) with
    | [] => lit "Chart"
    | b => b
    end in
  probe_name (S (List.length existing)) base base 1 existing.

(** A chart as the route receives it: a [dict]. *)
Abbreviation chart := (list (list N * pyval)) (only parsing).

Record ExportRequest : Type := {
  charts : list chart;
  format : pystr;
  filename : pystr
}.

(** [StreamingResponse(io.BytesIO(body), media_type=..., headers=...)] *)
Record FileResponse : Type := {
  body : bytes;
  content_type : pystr;
  content_disposition : pystr
}.

(** A sheet of the workbook: its title and its rows of cell values. *)
Record worksheet : Type := {
  ws_title : pystr;
  ws_rows : list (list pyval)
}.

(** The calls into openpyxl, taken together: the sheets are created and
    filled in order, styled, sized and saved ([wb.save(out)]).  Whatever
    the library refuses on the way (a cell value it cannot convert, a
    character it does not allow) is an exception of its own, [inr] with
    its message. *)
Class Openpyxl := {
  wb_save : list worksheet -> bytes + pystr
}.

Definition TypeError : exn := Exception (lit "TypeError").
Definition AttributeError : exn := Exception (lit "AttributeError").

Section Values.
Context `{PyRuntime}.

(** [str(o)], which is also [format(o, "")] of an f-string field. *)
Definition py_str (o : pyval) : pystr :=
  match o with
  | PyNone => lit "None"
  | PyBool true => lit "True"
  | PyBool false => lit "False"
  | PyInt n => str_of_Z n
  | PyFloat l => float_str l
  | PyStr s => s
  | PyList _ | PyDict _ => container_str o
  end.

(** [bool(o)] *)
Definition truthy (o : pyval) : bool :=
  match o with
  | PyNone => false
  | PyBool b => b
  | PyInt n => negb (n =? 0)%Z
  | PyFloat l => float_truth l
  | PyStr [] | PyList [] | PyDict [] => false
  | PyStr _ | PyList _ | PyDict _ => true
  end.

(** [a or b] *)
Definition py_or (a b : pyval) : pyval := if truthy a then a else b.

(** [d.get(key, default)] *)
Definition get (d : chart) (key : pystr) (default : pyval) : pyval :=
  match dict_get d key with Some v => v | None => default end.

(** [row.get(key, default)] on a value that may not be a [dict]. *)
Definition obj_get (o : pyval) (key : pystr) (default : pyval) : res pyval :=
  match o with
  | PyDict d => Ret (get d key default)
  | _ => Raise AttributeError
  end.

(** [vals.get(s, "")] where the key [s] is any value: a list or a dict
    is not hashable, and only a [str] can equal a key. *)
Definition get_by (d : chart) (s : pyval) : res pyval :=
  match s with
  | PyStr k => Ret (get d k (PyStr []))
  | PyList _ | PyDict _ => Raise TypeError
  | _ => Ret (PyStr [])
  end.

(** [for x in o]: the items that the loop visits. *)
Definition py_iter (o : pyval) : res (list pyval) :=
  match o with
  | PyList l => Ret l
  | PyDict d => Ret (List.map (fun kv => PyStr (fst kv)) d)
  | PyStr s => Ret (List.map (fun c => PyStr [c]) s)
  | _ => Raise TypeError
  end.

(** [for x in xs: f(x)], collecting the results. *)
Fixpoint for_each {A B} (f : A -> res B) (xs : list A) : res (list B) :=
  match xs with
  | [] => Ret []
  | x :: xs' =>
      match f x with
      | Ret y =>
          match for_each f xs' with
          | Ret ys => Ret (y :: ys)
          | Raise e => Raise e
          end
      | Raise e => Raise e
      end
  end.

(** [title = chart.get("title") or f"Chart {i + 1}"] *)
Definition chart_title (i : nat) (c : chart) : pyval :=
  py_or (get c (lit "title") PyNone)
        (PyStr (lit "Chart " ++ str_of_Z (Z.of_nat i + 1))).

(** [f"Value ({unit})" if unit else "Value"] *)
Definition value_label (unit : pyval) : pystr :=
  if truthy unit then lit "Value (" ++ py_str unit ++ lit ")"
  else lit "Value".

(** The header row of the table of a chart. *)
Definition table_header (series unit : pyval) : res (list pyval) :=
  if truthy series then
    match series with
    | PyList names => Ret (PyStr (lit "Category") :: names)
    | _ => Raise TypeError
    end
  else Ret [PyStr (lit "Category"); PyStr (value_label unit)].

(** The row of one data point. *)
Definition table_row (series : pyval) (row : pyval) : res (list pyval) :=
  if truthy series then
    match obj_get row (lit "values") PyNone with
    | Raise e => Raise e
    | Ret vals0 =>
        let vals := py_or vals0 (PyDict []) in
        match obj_get row (lit "label") (PyStr []) with
        | Raise e => Raise e
        | Ret label =>
            match py_iter series with
            | Raise e => Raise e
            | Ret names =>
                match for_each
                        (fun s => match vals with
                                  | PyDict d => get_by d s
                                  | _ => Raise AttributeError
                                  end) names with
                | Ret cells => Ret (label :: cells)
                | Raise e => Raise e
                end
            end
        end
    end
  else
    match obj_get row (lit "label") (PyStr []) with
    | Raise e => Raise e
    | Ret label =>
        match obj_get row (lit "value") (PyStr []) with
        | Ret value => Ret [label; value]
        | Raise e => Raise e
        end
    end.

(** The header row and the data rows of a chart, as both the CSV and the
    spreadsheet branch lay them out. *)
Definition chart_table (c : chart) : res (list (list pyval)) :=
  let unit := get c (lit "unit") (PyStr []) in
  let series := py_or (get c (lit "series") PyNone) (PyList []) in
  let data := py_or (get c (lit "data") PyNone) (PyList []) in
  match table_header series unit with
  | Raise e => Raise e
  | Ret header =>
      match py_iter data with
      | Raise e => Raise e
      | Ret points =>
          match for_each (table_row series) points with
          | Ret rows => Ret (header :: rows)
          | Raise e => Raise e
          end
      end
  end.
End Values.

(** *** [csv.writer(buf)] with the default dialect

    Comma delimiter, double quote as quote character with doubling,
    [QUOTE_MINIMAL], line terminator [\r\n]. *)

Definition csv_special (c : char) : bool :=
  ((c =? 44) || (c =? 34) || (c =? 13) || (c =? 10))%N.

Definition crlf : pystr := [13%N; 10%N].

Section Csv.
Context `{PyRuntime}.

(** The text of a field: a [str] as it is, [None] as the empty string,
    anything else through [str]. *)
Definition field_text (o : pyval) : pystr :=
  match o with
  | PyStr s => s
  | PyNone => []
  | _ => py_str o
  end.

Definition quote_field (text : pystr) : pystr :=
  34%N :: flat_map (fun c => if (c =? 34)%N then [c; c] else [c]) text
    ++ [34%N].

Definition csv_field (o : pyval) : pystr :=
  let text := field_text o in
  if existsb csv_special text then quote_field text else text.

(** [w.writerow(row)]: the line added to the buffer.  A row of one
    empty field is written as a pair of quotes. *)
Definition writerow (row : list pyval) : pystr :=
  match row with
  | [o] =>
      match field_text o with
      | [] => quote_field []
      | _ => csv_field o
      end ++ crlf
  | _ => join [44%N] (List.map csv_field row) ++ crlf
  end.

(** Lines 289-309: the rows of chart number [i] (from 0). *)
Definition csv_block (i : nat) (c : chart) : res (list (list pyval)) :=
  let title := chart_title i c in
  let ctype := get c (lit "type") (PyStr (lit "unknown")) in
  let unit := get c (lit "unit") (PyStr []) in
  match chart_table c with
  | Raise e => Raise e
  | Ret table =>
      Ret ((match i with O => [] | S _ => [[]] end)
           ++ [PyStr (lit "Chart: " ++ py_str title);
               PyStr (lit "Type: " ++ py_str ctype);
               PyStr (lit "Unit: " ++ py_str unit)]
           :: [] :: table)
  end.

(** [for i, chart in enumerate(charts)], from index [i]. *)
Fixpoint csv_rows (i : nat) (cs : list chart) : res (list (list pyval)) :=
  match cs with
  | [] => Ret []
  | c :: cs' =>
      match csv_block i c with
      | Raise e => Raise e
      | Ret rows =>
          match csv_rows (S i) cs' with
          | Ret more => Ret (rows ++ more)
          | Raise e => Raise e
          end
      end
  end.

(** [buf.getvalue()] after the loop. *)
Definition csv_text (cs : list chart) : res pystr :=
  match csv_rows 0 cs with
  | Ret rows => Ret (concat (List.map writerow rows))
  | Raise e => Raise e
  end.
End Csv.

(** The byte order mark that ["utf-8-sig"] puts first. *)
Definition utf8_bom : bytes := [xef; xbb; xbf].

Section ExportRoute.
Context `{PyRuntime} `{Openpyxl}.

(** Lines 329-369: the sheet of chart number [i]; [existing] are the
    names given so far. *)
Definition xlsx_sheet (i : nat) (c : chart) (existing : list pystr)
  : res worksheet :=
  let title := chart_title i c in
  let ctype := get c (lit "type") (PyStr (lit "unknown")) in
  let unit := get c (lit "unit") (PyStr []) in
  match title with
  | PyStr t =>
      let sname := safe_sheet_name t existing in
      match ctype with
      | PyStr ty =>
          let shown :=
            str_title (List.map (fun x => if (x =? 95)%N then 32%N else x) ty) in
          match chart_table c with
          | Raise e => Raise e
          | Ret table =>
              Ret {| ws_title := sname;
                     ws_rows :=
                       [PyStr (lit "Chart"); title]
                         :: [PyStr (lit "Type"); PyStr shown]
                         :: [PyStr (lit "Unit"); unit]
                         :: [] :: table |}
          end
      | _ => Raise AttributeError
      end
  | _ => Raise TypeError
  end.

(** [for i, chart in enumerate(charts)] of the spreadsheet branch, from
    index [i] with the names [existing_sheets]. *)
Fixpoint xlsx_sheets (i : nat) (cs : list chart) (existing_sheets : list pystr)
  : res (list worksheet) :=
  match cs with
  | [] => Ret []
  | c :: cs' =>
      match xlsx_sheet i c existing_sheets with
      | Raise e => Raise e
      | Ret ws =>
          match xlsx_sheets (S i) cs' (existing_sheets ++ [ws_title ws]) with
          | Ret more => Ret (ws :: more)
          | Raise e => Raise e
          end
      end
  end.

(** [re.sub(r"[^\w\-_]", "_", request.filename) or "chart_data"] *)
Definition safe_filename (name : pystr) : pystr :=
  match List.map (fun c => if is_word_char c || (c =? 45)%N || (c =? 95)%N
                           then c else 95%N) name with
  | [] => lit "chart_data"
  | fn => fn
  end.

(** The formats that the route knows, on the lowered name. *)
Definition recognised (fmt : pystr) : bool :=
  str_eqb fmt (lit "json") || str_eqb fmt (lit "csv") || str_eqb fmt (lit "xlsx").

(** A status of the 400 class. *)
Definition client_error (status : Z) : Prop := (400 <= status < 500)%Z.

(** [f'attachment; filename="{fn}.ext"'] *)
Definition attachment (fn ext : pystr) : pystr :=
  lit "attachment; filename=" ++ 34%N :: fn ++ ext ++ [34%N].

Definition export_data (request : ExportRequest) : res FileResponse :=
  match charts request with
  | [] => Raise (HTTPException 400 (lit "No charts provided for export."))
  | _ :: _ =>
      let fmt := lower (format request) in
      let fn := safe_filename (filename request) in
      if str_eqb fmt (lit "json") then
        match str_encode
                (json_dumps (PyList (List.map PyDict (charts request)))) with
        | Ret payload =>
            Ret {| body := payload;
                   content_type := lit "application/json";
                   content_disposition := attachment fn (lit ".json") |}
        | Raise e => Raise e
        end
      else if str_eqb fmt (lit "csv") then
        match csv_text (charts request) with
        | Raise e => Raise e
        | Ret text =>
            match str_encode text with
            | Ret b =>
                Ret {| body := utf8_bom ++ b;
                       content_type := lit "text/csv";
                       content_disposition := attachment fn (lit ".csv") |}
            | Raise e => Raise e
            end
        end
      else if str_eqb fmt (lit "xlsx") then
        match xlsx_sheets 0 (charts request) [] with
        | Raise e => Raise e
        | Ret sheets =>
            match wb_save sheets with
            | inl out =>
                Ret {| body := out;
                       content_type :=
                         lit "application/vnd.openxmlformats-officedocument.spreadsheetml.sheet";
                       content_disposition := attachment fn (lit ".xlsx") |}
            | inr msg => Raise (Exception msg)
            end
        end
      else
        Raise (HTTPException 400
          (lit "Unknown format '" ++ fmt ++ lit "'. Use xlsx, csv, or json."))
  end.
End ExportRoute.

(** The text ends with an ASCII digit. *)
Definition ends_in_digit (C : pystr) : Prop :=
  exists p x, C = p ++ [x] /\ is_digit x = true.

(** What [scan_once] can consume: a text that opens with a brace, or one
    that does not end with a closing brace. *)
Definition value_text (C : pystr) : Prop :=
  (exists q, C = 123%N :: q) \/ (exists p x, C = p ++ [x] /\ x <> 125%N).

(** A reply of one text block. *)
Definition text_reply (t : pystr) : list content_block :=
  [{| block_type := lit "text"; block_text := t |}].

(** A text without an opening brace. *)
Definition no_brace (p : pystr) : Prop := Forall (fun c => c <> 123%N) p.

(** A text without braces. *)
Definition brace_free (p : pystr) : Prop :=
  Forall (fun c => c <> 123%N /\ c <> 125%N) p.

(** The decimal numeral of [n]: digits, no leading zero, value [n]. *)
Definition numeral (n : N) (ds : pystr) : Prop :=
  Forall (fun c => is_digit c = true) ds /\
  N_of_digits ds = n /\
  match ds with
  | [] => False
  | c :: ds' => c = 48%N -> n = 0%N /\ ds' = []
  end.

(** The names that the loop tries, in order: the base, then the base with
    the suffixes 1, 2, ... *)
Definition candidate (base : pystr) (j : nat) : pystr :=
  match j with
  | O => base
  | S _ => suffixed base (Z.of_nat j)
  end.

(** The name that the base of [name] leads to. *)
Definition sheet_base (name : pystr) : pystr :=
  match firstn 28 (List.map sheet_char name) with
  | [] => lit "Chart"
  | b => b
  end.

(** A chart whose title fills the 28 characters of the base. *)
Definition long_title : pystr := repeat 65%N 28.
Definition long_chart : list (pystr * pyval) := [(lit "title", PyStr long_title)].

(** Two charts titled [Q1]. *)
Definition q1_chart : list (pystr * pyval) := [(lit "title", PyStr (lit "Q1"))].

(** What may follow a value in a JSON text without being read as part of
    a number. *)
Definition delimited (rest : pystr) : Prop :=
  match rest with
  | [] => True
  | c :: _ => is_digit c = false /\ c <> 46%N /\ c <> 101%N /\ c <> 69%N
  end.

(** The text [l] is a float of JSON: the scanner reads all of it, and
    reads a float. *)
Definition float_text (l : pystr) : bool :=
  match match_number l with
  | Some (PyFloat l', []) => str_eqb l' l
  | _ => false
  end.

(** A text that starts as a number does: a digit, or a minus sign and a
    digit. *)
Definition number_start (s : pystr) : Prop :=
  match s with
  | c :: t =>
      is_digit c = true \/
      (c = 45%N /\ match t with d :: _ => is_digit d = true | [] => False end)
  | [] => False
  end.

(** The values that [json.dumps] and [json.loads] take to each other.  A
    float is held as a literal: it has to be one that [json.dumps] writes
    as it stands, and that reads as a float.  The keys of a dict are
    distinct, as they are in Python. *)
Fixpoint plain `{PyRuntime} (o : pyval) : Prop :=
  match o with
  | PyFloat l => float_text l = true /\ float_json l = l
  | PyList items =>
      (fix all (l : list pyval) : Prop :=
         match l with
         | [] => True
         | x :: l' => plain x /\ all l'
         end) items
  | PyDict items =>
      NoDup (List.map fst items) /\
      (fix all (l : list (pystr * pyval)) : Prop :=
         match l with
         | [] => True
         | kv :: l' => plain (snd kv) /\ all l'
         end) items
  | _ => True
  end.

(** The first character of an encoded value: no white space, no closing
    bracket, no comma. *)
Definition value_start (c : N) : Prop :=
  json_space c = false /\ c <> 93%N /\ c <> 125%N /\ c <> 44%N.

(** [scan_once] reads an encoded value back, whatever the indentation
    and whatever follows it. *)
Definition reads_back `{PyRuntime} (o : pyval) : Prop :=
  plain o ->
  forall level rest, delimited rest ->
  exists f, scan_once f (iterencode level o ++ rest) = Found o rest.

(** The separator of the items: a comma, a new line and the indentation. *)
Definition comma_indent (level : nat) : pystr := lit "," ++ newline_indent level.

(** A key and its value, as [_iterencode_dict] writes them. *)
Definition encode_pair `{PyRuntime} (level : nat) (kv : pystr * pyval) : pystr :=
  encode_basestring (fst kv) ++ lit ": " ++ iterencode level (snd kv).

(** A Unicode scalar value: a code point that is not a surrogate.  These
    are the characters UTF-8 has bytes for. *)
Definition scalar (c : char) : bool :=
  ((c <? 1114112) && negb (is_surrogate c))%N.

(** No string and no key of the value holds a surrogate. *)
Fixpoint utf8_clean (o : pyval) : bool :=
  match o with
  | PyStr s => forallb scalar s
  | PyList items => forallb utf8_clean items
  | PyDict items =>
      forallb (fun kv => forallb scalar (fst kv) && utf8_clean (snd kv)) items
  | _ => true
  end.

(** All the characters of [s] have bytes in UTF-8. *)
Definition encodable (s : pystr) : Prop := Forall (fun c => scalar c = true) s.

(** [charts], the list [json.dumps] is given. *)
Definition charts_value (request : ExportRequest) : pyval :=
  PyList (List.map PyDict (charts request)).

(** [{"title": "Caf\u00e9", "confidence": 0.95,
      "data": [{"label": "Jan", "value": 42.5}, {"label": "Feb", "value": -3}]}] *)
Definition cafe : chart :=
  [(lit "title", PyStr (lit "Caf" ++ [233%N]));
   (lit "confidence", PyFloat (lit "0.95"));
   (lit "data",
    PyList [PyDict [(lit "label", PyStr (lit "Jan")); (lit "value", PyFloat (lit "42.5"))];
            PyDict [(lit "label", PyStr (lit "Feb")); (lit "value", PyInt (-3))]])].

(** [{"title": "\ud800"}]: a title that is one high surrogate, as
    [json.loads] gives it for the escape. *)
Definition lone_surrogate : chart := [(lit "title", PyStr [55296%N])].

Definition surrogate_request : ExportRequest :=
  {| charts := [lone_surrogate]; format := lit "json"; filename := lit "chart_data" |}.

Definition cafe_request : ExportRequest :=
  {| charts := [cafe; [(lit "title", PyStr (lit "Q1")); (lit "series", PyList [])]];
     format := lit "JSON"; filename := lit "chart_data" |}.

(** The picture of a shape that the slide loop keeps: the shape is a
    picture and its blob normalises. *)
Definition usable_picture `{Pillow} (slide_num : Z) (sh : shape) : list PageImage :=
  match is_picture sh with
  | Ret true =>
      match image_blob sh with
      | Ret blob =>
          match compress_image blob max_side_default with
          | Ret (b64, mt) =>
              [{| page := slide_num; data := b64; media_type := mt;
                  placeholder := None |}]
          | Raise _ => []
          end
      | Raise _ => []
      end
  | _ => []
  end.

(** The entry of a slide: its first usable picture, or the placeholder. *)
Definition slide_image `{Pillow} (slide_num : Z) (shapes : list shape) : PageImage :=
  match flat_map (usable_picture slide_num) shapes with
  | img :: _ => img
  | [] => placeholder_image slide_num
  end.

(** [upload_file] with the name of the file replaced. *)
Definition renamed (file : UploadFile) (name : pystr) : UploadFile :=
  {| file_filename := Some name; file_content := file_content file |}.

(** A deck of two slides, under a name in capitals. *)
Definition sample_deck : UploadFile :=
  {| file_filename := Some (lit "Deck.PPTX"); file_content := [x00; x05] |}.

(** A document of three pages. *)
Definition sample_pdf : UploadFile :=
  {| file_filename := Some (lit "report.pdf"); file_content := [x10; x20; x30] |}.

(** The modes that [compress_image] converts. *)
Definition converted_modes : list pystr := [lit "RGBA"; lit "P"; lit "LA"].

(** The characters of base64 text: the 64 digits and the padding. *)
Definition b64_symbol (c : char) : bool :=
  ((65 <=? c) && (c <=? 90) || (97 <=? c) && (c <=? 122) || (48 <=? c) && (c <=? 57)
   || (c =? 43) || (c =? 47) || (c =? 61))%N.

(** A block that is not a text block (a thinking block, for one). *)
Definition other_block (b : content_block) : Prop := block_type b <> lit "text".

(** A reply that thinks first and then answers twice. *)
Definition thinking_reply : list content_block :=
  [{| block_type := lit "thinking"; block_text := lit "{oops" |};
   {| block_type := lit "text"; block_text := lit "[1]" |};
   {| block_type := lit "text"; block_text := lit "[2]" |}].

(** A character that [safe_filename] keeps: a word character, a hyphen
    or an underscore. *)
Definition filename_char `{PyRuntime} (c : char) : bool :=
  is_word_char c || (c =? 45)%N || (c =? 95)%N.

(** A character that [safe_sheet_name] replaces. *)
Definition sheet_illegal (c : char) : bool :=
  ((c =? 92) || (c =? 47) || (c =? 42) || (c =? 63) || (c =? 58)
   || (c =? 91) || (c =? 93))%N.

(** [vals] of a data point of a chart with series:
    [row.get("values") or {}]. *)
Definition point_values `{PyRuntime} (p : chart) : pyval :=
  py_or (get p (lit "values") PyNone) (PyDict []).

(** The row of a data point under the series [names]: the label, and
    for every series its value, or the empty string. *)
Definition series_row `{PyRuntime} (names : list pystr) (p : chart) : list pyval :=
  get p (lit "label") (PyStr [])
    :: match point_values p with
       | PyDict d => List.map (fun s => get d s (PyStr [])) names
       | _ => []
       end.

(** [{"title": "Survey", "series": ["Yes", "No"],
      "data": [{"label": "Q1", "values": {"Yes": 3}}, {"label": "Q2"}]}] *)
Definition survey : chart :=
  [(lit "title", PyStr (lit "Survey"));
   (lit "series", PyList [PyStr (lit "Yes"); PyStr (lit "No")]);
   (lit "data",
    PyList [PyDict [(lit "label", PyStr (lit "Q1"));
                    (lit "values", PyDict [(lit "Yes", PyInt 3)])];
            PyDict [(lit "label", PyStr (lit "Q2"))]])].

(** [{"title": "Broken", "data": [{"label": "a", "value": 1}, 7]}] *)
Definition broken : chart :=
  [(lit "title", PyStr (lit "Broken"));
   (lit "data", PyList [PyDict [(lit "label", PyStr (lit "a")); (lit "value", PyInt 1)];
                        PyInt 7])].

(** [s.split(sep)] for a separator of one character: the pieces between
    the separators, of which there is always at least one. *)
Fixpoint split_on (sep : char) (s : pystr) : list pystr :=
  match s with
  | [] => [[]]
  | c :: r =>
      if char_eqb c sep then [] :: split_on sep r
      else
        match split_on sep r with
        | piece :: pieces => (c :: piece) :: pieces
        | [] => [[c]]
        end
  end.

(** The two origins that are written into the list. *)
Definition local_origins : list pystr :=
  [lit "http://localhost:3000"; lit "http://127.0.0.1:3000"].

(** [ALLOWED_ORIGINS] (lines 23-29), from the value of the environment
    variable of that name, [None] when it is not set:
    the pieces of the value between commas, each stripped, without the
    pieces that are empty once stripped, after the two local origins.
    A variable that is not set counts as the empty text. *)
Definition allowed_origins (env : option pystr) : list pystr :=
  local_origins
    ++ List.map strip
         (filter (fun o => match strip o with [] => false | _ :: _ => true end)
            (split_on 44%N (match env with Some v => v | None => [] end))).

(** The text of a reply after the cleaning steps of [extract_chart]:
    stripped, and the opening and the closing fence taken off. *)
Definition cleaned (text : pystr) : pystr :=
  sub_fence_close (sub_fence_open (strip text)).

(** [str(c.value or "")] of a cell; a cell that was never written holds
    [None]. *)
Definition cell_text `{PyRuntime} (value : pyval) : pystr :=
  py_str (py_or value (PyStr [])).

(** [max((len(str(c.value or "")) for c in col_cells), default=8)] *)
Definition widest `{PyRuntime} (col_cells : list pyval) : nat :=
  match col_cells with
  | [] => 8%nat
  | _ :: _ => fold_right Nat.max 0%nat (List.map (fun c => length (cell_text c)) col_cells)
  end.

(** Lines 372-376: the width that is set for every column of a sheet
    with the rows [rows].  [ws.columns] goes through the columns up to
    the longest row, each with one cell per row. *)
Definition column_widths `{PyRuntime} (rows : list (list pyval)) : list Z :=
  List.map
    (fun j => Z.min (Z.of_nat (widest (List.map (fun row => nth j row PyNone) rows)) + 3) 60)
    (seq 0 (fold_right Nat.max 0%nat (List.map (@length pyval) rows))).

(** ** Stand-ins for the libraries

    Small instances of the library interfaces, on which the routes can be
    run: a picture is one byte that gives its width, a document has one
    page or slide per byte. *)

Module Sample.
Definition open_picture (b : bytes) : res (pil_image unit) :=
  match b with
  | [] => Raise (Exception (lit "cannot identify image file"))
  | x :: _ => Ret (Image (lit "RGBA") (Z.of_N (Byte.to_N x) * 100, 300)%Z tt)
  end.

#[export] Instance pillow : Pillow := {|
  raster := unit;
  Image_open := open_picture;
  convert_RGB := fun _ => tt;
  resample_LANCZOS := fun _ _ => tt;
  save_JPEG := fun img => Ret [xff; xd8; xff; xd9]
|}.

#[export] Instance pymupdf : PyMuPDF := {|
  pdf_page := byte;
  fitz_open := fun b => Ret b;
  pixmap_png := fun p => Ret [p]
|}.

(** A slide per byte: [x00] is a slide without shapes, any other byte a
    slide with a text box and two pictures. *)
Definition slide_of (x : byte) : list shape :=
  match x with
  | x00 => []
  | _ =>
      [ {| is_picture := Ret false; image_blob := Raise AttributeError |};
        {| is_picture := Ret true; image_blob := Ret [x] |};
        {| is_picture := Ret true; image_blob := Ret [x; x] |} ]
  end.

#[export] Instance pptx : PythonPptx := {|
  import_pptx := Ret tt;
  Presentation := fun b => Ret (List.map slide_of b)
|}.

#[export] Instance runtime : PyRuntime := {|
  float_json := fun l => l;
  float_str := fun l => l;
  float_truth := fun l => negb (forallb (fun c => negb (is_digit c) || (c =? 48)%N) l);
  container_str := fun _ => lit "[...]";
  str_title := fun s => s;
  is_word_char := fun c => is_digit c || ((65 <=? c) && (c <=? 90))%N
                           || ((97 <=? c) && (c <=? 122))%N || (c =? 95)%N
|}.

#[export] Instance openpyxl : Openpyxl := {|
  wb_save := fun sheets => inl (List.map (fun _ => x50) sheets)
|}.

(** A provider that answers with the text it was sent as the image. *)
#[export] Instance provider : ModelProvider := {|
  get_final_message := fun request => Ret (text_reply (image request))
|}.

(** [{"label": "Jan", "value": 100}] *)
Definition jan : chart :=
  [(lit "label", PyStr (lit "Jan")); (lit "value", PyInt 100)].

(** [{"title": "Sales", "unit": "$", "data": [{"label": "Jan", "value": 100}]}] *)
Definition sales : chart :=
  [(lit "title", PyStr (lit "Sales")); (lit "unit", PyStr (lit "$"));
   (lit "data", PyList [PyDict jan])].

Definition sample_png : UploadFile :=
  {| file_filename := Some (lit "Chart.PNG"); file_content := [x20] |}.
End Sample.

(** * Properties *)

(** ** Strings *)

Lemma str_eqb_spec a b : reflect (a = b) (str_eqb a b).
Proof.
  revert b; induction a as [|x a IH]; intros [|y b]; simpl;
    try (constructor; congruence).
  unfold char_eqb. destruct (N.eqb_spec x y) as [->|Hne]; simpl.
  - destruct (IH b) as [->|Hne]; constructor; congruence.
  - constructor; congruence.
Qed.

Lemma str_eqb_refl a : str_eqb a a = true.
Proof. destruct (str_eqb_spec a a); congruence. Qed.

Lemma str_eqb_eq a b : str_eqb a b = true <-> a = b.
Proof. destruct (str_eqb_spec a b); split; congruence. Qed.

Lemma strip_prefix_app p s r : strip_prefix p s = Some r <-> s = p ++ r.
Proof.
  revert s; induction p as [|x p IH]; intros s; simpl.
  - split; congruence.
  - destruct s as [|y s]; [split; discriminate|].
    unfold char_eqb. destruct (N.eqb_spec x y) as [->|Hne].
    + rewrite IH. split; congruence.
    + split; [discriminate | congruence].
Qed.

Lemma startswith_app s p : startswith s p = true <-> exists r, s = p ++ r.
Proof.
  unfold startswith. destruct (strip_prefix p s) as [r|] eqn:E.
  - apply strip_prefix_app in E. split; eauto.
  - split; [discriminate|]. intros [r Hr]. apply strip_prefix_app in Hr. congruence.
Qed.

Lemma endswith_app s p : endswith s p = true <-> exists r, s = r ++ p.
Proof.
  unfold endswith. rewrite startswith_app. split; intros [r Hr].
  - exists (rev r). rewrite <- (rev_involutive s), Hr, rev_app_distr.
    now rewrite rev_involutive.
  - exists (rev r). now rewrite Hr, rev_app_distr.
Qed.

(** Two suffixes that end in different characters exclude each other. *)
Lemma endswith_other s p q x y :
  x <> y -> endswith s (p ++ [x]) = true -> endswith s (q ++ [y]) = false.
Proof.
  intros Hxy Hp. destruct (endswith s (q ++ [y])) eqn:Hq; [|reflexivity].
  apply endswith_app in Hp, Hq. destruct Hp as [r1 H1], Hq as [r2 H2].
  rewrite H1 in H2. rewrite !app_assoc in H2.
  apply app_inj_tail in H2. destruct H2 as [_ ?]. contradiction.
Qed.

(** ** Document Rasterizer *)

Section UploadProperties.
Context `{Pillow} `{PyMuPDF} `{PythonPptx}.

Lemma compress_image_media_type b m d mt :
  compress_image b m = Ret (d, mt) -> mt = image_jpeg.
Proof.
  unfold compress_image, bind. destruct (Image_open b); [|discriminate].
  destruct (prepare_image _ _); [|discriminate].
  destruct (save_JPEG _); [|discriminate]. congruence.
Qed.

Lemma pdf_pages_media_type pages : forall i imgs,
  pdf_pages i pages = Ret imgs ->
  Forall (fun p => media_type p = image_jpeg) imgs.
Proof.
  induction pages as [|p pages IH]; intros i imgs; simpl.
  - intros [= <-]. constructor.
  - unfold bind. destruct (pixmap_png p); [|discriminate].
    destruct (compress_image _ _) as [[d mt]|] eqn:E; [|discriminate].
    destruct (pdf_pages (i + 1) pages) eqn:E'; [|discriminate].
    intros [= <-]. constructor; eauto using compress_image_media_type.
Qed.

Lemma slide_pictures_media_type shapes : forall n imgs,
  slide_pictures n shapes = Ret imgs ->
  Forall (fun p => media_type p = image_jpeg) imgs.
Proof.
  induction shapes as [|sh shapes IH]; intros n imgs; simpl.
  - intros [= <-]. constructor.
  - unfold bind at 1. destruct (is_picture sh) as [pic|]; [|discriminate].
    unfold bind at 2.
    destruct (slide_pictures n shapes) as [more|] eqn:E; [|discriminate].
    intros [= <-]. apply Forall_app. split; [|eauto].
    destruct pic; [|constructor].
    unfold bind. destruct (image_blob sh); [|constructor].
    destruct (compress_image _ _) as [[d mt]|] eqn:E'; [|constructor].
    repeat constructor. simpl. eauto using compress_image_media_type.
Qed.

Lemma pptx_slides_media_type slides : forall n imgs,
  pptx_slides n slides = Ret imgs ->
  Forall (fun p => media_type p = image_jpeg) imgs.
Proof.
  induction slides as [|sl slides IH]; intros n imgs; simpl.
  - intros [= <-]. constructor.
  - unfold bind.
    destruct (slide_pictures n sl) as [pics|] eqn:E; [|discriminate].
    destruct (pptx_slides (n + 1) slides) as [more|] eqn:E'; [|discriminate].
    intros [= <-]. apply Forall_app. split; [|eauto].
    apply slide_pictures_media_type in E.
    destruct pics as [|p pics]; simpl.
    + repeat constructor.
    + inversion E; subst. repeat constructor. assumption.
Qed.

Lemma pptx_images_media_type content imgs :
  pptx_images content = Ret imgs ->
  Forall (fun p => media_type p = image_jpeg) imgs.
Proof.
  unfold pptx_images, try_except, bind.
  destruct import_pptx as [[]|e]; [|destruct e; discriminate].
  destruct (Presentation content) as [prs|e]; [|destruct e; discriminate].
  destruct (pptx_slides 1 prs) as [l|e] eqn:E; [|destruct e; discriminate].
  intros [= <-]. eauto using pptx_slides_media_type.
Qed.

Lemma upload_file_pdf file :
  endswith (lowered_name file) (lit ".pdf") = true ->
  upload_file file = upload_answer file (pdf_images (file_content file)).
Proof.
  unfold upload_file, lowered_name, upload_answer. intros ->.
  unfold bind. destruct (pdf_images _) as [[|]|]; reflexivity.
Qed.

Lemma upload_file_pptx file :
  endswith (lowered_name file) (lit ".pptx") = true ->
  upload_file file = upload_answer file (pptx_images (file_content file)).
Proof.
  unfold upload_file, lowered_name, upload_answer. intros Hx.
  rewrite (endswith_other _ (lit ".ppt") (lit ".pd") (x:=120%N) (y:=102%N))
    by (discriminate || exact Hx).
  unfold raster_suffixes, existsb.
  rewrite (endswith_other _ (lit ".ppt") (lit ".pn") (x:=120%N) (y:=103%N))
    by (discriminate || exact Hx).
  rewrite (endswith_other _ (lit ".ppt") (lit ".jp") (x:=120%N) (y:=103%N))
    by (discriminate || exact Hx).
  rewrite (endswith_other _ (lit ".ppt") (lit ".jpe") (x:=120%N) (y:=103%N))
    by (discriminate || exact Hx).
  rewrite (endswith_other _ (lit ".ppt") (lit ".web") (x:=120%N) (y:=112%N))
    by (discriminate || exact Hx).
  rewrite (endswith_other _ (lit ".ppt") (lit ".gi") (x:=120%N) (y:=102%N))
    by (discriminate || exact Hx).
  simpl. rewrite Hx. unfold bind.
  destruct (pptx_images _) as [[|]|]; reflexivity.
Qed.
End UploadProperties.

Section RasterizerClaims.
Context `{Pillow} `{PyMuPDF} `{PythonPptx}.

(** C10: every [PageImage] that the upload operation returns has the media
    type ["image/jpeg"], whatever the kind of the file was: the normaliser
    answers with that media type on every path, and a placeholder is
    built with it. *)
Theorem upload_media_type_jpeg file resp :
  upload_file file = Ret resp ->
  Forall (fun p => media_type p = image_jpeg) (images resp).
Proof.
  unfold upload_file, bind.
  destruct (endswith _ (lit ".pdf")).
  - destruct (pdf_images _) as [imgs|] eqn:E; [|discriminate].
    unfold pdf_images, bind in E. destruct (fitz_open _); [|discriminate].
    apply pdf_pages_media_type in E.
    destruct imgs; [discriminate|]. intros [= <-]. exact E.
  - destruct (existsb _ raster_suffixes).
    + destruct (compress_image _ _) as [[d mt]|] eqn:E; [|discriminate].
      intros [= <-]. simpl. repeat constructor. simpl.
      eauto using compress_image_media_type.
    + destruct (endswith _ (lit ".pptx")); [|discriminate].
      destruct (pptx_images _) as [imgs|] eqn:E; [|discriminate].
      apply pptx_images_media_type in E.
      destruct imgs; [discriminate|]. intros [= <-]. exact E.
Qed.

Lemma pdf_pages_spec pages : forall i,
  Forall page_ok pages ->
  exists imgs,
    pdf_pages i pages = Ret imgs /\
    List.map page imgs =
      List.map (fun k => i + Z.of_nat k)%Z (seq 1 (length pages)) /\
    (forall k p, nth_error pages k = Some p ->
       exists img png,
         nth_error imgs k = Some img /\ pixmap_png p = Ret png /\
         compress_image png max_side_default = Ret (data img, media_type img)).
Proof.
  induction pages as [|p pages IH]; intros i Hok.
  - exists []. repeat split; try reflexivity. intros [|k] q; discriminate.
  - inversion Hok as [|? ? (png & d & mt & Hpng & Hc) Hrest]; subst.
    destruct (IH (i + 1)%Z Hrest) as (imgs & Himgs & Hpages & Hnth).
    eexists. simpl. unfold bind. rewrite Hpng, Hc, Himgs. split; [reflexivity|].
    split.
    + simpl. f_equal. rewrite Hpages, <- (seq_shift (length pages) 1), map_map.
      apply map_ext. intros k. lia.
    + intros [|k] q Hq; simpl in *.
      * injection Hq as <-. do 2 eexists. repeat split; eauto.
      * eauto.
Qed.

(** C5: a PDF of more than 30 pages gives exactly 30 entries, numbered 1 to
    30 in page order, and one of [n <= 30] pages gives exactly [n] entries
    numbered 1 to [n]; entry [i] is the normalised render of page [i].
    The pages are those that render and normalise; the list is what the
    upload operation returns as soon as there is a page at all. *)
Theorem pdf_page_cap content doc :
  fitz_open content = Ret doc ->
  Forall page_ok (firstn 30 doc) ->
  exists imgs,
    pdf_images content = Ret imgs /\
    List.map page imgs = List.map Z.of_nat (seq 1 (Nat.min (length doc) 30)) /\
    (30 < length doc -> length imgs = 30)%nat /\
    (length doc <= 30 -> length imgs = length doc)%nat /\
    (forall k p, nth_error (firstn 30 doc) k = Some p ->
       exists img png,
         nth_error imgs k = Some img /\ pixmap_png p = Ret png /\
         compress_image png max_side_default = Ret (data img, media_type img)) /\
    (forall file,
       file_content file = content ->
       endswith (lowered_name file) (lit ".pdf") = true ->
       doc <> [] ->
       upload_file file =
         Ret {| resp_filename := file_filename file;
                total_pages := Z.of_nat (Nat.min (length doc) 30);
                images := imgs |}).
Proof.
  intros Hopen Hok.
  destruct (pdf_pages_spec 0 Hok) as (imgs & Himgs & Hpages & Hnth).
  assert (Hlen : length imgs = Nat.min (length doc) 30).
  { rewrite <- (length_map page imgs), Hpages, length_map, length_seq.
    rewrite length_firstn. lia. }
  exists imgs. split; [unfold pdf_images, bind; now rewrite Hopen|].
  split; [rewrite Hpages, length_firstn, Nat.min_comm; reflexivity|].
  split; [lia|]. split; [lia|]. split; [exact Hnth|].
  intros file Hc Hpdf Hne. rewrite upload_file_pdf by assumption.
  rewrite Hc. unfold pdf_images, bind. rewrite Hopen, Himgs.
  unfold upload_answer. destruct imgs as [|im imgs].
  - destruct doc; [congruence | discriminate].
  - now rewrite Hlen.
Qed.

(** A PDF without pages is refused: the list is empty, and the operation
    answers 400. *)
Lemma pdf_no_pages file :
  fitz_open (file_content file) = Ret [] ->
  endswith (lowered_name file) (lit ".pdf") = true ->
  response_status (upload_file file) = 400%Z.
Proof.
  intros Hopen Hpdf. rewrite upload_file_pdf by assumption.
  unfold pdf_images, bind. now rewrite Hopen.
Qed.
End RasterizerClaims.

Section SlideDeckClaims.
Context `{Pillow} `{PyMuPDF} `{PythonPptx}.

Lemma slide_pictures_total n shapes :
  readable shapes ->
  exists pics,
    slide_pictures n shapes = Ret pics /\ (no_pictures shapes -> pics = []).
Proof.
  induction shapes as [|sh shapes IH]; intros Hr.
  - exists []. split; reflexivity.
  - inversion Hr as [|? ? [b Hb] Hrest]; subst.
    destruct (IH Hrest) as (more & Hmore & Hnone).
    simpl. unfold bind at 1. rewrite Hb. unfold bind at 2. rewrite Hmore.
    eexists. split; [reflexivity|].
    intros Hno. inversion Hno as [|? ? Hsh Hno']; subst.
    rewrite Hsh in Hb. injection Hb as <-. now rewrite (Hnone Hno').
Qed.

Lemma pptx_slides_spec slides : forall n,
  Forall readable slides ->
  exists imgs,
    pptx_slides n slides = Ret imgs /\
    length imgs = length slides /\
    (forall k slide, nth_error slides k = Some slide ->
       exists img,
         nth_error imgs k = Some img /\ page img = (n + Z.of_nat k)%Z /\
         (no_pictures slide -> img = placeholder_image (n + Z.of_nat k))).
Proof.
  induction slides as [|sl slides IH]; intros n Hr.
  - exists []. repeat split. intros [|k] s; discriminate.
  - inversion Hr as [|? ? Hsl Hrest]; subst.
    destruct (slide_pictures_total n Hsl) as (pics & Hpics & Hnone).
    destruct (IH (n + 1)%Z Hrest) as (imgs & Himgs & Hlen & Hnth).
    assert (Hpage : Forall (fun p => page p = n) pics).
    { clear - Hpics. revert pics Hpics.
      induction sl as [|sh sl IHs]; intros pics; simpl.
      - intros [= <-]. constructor.
      - unfold bind at 1. destruct (is_picture sh) as [pic|]; [|discriminate].
        unfold bind at 2. destruct (slide_pictures n sl); [|discriminate].
        intros [= <-]. apply Forall_app. split; [|auto].
        destruct pic; [|constructor]. unfold bind.
        destruct (image_blob sh); [|constructor].
        destruct (compress_image _ _) as [[d mt]|]; repeat constructor. }
    simpl. unfold bind. rewrite Hpics, Himgs.
    destruct pics as [|pic pics]; simpl; eexists; (split; [reflexivity|]);
      (split; [simpl; now rewrite Hlen|]).
    + intros [|k] s Hs; simpl in *.
      * injection Hs as <-. eexists. split; [reflexivity|].
        replace (n + 0)%Z with n by lia. split; [reflexivity|]. reflexivity.
      * destruct (Hnth k s Hs) as (img & Hi & Hp & Hph). exists img.
        replace (n + Z.pos (Pos.of_succ_nat k))%Z with (n + 1 + Z.of_nat k)%Z by lia.
        auto.
    + intros [|k] s Hs; simpl in *.
      * injection Hs as <-. eexists. split; [reflexivity|].
        replace (n + 0)%Z with n by lia. inversion Hpage; subst.
        split; [reflexivity|]. intros Hno. discriminate (Hnone Hno).
      * destruct (Hnth k s Hs) as (img & Hi & Hp & Hph). exists img.
        replace (n + Z.pos (Pos.of_succ_nat k))%Z with (n + 1 + Z.of_nat k)%Z by lia.
        auto.
Qed.

(** C9: every slide of a deck contributes exactly one [PageImage],
    numbered by its 1-based position, however many pictures it holds; the
    entry of a slide with zero picture shapes has [placeholder = True]
    and [data = ""].  The list is what the upload operation returns for a
    deck that has a slide. *)
Theorem slide_deck_one_image_per_slide content slides :
  import_pptx = Ret tt ->
  Presentation content = Ret slides ->
  Forall readable slides ->
  exists imgs,
    pptx_images content = Ret imgs /\
    length imgs = length slides /\
    (forall k slide, nth_error slides k = Some slide ->
       exists img,
         nth_error imgs k = Some img /\ page img = (Z.of_nat k + 1)%Z /\
         (no_pictures slide -> placeholder img = Some true /\ data img = [])) /\
    (forall file,
       file_content file = content ->
       endswith (lowered_name file) (lit ".pptx") = true ->
       slides <> [] ->
       upload_file file =
         Ret {| resp_filename := file_filename file;
                total_pages := Z.of_nat (length slides);
                images := imgs |}).
Proof.
  intros Himp Hprs Hr.
  destruct (pptx_slides_spec 1 Hr) as (imgs & Himgs & Hlen & Hnth).
  assert (Hrun : pptx_images content = Ret imgs).
  { unfold pptx_images, try_except, bind. now rewrite Himp, Hprs, Himgs. }
  exists imgs. split; [exact Hrun|]. split; [exact Hlen|]. split.
  - intros k slide Hk. destruct (Hnth k slide Hk) as (img & Hi & Hp & Hph).
    exists img. split; [exact Hi|]. split; [lia|].
    intros Hno. rewrite (Hph Hno). split; reflexivity.
  - intros file Hc Hx Hne. rewrite upload_file_pptx by assumption.
    rewrite Hc, Hrun. unfold upload_answer. destruct imgs as [|im imgs].
    + destruct slides; [congruence | discriminate].
    + now rewrite Hlen.
Qed.
End SlideDeckClaims.

Section RasterizerWitnesses.
Import Sample.

Lemma upload_media_type_jpeg_witness :
  exists resp,
    upload_file sample_png = Ret resp /\
    Forall (fun p => media_type p = image_jpeg) (images resp).
Proof.
  eexists. split; [vm_compute; reflexivity|].
  apply (@upload_media_type_jpeg pillow pymupdf pptx sample_png). vm_compute. reflexivity.
Defined.

Lemma pdf_page_cap_witness :
  exists imgs,
    pdf_images (repeat x10 31) = Ret imgs /\
    List.map page imgs = List.map Z.of_nat (seq 1 30) /\ length imgs = 30%nat.
Proof.
  destruct (@pdf_page_cap pillow pymupdf pptx (repeat x10 31) (repeat x10 31))
    as (imgs & Hrun & Hpages & Hbig & _).
  - reflexivity.
  - change (firstn 30 (repeat x10 31)) with (repeat x10 30).
    apply Forall_forall. intros p Hp. apply repeat_spec in Hp.
    subst p. exists [x10]. do 2 eexists. split; [reflexivity|].
    vm_compute. reflexivity.
  - exists imgs. split; [exact Hrun|]. split; [exact Hpages|].
    apply Hbig. simpl. lia.
Defined.

Lemma slide_deck_one_image_per_slide_witness :
  exists imgs,
    pptx_images [x00; x05] = Ret imgs /\ length imgs = 2%nat.
Proof.
  destruct (@slide_deck_one_image_per_slide pillow pymupdf pptx
              [x00; x05] [[]; Sample.slide_of x05])
    as (imgs & Hrun & Hlen & _).
  - reflexivity.
  - reflexivity.
  - repeat constructor; eexists; reflexivity.
  - exists imgs. split; [exact Hrun | exact Hlen].
Defined.
End RasterizerWitnesses.

(** ** Image Normalizer *)

(** *** Rounding to binary64 *)

Lemma round_half_even_error q :
  Qabs (inject_Z (round_half_even q) - q) <= 1 # 2.
Proof.
  unfold round_half_even.
  pose proof (Qfloor_le q) as Hlo. pose proof (Qlt_floor q) as Hhi.
  rewrite inject_Z_plus in Hhi. change (inject_Z 1) with 1 in Hhi.
  apply Qabs_Qle_condition.
  destruct (Qcompare_spec (q - inject_Z (Qfloor q)) (1 # 2)) as [E|E|E].
  - destruct (Z.even (Qfloor q)); [|rewrite inject_Z_plus; change (inject_Z 1) with 1];
      split; lra.
  - split; lra.
  - rewrite inject_Z_plus; change (inject_Z 1) with 1. split; lra.
Qed.

Lemma two_power_pos k : 0 < 2 ^ k.
Proof. apply Qpower_0_lt. reflexivity. Qed.

Lemma binade_le a : 0 < a -> 2 ^ binade a <= a.
Proof.
  intros Ha. unfold binade.
  destruct (Qle_bool (2 ^ _) a) eqn:E; [now apply Qle_bool_iff in E|].
  destruct a as [n d]. cbn [Qnum Qden].
  assert (Hn : (0 < n)%Z) by (unfold Qlt in Ha; simpl in Ha; lia).
  pose proof (Z.log2_spec n Hn) as [Hn1 _].
  pose proof (Z.log2_spec (Zpos d) (Pos2Z.is_pos d)) as [_ Hd2].
  pose proof (Z.log2_nonneg n). pose proof (Z.log2_nonneg (Zpos d)).
  replace (Z.log2 n - Z.log2 (Z.pos d) - 1)%Z
    with (Z.log2 n - (Z.succ (Z.log2 (Z.pos d))))%Z by lia.
  rewrite Qpower_minus by discriminate.
  change (2:Q) with (inject_Z 2).
  rewrite <- !Zpower_Qpower by lia.
  apply Qle_shift_div_r.
  - change 0 with (inject_Z 0). rewrite <- Zlt_Qlt. lia.
  - unfold Qle, Qmult, inject_Z. cbn [Qnum Qden]. rewrite Pos.mul_1_r.
    set (A := (2 ^ Z.log2 n)%Z) in *.
    set (B := (2 ^ Z.succ (Z.log2 (Z.pos d)))%Z) in *.
    assert (0 < A)%Z by (apply Z.pow_pos_nonneg; lia).
    nia.
Qed.

Lemma round53_error x : Qabs (round53 x - x) <= Qabs x * unit_roundoff.
Proof.
  unfold round53. destruct (Qeq_bool x 0) eqn:E0.
  - apply Qeq_bool_iff in E0. rewrite E0. vm_compute. discriminate.
  - assert (Hx : ~ x == 0) by (intro Hx; apply Qeq_bool_iff in Hx; congruence).
    assert (Ha : 0 < Qabs x).
    { destruct (Qlt_le_dec 0 (Qabs x)) as [|Hle]; [assumption|].
      exfalso. apply Hx. apply Qabs_Qle_condition in Hle. lra. }
    set (a := Qabs x) in *. set (e := (binade a - 52)%Z).
    pose proof (binade_le Ha) as Hb.
    pose proof (two_power_pos e) as He.
    assert (Hsplit : 2 ^ binade a == 2 ^ e * (4503599627370496 # 1)).
    { replace (binade a) with (e + 52)%Z by (unfold e; lia).
      rewrite Qpower_plus by discriminate. reflexivity. }
    pose proof (round_half_even_error (a / 2 ^ e)) as Hr.
    set (m := inject_Z (round_half_even (a / 2 ^ e))) in *.
    apply Qabs_Qle_condition in Hr. destruct Hr as [Hr1 Hr2].
    assert (Hq : a / 2 ^ e * 2 ^ e == a) by (field; lra).
    assert (Hm : Qabs (m * 2 ^ e - a) <= a * unit_roundoff).
    { apply Qabs_Qle_condition. unfold unit_roundoff. split.
      - assert (- (1 # 2) * 2 ^ e <= (m - a / 2 ^ e) * 2 ^ e)
          by (apply Qmult_le_compat_r; lra).
        lra.
      - assert ((m - a / 2 ^ e) * 2 ^ e <= (1 # 2) * 2 ^ e)
          by (apply Qmult_le_compat_r; lra).
        lra. }
    destruct (Qle_bool 0 x) eqn:Es.
    + apply Qle_bool_iff in Es. assert (Hax : a == x) by (apply Qabs_pos; assumption).
      rewrite <- Hax. exact Hm.
    + assert (Hneg : x < 0).
      { destruct (Qlt_le_dec x 0); [assumption|].
        assert (Qle_bool 0 x = true) by (apply Qle_bool_iff; assumption). congruence. }
      assert (Hax : a == - x) by (apply Qabs_neg; lra).
      assert (Heq : - (m * 2 ^ e) - x == - (m * 2 ^ e - a)) by (rewrite Hax; ring).
      rewrite Heq, Qabs_opp. exact Hm.
Qed.


Lemma fl_bounds x :
  0 <= x ->
  x * (1 - unit_roundoff) <= fl x /\ fl x <= x * (1 + unit_roundoff).
Proof.
  intros Hx. pose proof (round53_error x) as He.
  rewrite (Qabs_pos x Hx) in He. apply Qabs_Qle_condition in He.
  unfold fl. split; lra.
Qed.

Lemma int_of_float_lt p b :
  0 <= p -> p < inject_Z b + 1 -> (0 <= int_of_float p <= b)%Z.
Proof.
  intros H0 Hb. unfold int_of_float.
  assert (E : Qle_bool 0 p = true) by (apply Qle_bool_iff; assumption).
  rewrite E. pose proof (Qfloor_le p) as Hf.
  split.
  - change 0%Z with (Qfloor 0). apply Qfloor_resp_le. assumption.
  - assert (Hlt : inject_Z (Qfloor p) < inject_Z (b + 1)).
    { rewrite inject_Z_plus. change (inject_Z 1) with 1. lra. }
    rewrite <- Zlt_Qlt in Hlt. lia.
Qed.

(** A side [w] of a picture whose longer side [M] exceeds [S], scaled as
    [int(w * ratio)]: at most [S], and at most [w]. *)
Lemma scaled_side w M S :
  (0 <= w <= M)%Z -> (0 < S < M)%Z -> (M < 2147483648)%Z ->
  let side := int_of_float (fl (inject_Z w * fl (inject_Z S / inject_Z M))) in
  (0 <= side <= S)%Z /\ (side <= w)%Z.
Proof.
  intros Hw HS HM side.
  assert (HMq : 0 < inject_Z M) by (change 0 with (inject_Z 0); rewrite <- Zlt_Qlt; lia).
  assert (HSq : 0 < inject_Z S) by (change 0 with (inject_Z 0); rewrite <- Zlt_Qlt; lia).
  assert (HSM : inject_Z S < inject_Z M) by (rewrite <- Zlt_Qlt; lia).
  assert (Hwq : 0 <= inject_Z w) by (change 0 with (inject_Z 0); rewrite <- Zle_Qle; lia).
  assert (HwM : inject_Z w <= inject_Z M) by (rewrite <- Zle_Qle; lia).
  assert (HMb : inject_Z M <= 2147483648) by
    (change 2147483648 with (inject_Z 2147483648); rewrite <- Zle_Qle; lia).
  set (r0 := inject_Z S / inject_Z M).
  assert (Hr0 : r0 * inject_Z M == inject_Z S) by (unfold r0; field; lra).
  assert (Hr0pos : 0 <= r0) by (apply Qle_shift_div_l; lra).
  assert (Hr0one : r0 <= 1) by (apply Qle_shift_div_r; lra).
  destruct (fl_bounds Hr0pos) as [Hrl Hru]. set (r := fl r0) in *.
  assert (Hrpos : 0 <= r) by (unfold unit_roundoff in *; nra).
  assert (Hxpos : 0 <= inject_Z w * r) by (apply Qmult_le_0_compat; assumption).
  destruct (fl_bounds Hxpos) as [Hpl Hpu]. set (p := fl (inject_Z w * r)) in *.
  set (t := inject_Z w * r0).
  assert (Ht0 : 0 <= t) by (apply Qmult_le_0_compat; assumption).
  assert (HtS : t <= inject_Z S).
  { rewrite <- Hr0. unfold t. rewrite (Qmult_comm r0). apply Qmult_le_compat_r; assumption. }
  assert (Htw : t <= inject_Z w) by (unfold t; nra).
  assert (Hwr : inject_Z w * r <= t * (1 + unit_roundoff)) by (unfold t; nra).
  assert (Hp0 : 0 <= p) by (unfold unit_roundoff in *; nra).
  assert (Hpt : p <= t * ((1 + unit_roundoff) * (1 + unit_roundoff))).
  { unfold unit_roundoff in *. nra. }
  assert (Hslack : forall b, t <= b -> b <= 2147483648 -> p < b + 1).
  { intros b Hb1 Hb2. unfold unit_roundoff in *. nra. }
  split.
  - apply int_of_float_lt; [assumption|]. apply Hslack; lra.
  - apply int_of_float_lt; [assumption|]. apply Hslack; lra.
Qed.

(** A side that scales to two pixels or more is not rounded away. *)
Lemma scaled_side_positive w M S :
  (0 <= w <= M)%Z -> (0 < S < M)%Z -> (2 * M <= w * S)%Z ->
  (1 <= int_of_float (fl (inject_Z w * fl (inject_Z S / inject_Z M))))%Z.
Proof.
  intros Hw HS Hbig.
  assert (HMq : 0 < inject_Z M) by (change 0 with (inject_Z 0); rewrite <- Zlt_Qlt; lia).
  assert (HSq : 0 < inject_Z S) by (change 0 with (inject_Z 0); rewrite <- Zlt_Qlt; lia).
  assert (Hwq : 0 <= inject_Z w) by (change 0 with (inject_Z 0); rewrite <- Zle_Qle; lia).
  assert (Hb : 2 * inject_Z M <= inject_Z w * inject_Z S).
  { change 2 with (inject_Z 2). rewrite <- !inject_Z_mult, <- Zle_Qle. lia. }
  set (r0 := inject_Z S / inject_Z M).
  assert (Hr0 : r0 * inject_Z M == inject_Z S) by (unfold r0; field; lra).
  assert (Hr0pos : 0 <= r0) by (apply Qle_shift_div_l; lra).
  destruct (fl_bounds Hr0pos) as [Hrl Hru]. set (r := fl r0) in *.
  assert (Hrpos : 0 <= r) by (unfold unit_roundoff in *; nra).
  assert (Hxpos : 0 <= inject_Z w * r) by (apply Qmult_le_0_compat; assumption).
  destruct (fl_bounds Hxpos) as [Hpl Hpu]. set (p := fl (inject_Z w * r)) in *.
  set (t := inject_Z w * r0).
  assert (Ht2 : 2 <= t).
  { assert (Ht : t * inject_Z M == inject_Z w * inject_Z S)
      by (unfold t; rewrite <- Hr0; ring).
    apply Qmult_lt_0_le_reg_r with (z := inject_Z M); [assumption|]. lra. }
  assert (Hwr : t * (1 - unit_roundoff) <= inject_Z w * r) by (unfold t; nra).
  assert (Hp1 : 1 <= p) by (unfold unit_roundoff in *; nra).
  unfold int_of_float.
  assert (E : Qle_bool 0 p = true) by (apply Qle_bool_iff; lra).
  rewrite E. change 1%Z with (Qfloor 1). apply Qfloor_resp_le. assumption.
Qed.

Section NormalizerClaims.
Context `{Pillow}.

(** The conversion to RGB keeps the size. *)
Lemma prepare_image_unfold img max_side :
  exists img',
    size img' = size img /\
    prepare_image img max_side =
      if (Z.max (fst (size img)) (snd (size img)) >? max_side)%Z then
        let ratio :=
          fl (inject_Z max_side
              / inject_Z (Z.max (fst (size img)) (snd (size img)))) in
        resize img' (int_of_float (fl (inject_Z (fst (size img)) * ratio)),
                     int_of_float (fl (inject_Z (snd (size img)) * ratio)))
      else Ret img'.
Proof.
  unfold prepare_image.
  set (c := if mem_str (mode img) _ then _ else img).
  assert (Hsize : size c = size img)
    by (unfold c; destruct (mem_str (mode img) _); reflexivity).
  exists c. split; [exact Hsize|].
  rewrite Hsize. destruct (size img) as [w h]. reflexivity.
Qed.

(** C4: the picture that the normaliser encodes never exceeds the
    configured maximum on its longer side, and no side of it is longer
    than it was; a picture whose longer side is at or below the maximum
    keeps its dimensions (and is always produced), and a larger one is
    produced whenever both of its sides scale to two pixels or more. *)
Theorem normalised_size_bounded (img : pil_image raster) (max_side : Z) :
  (0 <= fst (size img) < 2147483648)%Z ->
  (0 <= snd (size img) < 2147483648)%Z ->
  (0 < max_side)%Z ->
  let longer := Z.max (fst (size img)) (snd (size img)) in
  (forall out, prepare_image img max_side = Ret out ->
     (Z.max (fst (size out)) (snd (size out)) <= max_side)%Z /\
     (fst (size out) <= fst (size img))%Z /\
     (snd (size out) <= snd (size img))%Z) /\
  ((longer <= max_side)%Z ->
     exists out, prepare_image img max_side = Ret out /\ size out = size img) /\
  ((max_side < longer)%Z ->
     (2 * longer <= fst (size img) * max_side)%Z ->
     (2 * longer <= snd (size img) * max_side)%Z ->
     exists out, prepare_image img max_side = Ret out).
Proof.
  intros Hw Hh HS longer.
  destruct (prepare_image_unfold img max_side) as (img' & Hsize & ->).
  fold longer. destruct (Z.gtb_spec longer max_side) as [Hgt|Hle].
  - cbv zeta.
    destruct (@scaled_side (fst (size img)) longer max_side) as [Hw1 Hw2];
      try (unfold longer; lia).
    destruct (@scaled_side (snd (size img)) longer max_side) as [Hh1 Hh2];
      try (unfold longer; lia).
    set (ratio := fl (inject_Z max_side / inject_Z longer)) in *.
    set (w' := int_of_float (fl (inject_Z (fst (size img)) * ratio))) in *.
    set (h' := int_of_float (fl (inject_Z (snd (size img)) * ratio))) in *.
    split; [|split; [lia|]].
    + intros out. unfold resize. cbv beta iota.
      destruct ((w' <? 1)%Z || (h' <? 1)%Z); [discriminate|].
      intros [= <-]. simpl. lia.
    + intros _ Hbw Hbh.
      pose proof (@scaled_side_positive (fst (size img)) longer max_side) as Pw.
      pose proof (@scaled_side_positive (snd (size img)) longer max_side) as Ph.
      fold ratio w' in Pw. fold ratio h' in Ph. unfold resize. cbv beta iota.
      destruct (Z.ltb_spec w' 1); [unfold longer in *; lia|].
      destruct (Z.ltb_spec h' 1); [unfold longer in *; lia|].
      simpl. eexists. reflexivity.
  - split; [|split; [|lia]].
    + intros out [= <-]. rewrite Hsize. unfold longer in Hle. lia.
    + intros _. exists img'. split; [reflexivity | exact Hsize].
Qed.
End NormalizerClaims.

Lemma normalised_size_bounded_witness :
  exists out,
    @prepare_image Sample.pillow (Image (lit "RGBA") (3200, 300)%Z tt) 1400
      = Ret out /\
    (Z.max (fst (size out)) (snd (size out)) <= 1400)%Z.
Proof.
  destruct (@normalised_size_bounded Sample.pillow
              (Image (lit "RGBA") (3200, 300)%Z tt) 1400) as (Hall & _ & Hbig);
    try (simpl; lia).
  destruct Hbig as [out Hout]; try (simpl; lia).
  exists out. split; [exact Hout|]. apply (Hall out Hout).
Defined.

(** ** Export Serializer *)

Section ExportErrors.
Context `{PyRuntime} `{Openpyxl}.

Lemma chart_table_no_http c s d : chart_table c <> Raise (HTTPException s d).
Proof.
  unfold chart_table.
  assert (Hrow : forall series points,
             for_each (table_row series) points <> Raise (HTTPException s d)).
  { intros series points. induction points as [|p points IH]; simpl; [discriminate|].
    destruct (table_row series p) as [row|e] eqn:E.
    - destruct (for_each _ points); [discriminate | assumption].
    - intros [= ->]. revert E. unfold table_row.
      destruct (truthy series).
      + destruct p; simpl; try discriminate.
        destruct (py_iter series) as [names|e] eqn:En.
        * set (f := fun s0 : pyval => _).
          assert (Hf : for_each f names <> Raise (HTTPException s d)).
          { clear. induction names as [|x names IHn]; simpl; [discriminate|].
            destruct (f x) as [y|e] eqn:Ef.
            - destruct (for_each f names); [discriminate | assumption].
            - intros [= ->]. unfold f in Ef.
              destruct (py_or _ _); try discriminate.
              destruct x; discriminate. }
          destruct (for_each f names); [discriminate|]. congruence.
        * intros [= ->]. destruct series; discriminate En.
      + destruct p; simpl; discriminate. }
  destruct (table_header _ _) as [hd|e] eqn:Eh.
  - destruct (py_iter _) as [points|e] eqn:Ep.
    + specialize (Hrow (py_or (get c (lit "series") PyNone) (PyList [])) points).
      destruct (for_each _ points); [discriminate | assumption].
    + intros [= ->]. destruct (py_or (get c (lit "data") PyNone) (PyList []));
        discriminate Ep.
  - unfold table_header in Eh. destruct (truthy _); [|discriminate].
    destruct (py_or (get c (lit "series") PyNone) (PyList [])); try discriminate;
      injection Eh as <-; discriminate.
Qed.

Lemma csv_rows_no_http cs : forall i s d,
  csv_rows i cs <> Raise (HTTPException s d).
Proof.
  induction cs as [|c cs IH]; intros i s d; simpl; [discriminate|].
  unfold csv_block. pose proof (@chart_table_no_http c s d) as Hc.
  destruct (chart_table c); [|assumption].
  specialize (IH (S i) s d). destruct (csv_rows (S i) cs); [discriminate | assumption].
Qed.

Lemma xlsx_sheets_no_http cs : forall i existing s d,
  xlsx_sheets i cs existing <> Raise (HTTPException s d).
Proof.
  induction cs as [|c cs IH]; intros i existing s d; simpl; [discriminate|].
  destruct (xlsx_sheet i c existing) as [ws|e] eqn:E.
  - specialize (IH (S i) (existing ++ [ws_title ws]) s d).
    destruct (xlsx_sheets _ _ _); [discriminate | assumption].
  - intros [= ->]. revert E. unfold xlsx_sheet.
    destruct (chart_title i c); try discriminate.
    destruct (get c (lit "type") _); try discriminate.
    pose proof (@chart_table_no_http c s d) as Hc.
    destruct (chart_table c); [discriminate | congruence].
Qed.


(** An empty list is refused whatever the format; [pdf] is refused. *)
Lemma export_refusals (request : ExportRequest) :
  (charts request = [] -> response_status (export_data request) = 400%Z) /\
  (format request = lit "pdf" -> response_status (export_data request) = 400%Z).
Proof.
  unfold export_data. split.
  - intros ->. reflexivity.
  - intros ->. destruct (charts request); reflexivity.
Qed.
End ExportErrors.

Section CsvClaims.
Context `{PyRuntime}.

Lemma for_each_rows (f : pyval -> res (list pyval)) (g : chart -> list pyval)
  (points : list chart) :
  (forall p, f (PyDict p) = Ret (g p)) ->
  for_each f (List.map PyDict points) = Ret (List.map g points).
Proof.
  intros Hf. induction points as [|p points IH]; simpl; [reflexivity|].
  now rewrite Hf, IH.
Qed.

(** C7: the CSV block of a chart without series has the header row
    [Category, Value (<unit>)], or [Category, Value] when the unit is
    absent, and then one row [label, value] per data point; for the chart
    [{title: Sales, unit: $, data: [{label: Jan, value: 100}]}] the header
    line is exactly [Category,Value ($)] and the data line exactly
    [Jan,100]. *)
Theorem csv_single_series (i : nat) (c : chart) (points : list chart) :
  truthy (get c (lit "series") PyNone) = false ->
  get c (lit "data") PyNone = PyList (List.map PyDict points) ->
  let unit := get c (lit "unit") (PyStr []) in
  csv_block i c =
    Ret ((match i with O => [] | S _ => [[]] end)
         ++ [PyStr (lit "Chart: " ++ py_str (chart_title i c));
             PyStr (lit "Type: " ++ py_str (get c (lit "type") (PyStr (lit "unknown"))));
             PyStr (lit "Unit: " ++ py_str unit)]
         :: []
         :: [PyStr (lit "Category"); PyStr (value_label unit)]
         :: List.map (fun p => [get p (lit "label") (PyStr []);
                                get p (lit "value") (PyStr [])]) points) /\
  (truthy unit = true ->
     value_label unit = lit "Value (" ++ py_str unit ++ lit ")") /\
  (dict_get c (lit "unit") = None -> value_label unit = lit "Value") /\
  csv_text [Sample.sales] =
    Ret (lit "Chart: Sales,Type: unknown,Unit: $" ++ crlf
         ++ crlf
         ++ lit "Category,Value ($)" ++ crlf
         ++ lit "Jan,100" ++ crlf).
Proof.
  intros Hseries Hdata unit. split; [|split; [|split]].
  - unfold csv_block, chart_table. fold unit.
    assert (Hs : py_or (get c (lit "series") PyNone) (PyList []) = PyList [])
      by (unfold py_or; now rewrite Hseries).
    assert (Hd : py_or (get c (lit "data") PyNone) (PyList [])
                 = PyList (List.map PyDict points)).
    { rewrite Hdata. unfold py_or. destruct points; reflexivity. }
    rewrite Hs, Hd. unfold table_header. cbn [truthy py_iter].
    rewrite (@for_each_rows (table_row (PyList []))
               (fun p => [get p (lit "label") (PyStr []);
                          get p (lit "value") (PyStr [])])) by reflexivity.
    reflexivity.
  - intros Hu. unfold value_label. now rewrite Hu.
  - intros Hnone. unfold unit, get. rewrite Hnone. reflexivity.
  - vm_compute. reflexivity.
Qed.
End CsvClaims.

Lemma csv_single_series_witness :
  @csv_block Sample.runtime 0 Sample.sales =
    Ret [[PyStr (lit "Chart: Sales"); PyStr (lit "Type: unknown");
          PyStr (lit "Unit: $")];
         [];
         [PyStr (lit "Category"); PyStr (lit "Value ($)")];
         [PyStr (lit "Jan"); PyInt 100]].
Proof.
  destruct (@csv_single_series Sample.runtime 0 Sample.sales [Sample.jan])
    as (Hblock & _); [reflexivity | reflexivity |].
  rewrite Hblock. vm_compute. reflexivity.
Defined.

(** ** The JSON scanner *)

Lemma scanstring_eq s :
  scanstring s =
    match s with
    | [] => None
    | c :: s1 =>
        if (c =? 34)%N then Some ([], s1)
        else
          match next_char s with
          | Some (ch, s') =>
              match scanstring s' with
              | Some (t, rest) => Some (ch :: t, rest)
              | None => None
              end
          | None => None
          end
    end.
Proof.
  destruct s as [|c s1]; [reflexivity|]. simpl.
  destruct (c =? 34)%N; [reflexivity|].
  destruct (c =? 92)%N; [|destruct (c <? 32)%N; reflexivity].
  destruct s1 as [|e s2]; [reflexivity|].
  destruct (e =? 117)%N; [|destruct (simple_escape e); reflexivity].
  destruct s2 as [|a [|b [|c' [|d s3]]]]; try reflexivity.
  destruct (hex4 a b c' d) as [u|]; [|reflexivity].
  destruct (is_high_surrogate u); [|reflexivity].
  destruct s3 as [|x1 [|x2 [|x3 [|x4 [|x5 [|x6 s4]]]]]]; try reflexivity.
  destruct (low_surrogate_escape _); reflexivity.
Qed.

Lemma next_char_consumed s ch s' :
  next_char s = Some (ch, s') -> exists C, s = C ++ s' /\ C <> [].
Proof.
  unfold next_char. destruct s as [|c s1]; [discriminate|].
  destruct (c =? 92)%N.
  - destruct s1 as [|e s2]; [discriminate|].
    destruct (e =? 117)%N.
    + destruct s2 as [|a [|b [|c' [|d s3]]]]; try discriminate.
      destruct (hex4 a b c' d) as [u|]; [|discriminate].
      assert (Hplain : exists C, c :: e :: a :: b :: c' :: d :: s3 = C ++ s3 /\ C <> [])
        by (exists [c; e; a; b; c'; d]; split; [reflexivity | discriminate]).
      destruct (is_high_surrogate u); [|intros [= <- <-]; exact Hplain].
      destruct (low_surrogate_escape s3) eqn:El; [|intros [= <- <-]; exact Hplain].
      intros [= <- <-].
      exists ([c; e; a; b; c'; d] ++ firstn 6 s3). split; [|discriminate].
      rewrite <- app_assoc, firstn_skipn. reflexivity.
    + destruct (simple_escape e); [|discriminate]. intros [= <- <-].
      exists [c; e]. split; [reflexivity | discriminate].
  - destruct (c <? 32)%N; [discriminate|]. intros [= <- <-].
    exists [c]. split; [reflexivity | discriminate].
Qed.

Lemma scanstring_consumed s : forall t rest,
  scanstring s = Some (t, rest) -> exists C, s = C ++ 34%N :: rest.
Proof.
  remember (length s) as n eqn:Hn. revert s Hn.
  induction n as [n IH] using lt_wf_ind. intros s Hn t rest.
  rewrite scanstring_eq. destruct s as [|c s1]; [discriminate|].
  destruct (N.eqb_spec c 34) as [->|Hc].
  - intros [= <- <-]. exists []. reflexivity.
  - destruct (next_char (c :: s1)) as [[ch s']|] eqn:En; [|discriminate].
    destruct (next_char_consumed _ En) as (C & HC & HCne).
    destruct (scanstring s') as [[t' rest']|] eqn:Es; [|discriminate].
    intros [= <- <-].
    assert (Hlen : (length s' < n)%nat).
    { subst n. rewrite HC, length_app. destruct C; [congruence|]. simpl. lia. }
    destruct (IH _ Hlen s' eq_refl _ _ Es) as (C' & HC').
    exists (C ++ C'). rewrite HC, HC', <- app_assoc. reflexivity.
Qed.

Lemma ends_in_digit_app a b : ends_in_digit b -> ends_in_digit (a ++ b).
Proof. intros (p & x & -> & Hx). exists (a ++ p), x. now rewrite app_assoc. Qed.

Lemma take_digits_spec s : forall ds rest,
  take_digits s = (ds, rest) ->
  s = ds ++ rest /\ Forall (fun c => is_digit c = true) ds.
Proof.
  induction s as [|c s IH]; intros ds rest; simpl.
  - intros [= <- <-]. split; [reflexivity | constructor].
  - destruct (is_digit c) eqn:Ec.
    + destruct (take_digits s) as [ds' rest'].
      destruct (IH ds' rest' eq_refl) as [-> Hall].
      intros [= <- <-]. split; [reflexivity | constructor; assumption].
    + intros [= <- <-]. split; [reflexivity | constructor].
Qed.

Lemma digits_end ds :
  ds <> [] -> Forall (fun c => is_digit c = true) ds -> ends_in_digit ds.
Proof.
  intros Hne Hall. destruct (exists_last Hne) as (p & x & ->).
  exists p, x. split; [reflexivity|].
  apply Forall_app in Hall. destruct Hall as [_ Hx]. now inversion Hx.
Qed.

Lemma scan_sign_spec s m r :
  scan_sign s = (m, r) -> s = m ++ r /\ (m = [] \/ m = [45%N]).
Proof.
  unfold scan_sign. destruct s as [|c s]; [intros [= <- <-]; auto|].
  destruct (N.eqb_spec c 45) as [->|]; intros [= <- <-]; auto.
Qed.

Lemma scan_int_spec s ds r :
  scan_int s = Some (ds, r) -> s = ds ++ r /\ ends_in_digit ds.
Proof.
  unfold scan_int. destruct s as [|c s]; [discriminate|].
  destruct (N.eqb_spec c 48) as [->|].
  - intros [= <- <-]. split; [reflexivity|]. exists [], 48%N. auto.
  - destruct (is_digit c) eqn:Ec; [|discriminate].
    destruct (take_digits s) as [ds' rest'] eqn:Et.
    apply take_digits_spec in Et. destruct Et as [-> Hall].
    intros [= <- <-]. split; [reflexivity|].
    apply digits_end; [discriminate | constructor; assumption].
Qed.

Lemma scan_frac_spec s m r :
  scan_frac s = (m, r) -> s = m ++ r /\ (m = [] \/ ends_in_digit m).
Proof.
  unfold scan_frac. destruct s as [|c s]; [intros [= <- <-]; auto|].
  destruct (c =? 46)%N; [|intros [= <- <-]; auto].
  destruct (take_digits s) as [[|f fs] rest] eqn:Et; [intros [= <- <-]; auto|].
  apply take_digits_spec in Et. destruct Et as [-> Hall].
  intros [= <- <-]. split; [reflexivity|]. right.
  apply (ends_in_digit_app [c]). apply digits_end; [discriminate | assumption].
Qed.

Lemma scan_exp_spec s m r :
  scan_exp s = (m, r) -> s = m ++ r /\ (m = [] \/ ends_in_digit m).
Proof.
  unfold scan_exp. destruct s as [|c s]; [intros [= <- <-]; auto|].
  destruct ((c =? 101) || (c =? 69))%N; [|intros [= <- <-]; auto].
  assert (Hsign : exists esign r',
            match s with
            | c' :: r'' => if ((c' =? 45) || (c' =? 43))%N then ([c'], r'') else ([], s)
            | [] => ([], s)
            end = (esign, r') /\ s = esign ++ r').
  { destruct s as [|c' s']; [exists [], []; auto|].
    destruct ((c' =? 45) || (c' =? 43))%N; do 2 eexists; split; reflexivity. }
  destruct Hsign as (esign & r' & -> & ->).
  destruct (take_digits r') as [[|f fs] rest] eqn:Et; [intros [= <- <-]; auto|].
  apply take_digits_spec in Et. destruct Et as [-> Hall].
  intros [= <- <-]. split; [simpl; now rewrite <- app_assoc|]. right.
  apply (ends_in_digit_app (c :: esign)). apply digits_end; [discriminate | assumption].
Qed.

Lemma match_number_consumed s v rest :
  match_number s = Some (v, rest) ->
  exists C, s = C ++ rest /\ ends_in_digit C.
Proof.
  unfold match_number.
  destruct (scan_sign s) as [sign s1] eqn:E1. apply scan_sign_spec in E1.
  destruct E1 as [-> _].
  destruct (scan_int s1) as [[ds s2]|] eqn:E2; [|discriminate].
  apply scan_int_spec in E2. destruct E2 as [-> Hds].
  destruct (scan_frac s2) as [frac s3] eqn:E3. apply scan_frac_spec in E3.
  destruct E3 as [-> Hfrac].
  destruct (scan_exp s3) as [exp s4] eqn:E4. apply scan_exp_spec in E4.
  destruct E4 as [-> Hexp].
  intros Hv. assert (rest = s4) by (destruct frac, exp; congruence). subst s4.
  exists (sign ++ ds ++ frac ++ exp). split; [now rewrite <- !app_assoc|].
  apply ends_in_digit_app.
  destruct Hexp as [->|Hexp].
  - rewrite app_nil_r. destruct Hfrac as [->|Hfrac].
    + now rewrite app_nil_r.
    + now apply ends_in_digit_app.
  - rewrite app_assoc. now apply ends_in_digit_app.
Qed.

Lemma scan_atom_consumed s v rest :
  scan_atom s = Some (v, rest) ->
  exists C, s = C ++ rest /\ value_text C.
Proof.
  unfold scan_atom.
  assert (Hlit : forall l x r, strip_prefix (l ++ [x]) s = Some r -> x <> 125%N ->
            exists C, s = C ++ r /\ value_text C).
  { intros l x r Hp Hx. apply strip_prefix_app in Hp. exists (l ++ [x]).
    split; [assumption|]. right. eauto. }
  destruct (strip_prefix (lit "null") s) eqn:E1.
  { intros [= <- <-]. apply (Hlit (lit "nul") 108%N); [assumption | discriminate]. }
  destruct (strip_prefix (lit "true") s) eqn:E2.
  { intros [= <- <-]. apply (Hlit (lit "tru") 101%N); [assumption | discriminate]. }
  destruct (strip_prefix (lit "false") s) eqn:E3.
  { intros [= <- <-]. apply (Hlit (lit "fals") 101%N); [assumption | discriminate]. }
  destruct (strip_prefix (lit "NaN") s) eqn:E4.
  { intros [= <- <-]. apply (Hlit (lit "Na") 78%N); [assumption | discriminate]. }
  destruct (strip_prefix (lit "Infinity") s) eqn:E5.
  { intros [= <- <-]. apply (Hlit (lit "Infinit") 121%N); [assumption | discriminate]. }
  destruct (strip_prefix (lit "-Infinity") s) eqn:E6.
  { intros [= <- <-]. apply (Hlit (lit "-Infinit") 121%N); [assumption | discriminate]. }
  intros Hn. apply match_number_consumed in Hn.
  destruct Hn as (C & -> & p & x & -> & Hx). eexists. split; [reflexivity|].
  right. exists p, x. split; [reflexivity|]. intros ->. discriminate.
Qed.

Lemma skip_ws_split s :
  exists ws, s = ws ++ skip_ws s /\ Forall (fun c => json_space c = true) ws.
Proof.
  induction s as [|c s (ws & IH & Hws)]; simpl.
  - exists []. split; [reflexivity | constructor].
  - destruct (json_space c) eqn:Ec.
    + exists (c :: ws). split; [simpl; congruence | constructor; assumption].
    + exists []. split; [reflexivity | constructor].
Qed.

Ltac list_eq :=
  subst; simpl;
  repeat (rewrite <- app_assoc || rewrite <- app_comm_cons);
  try reflexivity.

Lemma scan_consumed fuel :
  (forall s v rest, scan_once fuel s = Found v rest ->
     exists C, s = C ++ rest /\ value_text C) /\
  (forall s vs rest, array_items fuel s = Found vs rest ->
     exists C, s = C ++ 93%N :: rest) /\
  (forall s kvs rest, object_items fuel s = Found kvs rest ->
     exists C, s = C ++ 125%N :: rest).
Proof.
  induction fuel as [|fuel (IHv & IHa & IHo)];
    [repeat split; intros; discriminate|].
  split; [|split].
  - intros s v rest. simpl. destruct s as [|c r]; [discriminate|].
    destruct (N.eqb_spec c 34) as [->|_].
    { destruct (scanstring r) as [[t rest']|] eqn:Es; [|discriminate].
      intros [= <- <-]. apply scanstring_consumed in Es. destruct Es as (C & ->).
      exists (34%N :: C ++ [34%N]). split; [list_eq|].
      right. exists (34%N :: C), 34%N. split; [reflexivity | discriminate]. }
    destruct (N.eqb_spec c 123) as [->|_].
    { destruct (skip_ws_split r) as (ws & Hr & _).
      destruct (skip_ws r) as [|c' r'] eqn:Ew; [discriminate|].
      destruct (N.eqb_spec c' 125) as [->|_].
      - intros [= <- <-]. exists (123%N :: ws ++ [125%N]).
        split; [rewrite Hr; list_eq | left; eauto].
      - destruct (object_items fuel (c' :: r')) as [pairs rest'| |] eqn:Eo;
          try discriminate.
        intros [= <- <-]. apply IHo in Eo. destruct Eo as (C & HC).
        exists (123%N :: ws ++ C ++ [125%N]).
        split; [rewrite Hr, HC; list_eq | left; eauto]. }
    destruct (N.eqb_spec c 91) as [->|_].
    { destruct (skip_ws_split r) as (ws & Hr & _).
      destruct (skip_ws r) as [|c' r'] eqn:Ew; [discriminate|].
      destruct (N.eqb_spec c' 93) as [->|_].
      - intros [= <- <-]. exists (91%N :: ws ++ [93%N]).
        split; [rewrite Hr; list_eq|].
        right. exists (91%N :: ws), 93%N. split; [reflexivity | discriminate].
      - destruct (array_items fuel (c' :: r')) as [items rest'| |] eqn:Ea;
          try discriminate.
        intros [= <- <-]. apply IHa in Ea. destruct Ea as (C & HC).
        exists (91%N :: ws ++ C ++ [93%N]).
        split; [rewrite Hr, HC; list_eq|].
        right. exists (91%N :: ws ++ C), 93%N.
        split; [list_eq | discriminate]. }
    destruct (scan_atom (c :: r)) as [[v' rest']|] eqn:Ea; [|discriminate].
    intros [= <- <-]. eapply scan_atom_consumed; eassumption.
  - intros s vs rest. simpl.
    destruct (scan_once fuel s) as [v rest1| |] eqn:Ev; try discriminate.
    apply IHv in Ev. destruct Ev as (C & -> & _).
    destruct (skip_ws_split rest1) as (ws & Hr & _).
    destruct (skip_ws rest1) as [|c r] eqn:Ew; [discriminate|].
    destruct (N.eqb_spec c 93) as [->|_].
    { intros [= <- <-]. exists (C ++ ws). rewrite Hr. list_eq. }
    destruct (N.eqb_spec c 44) as [->|_]; [|discriminate].
    destruct (skip_ws_split r) as (ws' & Hr' & _).
    destruct (array_items fuel (skip_ws r)) as [vs' rest'| |] eqn:Ea;
      try discriminate.
    intros [= <- <-]. apply IHa in Ea. destruct Ea as (C' & HC').
    exists (C ++ ws ++ 44%N :: ws' ++ C'). rewrite Hr, Hr', HC'. list_eq.
  - intros s kvs rest. simpl. destruct s as [|q r]; [discriminate|].
    destruct (N.eqb_spec q 34) as [->|_]; [|discriminate].
    destruct (scanstring r) as [[key rest0]|] eqn:Es; [|discriminate].
    apply scanstring_consumed in Es. destruct Es as (Ck & ->).
    destruct (skip_ws_split rest0) as (ws0 & Hr0 & _).
    destruct (skip_ws rest0) as [|c r1] eqn:Ew0; [discriminate|].
    destruct (N.eqb_spec c 58) as [->|_]; [|discriminate].
    destruct (skip_ws_split r1) as (ws1 & Hr1 & _).
    destruct (scan_once fuel (skip_ws r1)) as [v rest1| |] eqn:Ev; try discriminate.
    apply IHv in Ev. destruct Ev as (C & HC & _).
    destruct (skip_ws_split rest1) as (ws2 & Hr2 & _).
    destruct (skip_ws rest1) as [|c1 r2] eqn:Ew2; [discriminate|].
    destruct (N.eqb_spec c1 125) as [->|_].
    { intros [= <- <-].
      exists (34%N :: Ck ++ 34%N :: ws0 ++ 58%N :: ws1 ++ C ++ ws2).
      rewrite Hr0, Hr1, HC, Hr2. list_eq. }
    destruct (N.eqb_spec c1 44) as [->|_]; [|discriminate].
    destruct (skip_ws_split r2) as (ws3 & Hr3 & _).
    destruct (object_items fuel (skip_ws r2)) as [kvs' rest'| |] eqn:Eo;
      try discriminate.
    intros [= <- <-]. apply IHo in Eo. destruct Eo as (C' & HC').
    exists (34%N :: Ck ++ 34%N :: ws0 ++ 58%N :: ws1 ++ C ++ ws2 ++ 44%N :: ws3 ++ C').
    rewrite Hr0, Hr1, HC, Hr2, Hr3, HC'. list_eq.
Qed.

Lemma skip_ws_length s : (length (skip_ws s) <= length s)%nat.
Proof.
  destruct (skip_ws_split s) as (ws & Hs & _).
  rewrite Hs at 2. rewrite length_app. lia.
Qed.

Lemma scan_once_shorter fuel s v rest :
  scan_once fuel s = Found v rest -> (length rest < length s)%nat.
Proof.
  intros Hs. apply scan_consumed in Hs. destruct Hs as (C & -> & HC).
  rewrite length_app. destruct HC as [(q & ->)|(p & x & -> & _)].
  - simpl. lia.
  - rewrite length_app. simpl. lia.
Qed.

Lemma scanstring_shorter s t rest :
  scanstring s = Some (t, rest) -> (length rest < length s)%nat.
Proof.
  intros Hs. apply scanstring_consumed in Hs. destruct Hs as (C & ->).
  rewrite length_app. simpl. lia.
Qed.

(** The scanners, one call unfolded. *)
Lemma scan_once_S fuel s :
  scan_once (S fuel) s =
  match s with
  | [] => Invalid
  | c :: r =>
      if (c =? 34)%N then
        match scanstring r with
        | Some (t, rest) => Found (PyStr t) rest
        | None => Invalid
        end
      else if (c =? 123)%N then
        match skip_ws r with
        | [] => Invalid
        | c' :: r' =>
            if (c' =? 125)%N then Found (PyDict []) r'
            else
              match object_items fuel (c' :: r') with
              | Found pairs rest => Found (PyDict (dict_of_pairs pairs)) rest
              | Invalid => Invalid
              | Exhausted => Exhausted
              end
        end
      else if (c =? 91)%N then
        match skip_ws r with
        | [] => Invalid
        | c' :: r' =>
            if (c' =? 93)%N then Found (PyList []) r'
            else
              match array_items fuel (c' :: r') with
              | Found items rest => Found (PyList items) rest
              | Invalid => Invalid
              | Exhausted => Exhausted
              end
        end
      else scan_of_option (scan_atom s)
  end.
Proof. reflexivity. Qed.

Lemma array_items_S fuel s :
  array_items (S fuel) s =
  match scan_once fuel s with
  | Found v rest =>
      match skip_ws rest with
      | [] => Invalid
      | c :: r =>
          if (c =? 93)%N then Found [v] r
          else if (c =? 44)%N then
            match array_items fuel (skip_ws r) with
            | Found vs rest' => Found (v :: vs) rest'
            | Invalid => Invalid
            | Exhausted => Exhausted
            end
          else Invalid
      end
  | Invalid => Invalid
  | Exhausted => Exhausted
  end.
Proof. reflexivity. Qed.

Lemma object_items_S fuel s :
  object_items (S fuel) s =
  match s with
  | [] => Invalid
  | q :: r =>
      if (q =? 34)%N then
        match scanstring r with
        | None => Invalid
        | Some (key, rest) =>
            match skip_ws rest with
            | [] => Invalid
            | c :: r1 =>
                if (c =? 58)%N then
                  match scan_once fuel (skip_ws r1) with
                  | Found v rest1 =>
                      match skip_ws rest1 with
                      | [] => Invalid
                      | c1 :: r2 =>
                          if (c1 =? 125)%N then Found [(key, v)] r2
                          else if (c1 =? 44)%N then
                            match object_items fuel (skip_ws r2) with
                            | Found kvs rest2 => Found ((key, v) :: kvs) rest2
                            | Invalid => Invalid
                            | Exhausted => Exhausted
                            end
                          else Invalid
                      end
                  | Invalid => Invalid
                  | Exhausted => Exhausted
                  end
                else Invalid
            end
        end
      else Invalid
  end.
Proof. reflexivity. Qed.

(** More fuel does not change a result that did not run out of it. *)
Lemma scan_fuel_mono fuel :
  (forall s, scan_once fuel s <> Exhausted ->
     scan_once (S fuel) s = scan_once fuel s) /\
  (forall s, array_items fuel s <> Exhausted ->
     array_items (S fuel) s = array_items fuel s) /\
  (forall s, object_items fuel s <> Exhausted ->
     object_items (S fuel) s = object_items fuel s).
Proof.
  induction fuel as [|fuel (IHv & IHa & IHo)];
    [repeat split; intros s Hs; exfalso; apply Hs; reflexivity|].
  split; [|split]; intros s.
  - rewrite (scan_once_S (S fuel) s), (scan_once_S fuel s). intros Hne.
    destruct s as [|c r]; [reflexivity|].
    destruct (c =? 34)%N; [reflexivity|].
    destruct (c =? 123)%N.
    { destruct (skip_ws r) as [|c' r']; [reflexivity|].
      destruct (c' =? 125)%N; [reflexivity|].
      rewrite IHo; [reflexivity|]. intros E. rewrite E in Hne. now apply Hne. }
    destruct (c =? 91)%N; [|reflexivity].
    destruct (skip_ws r) as [|c' r']; [reflexivity|].
    destruct (c' =? 93)%N; [reflexivity|].
    rewrite IHa; [reflexivity|]. intros E. rewrite E in Hne. now apply Hne.
  - rewrite (array_items_S (S fuel) s), (array_items_S fuel s). intros Hne.
    rewrite IHv by (intros E; rewrite E in Hne; now apply Hne).
    destruct (scan_once fuel s) as [v rest| |]; try reflexivity.
    destruct (skip_ws rest) as [|c r]; [reflexivity|].
    destruct (c =? 93)%N; [reflexivity|].
    destruct (c =? 44)%N; [|reflexivity].
    rewrite IHa; [reflexivity|]. intros E. rewrite E in Hne. now apply Hne.
  - rewrite (object_items_S (S fuel) s), (object_items_S fuel s). intros Hne.
    destruct s as [|q r]; [reflexivity|].
    destruct (q =? 34)%N; [|reflexivity].
    destruct (scanstring r) as [[key rest]|]; [|reflexivity].
    destruct (skip_ws rest) as [|c r1]; [reflexivity|].
    destruct (c =? 58)%N; [|reflexivity].
    rewrite IHv by (intros E; rewrite E in Hne; now apply Hne).
    destruct (scan_once fuel (skip_ws r1)) as [v rest1| |]; try reflexivity.
    destruct (skip_ws rest1) as [|c1 r2]; [reflexivity|].
    destruct (c1 =? 125)%N; [reflexivity|].
    destruct (c1 =? 44)%N; [|reflexivity].
    rewrite IHo; [reflexivity|]. intros E. rewrite E in Hne. now apply Hne.
Qed.

(** Twice the length of the text, and a little, is enough fuel. *)
Lemma scan_fuel_enough fuel :
  (forall s, (2 * length s + 1 <= fuel)%nat -> scan_once fuel s <> Exhausted) /\
  (forall s, (2 * length s + 2 <= fuel)%nat -> array_items fuel s <> Exhausted) /\
  (forall s, (2 * length s + 2 <= fuel)%nat -> object_items fuel s <> Exhausted).
Proof.
  induction fuel as [|fuel (IHv & IHa & IHo)];
    [repeat split; intros s Hs; lia|].
  split; [|split]; intros s Hlen.
  - rewrite scan_once_S. destruct s as [|c r]; [discriminate|]. simpl in Hlen.
    destruct (c =? 34)%N; [destruct (scanstring r) as [[? ?]|]; discriminate|].
    pose proof (skip_ws_length r) as Hw.
    destruct (c =? 123)%N.
    { destruct (skip_ws r) as [|c' r'] eqn:Ew; [discriminate|].
      destruct (c' =? 125)%N; [discriminate|].
      assert (Ho : object_items fuel (c' :: r') <> Exhausted) by (apply IHo; lia).
      destruct (object_items fuel (c' :: r')); congruence. }
    destruct (c =? 91)%N.
    { destruct (skip_ws r) as [|c' r'] eqn:Ew; [discriminate|].
      destruct (c' =? 93)%N; [discriminate|].
      assert (Ha : array_items fuel (c' :: r') <> Exhausted) by (apply IHa; lia).
      destruct (array_items fuel (c' :: r')); congruence. }
    destruct (scan_atom (c :: r)) as [[? ?]|]; discriminate.
  - rewrite array_items_S.
    assert (Hv : scan_once fuel s <> Exhausted) by (apply IHv; lia).
    destruct (scan_once fuel s) as [v rest| |] eqn:Ev; try congruence.
    apply scan_once_shorter in Ev. pose proof (skip_ws_length rest) as Hw.
    destruct (skip_ws rest) as [|c r] eqn:Ew; [discriminate|]. simpl in Hw.
    destruct (c =? 93)%N; [discriminate|].
    destruct (c =? 44)%N; [|discriminate].
    pose proof (skip_ws_length r) as Hw'.
    assert (Ha : array_items fuel (skip_ws r) <> Exhausted) by (apply IHa; lia).
    destruct (array_items fuel (skip_ws r)); congruence.
  - rewrite object_items_S. destruct s as [|q r]; [discriminate|]. simpl in Hlen.
    destruct (q =? 34)%N; [|discriminate].
    destruct (scanstring r) as [[key rest]|] eqn:Es; [|discriminate].
    apply scanstring_shorter in Es. pose proof (skip_ws_length rest) as Hw.
    destruct (skip_ws rest) as [|c r1] eqn:Ew; [discriminate|]. simpl in Hw.
    destruct (c =? 58)%N; [|discriminate].
    pose proof (skip_ws_length r1) as Hw1.
    assert (Hv : scan_once fuel (skip_ws r1) <> Exhausted) by (apply IHv; lia).
    destruct (scan_once fuel (skip_ws r1)) as [v rest1| |] eqn:Ev; try congruence.
    apply scan_once_shorter in Ev. pose proof (skip_ws_length rest1) as Hw2.
    destruct (skip_ws rest1) as [|c1 r2] eqn:Ew2; [discriminate|]. simpl in Hw2.
    destruct (c1 =? 125)%N; [discriminate|].
    destruct (c1 =? 44)%N; [|discriminate].
    pose proof (skip_ws_length r2) as Hw3.
    assert (Ho : object_items fuel (skip_ws r2) <> Exhausted) by (apply IHo; lia).
    destruct (object_items fuel (skip_ws r2)); congruence.
Qed.

Lemma scan_once_more_fuel fuel s : forall extra,
  scan_once fuel s <> Exhausted ->
  scan_once (extra + fuel) s = scan_once fuel s.
Proof.
  induction extra as [|extra IH]; intros Hne; [reflexivity|].
  simpl plus. rewrite (proj1 (scan_fuel_mono (extra + fuel))); [auto|].
  rewrite IH; assumption.
Qed.

(** [json.loads] does not depend on the fuel of the embedding: a value
    found with any fuel is its result. *)
Lemma json_loads_found s fuel v rest :
  startswith s [65279%N] = false ->
  scan_once fuel (skip_ws s) = Found v rest ->
  skip_ws rest = [] ->
  json_loads s = Some v.
Proof.
  intros Hbom Hs Hrest. unfold json_loads. rewrite Hbom.
  set (f0 := (2 * length s + 2)%nat).
  assert (H0 : scan_once f0 (skip_ws s) <> Exhausted).
  { apply (proj1 (scan_fuel_enough f0)). pose proof (skip_ws_length s). unfold f0. lia. }
  assert (Heq : scan_once f0 (skip_ws s) = Found v rest).
  { destruct (Nat.le_ge_cases fuel f0) as [Hle|Hge].
    - replace f0 with ((f0 - fuel) + fuel)%nat by lia.
      rewrite scan_once_more_fuel; [assumption|]. rewrite Hs. discriminate.
    - rewrite <- Hs. symmetry.
      replace fuel with ((fuel - f0) + f0)%nat by lia.
      apply scan_once_more_fuel. assumption. }
  rewrite Heq, Hrest. reflexivity.
Qed.

Lemma json_loads_inv s v :
  json_loads s = Some v ->
  startswith s [65279%N] = false /\
  exists rest,
    scan_once (2 * length s + 2) (skip_ws s) = Found v rest /\ skip_ws rest = [].
Proof.
  unfold json_loads. destruct (startswith s _); [discriminate|].
  destruct (scan_once _ _) as [v' rest| |]; try discriminate.
  destruct (skip_ws rest) eqn:E; [|discriminate].
  intros [= <-]. split; [reflexivity|]. eauto.
Qed.

(** ** Extraction Client *)

Lemma lstrip_split s :
  exists ws, s = ws ++ lstrip s /\ Forall (fun c => isspace c = true) ws.
Proof.
  induction s as [|c s (ws & IH & Hws)]; simpl.
  - exists []. split; [reflexivity | constructor].
  - destruct (isspace c) eqn:Ec.
    + exists (c :: ws). split; [simpl; congruence | constructor; assumption].
    + exists []. split; [reflexivity | constructor].
Qed.

Lemma lstrip_spaces ws s :
  Forall (fun c => isspace c = true) ws -> lstrip (ws ++ s) = lstrip s.
Proof. induction 1 as [|c ws Hc _ IH]; simpl; [reflexivity | now rewrite Hc]. Qed.

Lemma lstrip_solid c s : isspace c = false -> lstrip (c :: s) = c :: s.
Proof. intros Hc. simpl. now rewrite Hc. Qed.

Lemma lstrip_head s c r : lstrip s = c :: r -> isspace c = false.
Proof.
  induction s as [|x s IH]; simpl; [discriminate|].
  destruct (isspace x) eqn:Ex; [assumption|]. now intros [= <- <-].
Qed.

Lemma lstrip_app s r : lstrip s <> [] -> lstrip (s ++ r) = lstrip s ++ r.
Proof.
  induction s as [|c s IH]; simpl; [congruence|].
  destruct (isspace c); [assumption | reflexivity].
Qed.

Lemma rstrip_spaces s ws :
  Forall (fun c => isspace c = true) ws -> rstrip (s ++ ws) = rstrip s.
Proof.
  intros Hws. unfold rstrip. rewrite rev_app_distr, lstrip_spaces; [reflexivity|].
  now apply Forall_rev.
Qed.

Lemma rstrip_solid s c : isspace c = false -> rstrip (s ++ [c]) = s ++ [c].
Proof.
  intros Hc. unfold rstrip. rewrite rev_app_distr. simpl. rewrite Hc.
  simpl. now rewrite rev_involutive.
Qed.

Lemma lstrip_length s : (length (lstrip s) <= length s)%nat.
Proof.
  destruct (lstrip_split s) as (ws & Hs & _). rewrite Hs at 2.
  rewrite length_app. lia.
Qed.

Lemma lstrip_fixed s : length (lstrip s) = length s -> lstrip s = s.
Proof.
  destruct (lstrip_split s) as (ws & Hs & _). intros Hlen.
  rewrite Hs in Hlen at 2. rewrite length_app in Hlen.
  destruct ws; [simpl in Hs; congruence | simpl in Hlen; lia].
Qed.

(** A text that [strip] leaves alone starts and ends with a character
    that is not white space. *)
Lemma strip_fixed s :
  strip s = s -> s <> [] ->
  (exists c r, s = c :: r /\ isspace c = false) /\
  (exists p c, s = p ++ [c] /\ isspace c = false).
Proof.
  unfold strip, rstrip. intros Hs Hne.
  assert (Hl : lstrip s = s).
  { apply lstrip_fixed. apply Nat.le_antisymm; [apply lstrip_length|].
    rewrite <- Hs at 1. rewrite length_rev.
    etransitivity; [apply lstrip_length|]. now rewrite length_rev. }
  rewrite Hl in Hs. split.
  - destruct s as [|c r]; [congruence|]. exists c, r. split; [reflexivity|].
    eapply lstrip_head. exact Hl.
  - assert (Hr : lstrip (rev s) = rev s).
    { rewrite <- (rev_involutive (lstrip (rev s))), Hs. reflexivity. }
    destruct (rev s) as [|c r] eqn:Er.
    + apply (f_equal (@rev _)) in Er. rewrite rev_involutive in Er. simpl in Er. congruence.
    + exists (rev r), c. split; [|eapply lstrip_head; exact Hr].
      apply (f_equal (@rev _)) in Er. now rewrite rev_involutive in Er.
Qed.

Lemma fence_close_at_spec t r :
  fence_close_at t = Some r ->
  (lstrip t = fence /\ r = []) \/ (lstrip t = fence ++ [10%N] /\ r = [10%N]).
Proof.
  unfold fence_close_at.
  destruct (strip_prefix fence (lstrip t)) as [[|c [|c' x]]|] eqn:E; try discriminate.
  - intros [= <-]. apply strip_prefix_app in E. left. now rewrite app_nil_r in E.
  - destruct (N.eqb_spec c 10) as [->|]; [|discriminate]. intros [= <-].
    apply strip_prefix_app in E. auto.
Qed.

(** The closing pattern does not match where text that is not white space
    stands before the final fence. *)
Lemma fence_close_at_solid s ws :
  lstrip s <> [] ->
  fence_close_at (s ++ ws ++ fence) = None.
Proof.
  intros Hs. destruct (fence_close_at _) as [r|] eqn:E; [|reflexivity].
  exfalso. apply fence_close_at_spec in E. rewrite lstrip_app in E by assumption.
  destruct E as [[E _]|[E _]].
  - apply (f_equal (@length _)) in E. rewrite !length_app in E.
    destruct (lstrip s); [congruence | simpl in E; lia].
  - apply (f_equal (@rev _)) in E. rewrite !rev_app_distr in E. discriminate.
Qed.

Lemma sub_fence_close_eq t :
  sub_fence_close t =
    match fence_close_at t with
    | Some after => after
    | None => match t with [] => [] | c :: r => c :: sub_fence_close r end
    end.
Proof. destruct t; reflexivity. Qed.

Lemma sub_fence_close_fenced j ws :
  (j = [] \/ exists p c, j = p ++ [c] /\ isspace c = false) ->
  Forall (fun c => isspace c = true) ws ->
  sub_fence_close (j ++ ws ++ fence) = j.
Proof.
  intros Hj Hws. induction j as [|c j IH].
  - simpl app. rewrite sub_fence_close_eq.
    unfold fence_close_at. rewrite lstrip_spaces by assumption. reflexivity.
  - assert (Hsolid : lstrip (c :: j) <> []).
    { destruct Hj as [|(p & x & Hp & Hx)]; [discriminate|].
      rewrite Hp. intros E. destruct (lstrip_split (p ++ [x])) as (w & Hw & Hall).
      rewrite E, app_nil_r in Hw. rewrite <- Hw in Hall.
      apply Forall_app in Hall. destruct Hall as [_ Hall]. inversion Hall; congruence. }
    rewrite sub_fence_close_eq, fence_close_at_solid by assumption.
    simpl. f_equal. apply IH.
    destruct Hj as [|(p & x & Hp & Hx)]; [discriminate|].
    destruct p as [|y p]; simpl in Hp; injection Hp as -> ->; eauto.
Qed.

Lemma json_space_isspace c : json_space c = true -> isspace c = true.
Proof.
  unfold json_space. intros Hc.
  repeat (apply orb_true_iff in Hc; destruct Hc as [Hc|Hc]);
    apply N.eqb_eq in Hc; subst; reflexivity.
Qed.

(** No JSON text starts with the letter j. *)
Lemma json_loads_not_j r : json_loads (106%N :: r) = None.
Proof.
  unfold json_loads. cbn [startswith strip_prefix char_eqb N.eqb Pos.eqb].
  replace (2 * length (106%N :: r) + 2)%nat
    with (S (2 * length (106%N :: r) + 1)) by lia.
  cbn [skip_ws json_space N.eqb Pos.eqb orb].
  rewrite scan_once_S. reflexivity.
Qed.

Lemma strip_prefix_mismatch x l y s :
  x <> y -> strip_prefix (x :: l) (y :: s) = None.
Proof.
  intros Hxy. simpl. unfold char_eqb. destruct (N.eqb_spec x y); congruence.
Qed.

Lemma fenced_text_cleaned tag pad1 ws1 j ws2 pad2 v :
  tag = [] \/ tag = lit "json" ->
  Forall (fun c => isspace c = true) pad1 ->
  Forall (fun c => isspace c = true) ws1 ->
  Forall (fun c => isspace c = true) ws2 ->
  Forall (fun c => isspace c = true) pad2 ->
  strip j = j ->
  json_loads j = Some v ->
  sub_fence_close
    (sub_fence_open
       (strip (pad1 ++ fence ++ tag ++ ws1 ++ j ++ ws2 ++ fence ++ pad2))) = j.
Proof.
  intros Htag Hp1 Hw1 Hw2 Hp2 Hj Hv.
  assert (Hne : j <> []) by (intros ->; discriminate).
  destruct (strip_fixed Hj Hne) as [(c & r & Hc & Hcs) (p & x & Hx & Hxs)].
  assert (Hstrip : strip (pad1 ++ fence ++ tag ++ ws1 ++ j ++ ws2 ++ fence ++ pad2)
                   = fence ++ tag ++ ws1 ++ j ++ ws2 ++ fence).
  { unfold strip. rewrite lstrip_spaces by assumption.
    change (fence ++ tag ++ ws1 ++ j ++ ws2 ++ fence ++ pad2)
      with (96%N :: (96%N :: 96%N :: tag ++ ws1 ++ j ++ ws2 ++ fence ++ pad2)).
    rewrite lstrip_solid by reflexivity.
    change (96%N :: 96%N :: 96%N :: tag ++ ws1 ++ j ++ ws2 ++ fence ++ pad2)
      with (fence ++ tag ++ ws1 ++ j ++ ws2 ++ fence ++ pad2).
    replace (fence ++ tag ++ ws1 ++ j ++ ws2 ++ fence ++ pad2)
      with (((fence ++ tag ++ ws1 ++ j ++ ws2 ++ [96%N; 96%N]) ++ [96%N]) ++ pad2)
      by (unfold fence; simpl; repeat (rewrite <- app_assoc; simpl); reflexivity).
    rewrite rstrip_spaces by assumption. rewrite rstrip_solid by reflexivity.
    unfold fence; simpl; repeat (rewrite <- app_assoc; simpl); reflexivity. }
  rewrite Hstrip.
  assert (Hopen : sub_fence_open (fence ++ tag ++ ws1 ++ j ++ ws2 ++ fence)
                  = j ++ ws2 ++ fence).
  { unfold sub_fence_open.
    rewrite (proj2 (strip_prefix_app fence _ (tag ++ ws1 ++ j ++ ws2 ++ fence)) eq_refl).
    assert (Hlead : lstrip (ws1 ++ j ++ ws2 ++ fence) = j ++ ws2 ++ fence).
    { rewrite lstrip_spaces by assumption. rewrite Hc. simpl. now rewrite Hcs. }
    destruct Htag as [->| ->].
    - simpl app. 
      assert (Hnone : strip_prefix (lit "json") (ws1 ++ j ++ ws2 ++ fence) = None).
      { change (lit "json") with (106%N :: lit "son").
        destruct ws1 as [|w ws1].
        - simpl app. rewrite Hc. simpl app. apply strip_prefix_mismatch.
          intros <-. rewrite Hc, json_loads_not_j in Hv. discriminate.
        - inversion Hw1 as [|? ? Hw _]; subst. simpl app.
          apply strip_prefix_mismatch. intros <-. discriminate. }
      rewrite Hnone. exact Hlead.
    - rewrite (proj2 (strip_prefix_app (lit "json") _ (ws1 ++ j ++ ws2 ++ fence)) eq_refl).
      exact Hlead. }
  rewrite Hopen. apply sub_fence_close_fenced; [right; eauto | assumption].
Qed.

Lemma first_occurrence (x : N) a : forall a' b b',
  Forall (fun c => c <> x) a -> Forall (fun c => c <> x) a' ->
  a ++ x :: b = a' ++ x :: b' -> a = a' /\ b = b'.
Proof.
  induction a as [|y a IH]; intros [|y' a'] b b' Ha Ha'; simpl; intros E.
  - injection E as ->. auto.
  - injection E as <- _. inversion Ha'; congruence.
  - injection E as -> _. inversion Ha; congruence.
  - injection E as -> E. inversion Ha; inversion Ha'; subst.
    destruct (IH a' b b') as [-> ->]; auto.
Qed.

Lemma seek_skip x p s :
  Forall (fun c => c <> x) p -> seek x (p ++ x :: s) = Some (x :: s).
Proof.
  induction 1 as [|c p Hc _ IH]; simpl; unfold char_eqb.
  - now rewrite N.eqb_refl.
  - destruct (N.eqb_spec c x); [contradiction | assumption].
Qed.

Lemma search_braces_prose p body :
  no_brace p ->
  search_braces (p ++ 123%N :: body ++ [125%N]) = Some (123%N :: body ++ [125%N]).
Proof.
  intros Hp. unfold search_braces. rewrite seek_skip by assumption.
  rewrite rev_app_distr. simpl. now rewrite rev_involutive.
Qed.

Lemma strip_prefix_within l : forall p o r,
  Forall (fun c => c <> 123%N) l ->
  strip_prefix l (p ++ 123%N :: o) = Some r ->
  exists p', p = l ++ p' /\ r = p' ++ 123%N :: o.
Proof.
  induction l as [|x l IH]; intros p o r Hl; simpl.
  - intros [= <-]. exists p. auto.
  - inversion Hl as [|? ? Hx Hl']; subst.
    destruct p as [|y p]; simpl; unfold char_eqb.
    + destruct (N.eqb_spec x 123); [contradiction | discriminate].
    + destruct (N.eqb_spec x y) as [<-|]; [|discriminate].
      intros E. destruct (IH _ _ _ Hl' E) as (p' & -> & ->). exists p'. auto.
Qed.

Lemma lstrip_before_solid p c o :
  isspace c = false -> lstrip (p ++ c :: o) = lstrip p ++ c :: o.
Proof.
  intros Hc. induction p as [|x p IH]; simpl; [now rewrite Hc|].
  destruct (isspace x); [assumption | reflexivity].
Qed.

Lemma no_brace_lstrip p : no_brace p -> no_brace (lstrip p).
Proof.
  intros Hp. destruct (lstrip_split p) as (ws & Hs & _). unfold no_brace in *.
  rewrite Hs in Hp. now apply Forall_app in Hp.
Qed.

Lemma sub_fence_open_prose p o :
  no_brace p ->
  exists p2, no_brace p2 /\ sub_fence_open (p ++ 123%N :: o) = p2 ++ 123%N :: o.
Proof.
  intros Hp. unfold sub_fence_open.
  destruct (strip_prefix fence (p ++ 123%N :: o)) as [r|] eqn:E; [|eauto].
  apply strip_prefix_within in E; [|repeat constructor; discriminate].
  destruct E as (p' & -> & ->).
  assert (Hp' : no_brace p') by (apply Forall_app in Hp; tauto).
  destruct (strip_prefix (lit "json") (p' ++ 123%N :: o)) as [r|] eqn:E.
  - apply strip_prefix_within in E; [|repeat constructor; discriminate].
    destruct E as (p'' & -> & ->).
    assert (Hp'' : no_brace p'') by (apply Forall_app in Hp'; tauto).
    exists (lstrip p''). split; [now apply no_brace_lstrip|].
    now apply lstrip_before_solid.
  - exists (lstrip p'). split; [now apply no_brace_lstrip|].
    now apply lstrip_before_solid.
Qed.

Lemma sub_fence_close_brace t : sub_fence_close (t ++ [125%N]) = t ++ [125%N].
Proof.
  assert (Hnone : forall x, fence_close_at (x ++ [125%N]) = None).
  { intros x. destruct (fence_close_at _) as [r|] eqn:E; [|reflexivity].
    exfalso. apply fence_close_at_spec in E.
    destruct (lstrip_split (x ++ [125%N])) as (ws & Hs & _).
    destruct E as [[E _]|[E _]]; rewrite E in Hs;
      apply (f_equal (@rev _)) in Hs; rewrite !rev_app_distr in Hs; discriminate. }
  induction t as [|c t IH]; rewrite sub_fence_close_eq.
  - reflexivity.
  - rewrite (Hnone (c :: t)). simpl. now rewrite IH.
Qed.

(** The text of a reply that is prose and then an object, after the
    cleaning steps: what is left of the prose, and the object. *)
Lemma prose_text_cleaned prose body :
  no_brace prose ->
  exists p2,
    no_brace p2 /\
    sub_fence_close (sub_fence_open (strip (prose ++ 123%N :: body ++ [125%N])))
    = p2 ++ 123%N :: body ++ [125%N].
Proof.
  intros Hp.
  assert (Hstrip : strip (prose ++ 123%N :: body ++ [125%N])
                   = lstrip prose ++ 123%N :: body ++ [125%N]).
  { unfold strip. rewrite lstrip_before_solid by reflexivity.
    replace (lstrip prose ++ 123%N :: body ++ [125%N])
      with ((lstrip prose ++ 123%N :: body) ++ [125%N])
      by (rewrite <- app_assoc; reflexivity).
    now rewrite rstrip_solid. }
  rewrite Hstrip.
  destruct (@sub_fence_open_prose (lstrip prose) (body ++ [125%N]))
    as (p2 & Hp2 & ->); [now apply no_brace_lstrip|].
  exists p2. split; [assumption|].
  replace (p2 ++ 123%N :: body ++ [125%N]) with ((p2 ++ 123%N :: body) ++ [125%N])
    by (rewrite <- app_assoc; reflexivity).
  apply sub_fence_close_brace.
Qed.

Lemma skip_ws_nil s : skip_ws s = [] -> Forall (fun c => json_space c = true) s.
Proof.
  induction s as [|c s IH]; simpl; [constructor|].
  destruct (json_space c) eqn:Ec; [|discriminate]. auto.
Qed.

(** A JSON text that ends with a closing brace is an object: whatever
    stands before its opening brace is white space, and it parses as the
    object alone does. *)
Lemma json_loads_object p2 body v v' :
  no_brace p2 ->
  json_loads (p2 ++ 123%N :: body ++ [125%N]) = Some v' ->
  json_loads (123%N :: body ++ [125%N]) = Some v ->
  v' = v.
Proof.
  intros Hp2 Hv' Hv. set (T := p2 ++ 123%N :: body ++ [125%N]) in *.
  apply json_loads_inv in Hv'. destruct Hv' as (_ & rest & Hscan & Hrest).
  destruct (scan_consumed (2 * length T + 2)) as (Hcons & _).
  destruct (Hcons _ _ _ Hscan) as (C & HC & Hval).
  destruct (skip_ws_split T) as (ws & HT & Hws).
  apply skip_ws_nil in Hrest.
  assert (Hend : T = (p2 ++ 123%N :: body) ++ [125%N])
    by (unfold T; rewrite <- app_assoc; reflexivity).
  assert (Hrest0 : rest = []).
  { destruct rest as [|y rest]; [reflexivity|]. exfalso.
    destruct (@exists_last _ (y :: rest)) as (rest' & z & Hz); [discriminate|].
    rewrite Hz in *. apply Forall_app in Hrest. destruct Hrest as [_ Hzs].
    inversion Hzs as [|? ? Hz1 _]; subst.
    rewrite HC in HT. rewrite HT in Hend. rewrite !app_assoc in Hend.
    apply app_inj_tail in Hend. destruct Hend as [_ ->]. discriminate. }
  subst rest. rewrite app_nil_r in HC.
  destruct Hval as [(q & HCq)|(q & x & HCq & Hx)].
  - rewrite HC, HCq in HT.
    destruct (@first_occurrence 123%N ws p2 q (body ++ [125%N])) as [_ Hq].
    + eapply Forall_impl; [|exact Hws]. intros c Hc ->. discriminate.
    + exact Hp2.
    + rewrite <- HT. reflexivity.
    + subst q. rewrite HCq in HC. rewrite HC in Hscan.
      assert (Hobj : json_loads (123%N :: body ++ [125%N]) = Some v').
      { eapply json_loads_found with (rest := []); [reflexivity | | reflexivity].
        exact Hscan. }
      congruence.
  - exfalso. rewrite HC, HCq in HT. rewrite HT in Hend. rewrite app_assoc in Hend.
    apply app_inj_tail in Hend. destruct Hend as [_ ->]. congruence.
Qed.

Lemma seek_none x s : Forall (fun c => c <> x) s -> seek x s = None.
Proof.
  induction 1 as [|c s Hc _ IH]; simpl; [reflexivity|].
  unfold char_eqb. destruct (N.eqb_spec c x); [contradiction | assumption].
Qed.

Lemma seek_prefix x p s :
  Forall (fun c => c <> x) p -> seek x (p ++ s) = seek x s.
Proof.
  induction 1 as [|c p Hc _ IH]; simpl; [reflexivity|].
  unfold char_eqb. destruct (N.eqb_spec c x); [contradiction | assumption].
Qed.

Lemma seek_suffix x s t :
  Forall (fun c => c <> x) t ->
  seek x (s ++ t) = option_map (fun r => r ++ t) (seek x s).
Proof.
  intros Ht. induction s as [|c s IH]; simpl.
  - now apply seek_none.
  - unfold char_eqb. destruct (N.eqb_spec c x); [reflexivity | assumption].
Qed.

Lemma seek_head x s r : seek x s = Some r -> exists r', r = x :: r'.
Proof.
  induction s as [|c s IH]; simpl; [discriminate|].
  unfold char_eqb. destruct (N.eqb_spec c x) as [->|]; [|assumption].
  intros [= <-]. eauto.
Qed.

Lemma brace_free_open p : brace_free p -> Forall (fun c => c <> 123%N) p.
Proof. apply Forall_impl. tauto. Qed.

Lemma brace_free_close p : brace_free p -> Forall (fun c => c <> 125%N) p.
Proof. apply Forall_impl. tauto. Qed.

Lemma search_braces_prefix p s : brace_free p -> search_braces (p ++ s) = search_braces s.
Proof.
  intros Hp. unfold search_braces. now rewrite seek_prefix by now apply brace_free_open.
Qed.

Lemma search_braces_suffix s t : brace_free t -> search_braces (s ++ t) = search_braces s.
Proof.
  intros Ht. unfold search_braces.
  rewrite seek_suffix by now apply brace_free_open.
  destruct (seek 123%N s) as [r0|] eqn:E; simpl; [|reflexivity].
  apply seek_head in E. destruct E as (r & ->). simpl.
  rewrite rev_app_distr, seek_prefix
    by (apply Forall_rev; now apply brace_free_close).
  destruct (seek 125%N (rev r)); [|reflexivity].
  reflexivity.
Qed.

Lemma spaces_brace_free ws :
  Forall (fun c => isspace c = true) ws -> brace_free ws.
Proof. apply Forall_impl. intros c Hc. split; intros ->; discriminate. Qed.

Lemma rstrip_split s :
  exists ws, s = rstrip s ++ ws /\ Forall (fun c => isspace c = true) ws.
Proof.
  unfold rstrip. destruct (lstrip_split (rev s)) as (ws & Hs & Hws).
  exists (rev ws). split; [|now apply Forall_rev].
  rewrite <- rev_app_distr, <- Hs. now rewrite rev_involutive.
Qed.

Lemma search_braces_strip t : search_braces (strip t) = search_braces t.
Proof.
  unfold strip. destruct (lstrip_split t) as (ws & Ht & Hws).
  destruct (rstrip_split (lstrip t)) as (ws' & Hl & Hws').
  rewrite Ht at 2. rewrite search_braces_prefix by now apply spaces_brace_free.
  rewrite Hl at 2. now rewrite search_braces_suffix by now apply spaces_brace_free.
Qed.

Lemma search_braces_fence_open t :
  search_braces (sub_fence_open t) = search_braces t.
Proof.
  unfold sub_fence_open. destruct (strip_prefix fence t) as [r|] eqn:E; [|reflexivity].
  apply strip_prefix_app in E. subst t.
  assert (Hf : brace_free fence) by (repeat constructor; discriminate).
  rewrite (search_braces_prefix _ Hf).
  destruct (strip_prefix (lit "json") r) as [r'|] eqn:E'.
  - apply strip_prefix_app in E'. subst r.
    assert (Hj : brace_free (lit "json")) by (repeat constructor; discriminate).
    rewrite (search_braces_prefix _ Hj).
    destruct (lstrip_split r') as (ws & Hr & Hws). rewrite Hr at 2.
    now rewrite search_braces_prefix by now apply spaces_brace_free.
  - destruct (lstrip_split r) as (ws & Hr & Hws). rewrite Hr at 2.
    now rewrite search_braces_prefix by now apply spaces_brace_free.
Qed.

Lemma search_braces_fence_close t :
  search_braces (sub_fence_close t) = search_braces t.
Proof.
  assert (Hcut : exists a cut after,
             t = a ++ cut ++ after /\ sub_fence_close t = a ++ after /\
             brace_free cut /\ brace_free after).
  { induction t as [|c t (a & cut & after & Ht & Hs & Hc & Ha)].
    - exists [], [], []. repeat split; constructor.
    - rewrite sub_fence_close_eq.
      destruct (fence_close_at (c :: t)) as [r|] eqn:E.
      + apply fence_close_at_spec in E.
        destruct (lstrip_split (c :: t)) as (ws & Hw & Hws).
        apply spaces_brace_free in Hws.
        destruct E as [[E ->]|[E ->]]; rewrite E in Hw.
        * exists [], (ws ++ fence), []. rewrite app_nil_r. repeat split.
          -- exact Hw.
          -- apply Forall_app. split; [assumption | repeat constructor; discriminate].
          -- constructor.
        * exists [], (ws ++ fence), [10%N]. repeat split.
          -- rewrite Hw, <- app_assoc. reflexivity.
          -- apply Forall_app. split; [assumption | repeat constructor; discriminate].
          -- repeat constructor; discriminate.
      + exists (c :: a), cut, after. simpl. rewrite <- Ht, Hs. auto. }
  destruct Hcut as (a & cut & after & Ht & -> & Hc & Ha). rewrite Ht.
  rewrite search_braces_suffix by assumption.
  now rewrite search_braces_suffix by (apply Forall_app; auto).
Qed.

(** The cleaning steps take no brace away: the salvage finds in the
    cleaned text the span that it finds in the reply. *)
Lemma search_braces_cleaned t :
  search_braces (sub_fence_close (sub_fence_open (strip t))) = search_braces t.
Proof.
  now rewrite search_braces_fence_close, search_braces_fence_open, search_braces_strip.
Qed.

Section ExtractionClaims.
Context `{ModelProvider}.


End ExtractionClaims.



(** ** Sheet names *)

Lemma N_of_digits_snoc ds d :
  N_of_digits (ds ++ [d]) = (N_of_digits ds * 10 + (d - 48))%N.
Proof. unfold N_of_digits. now rewrite fold_left_app. Qed.

Lemma digits_fuel_spec fuel : forall n acc,
  (n < 2 ^ N.of_nat fuel)%N -> (0 < fuel)%nat ->
  exists ds, digits_fuel fuel n acc = ds ++ acc /\ numeral n ds.
Proof.
  induction fuel as [|fuel IH]; intros n acc Hn Hfuel; [lia|].
  - cbn [digits_fuel]. destruct (N.ltb_spec n 10) as [Hlt|Hge].
    + exists [digit_char (n mod 10)]. split; [reflexivity|].
      rewrite N.mod_small by assumption. unfold numeral, digit_char, is_digit.
      split; [|split].
      * constructor; [|constructor].
        apply andb_true_iff. split; apply N.leb_le; lia.
      * unfold N_of_digits. cbn [fold_left]. lia.
      * intros E. split; [lia | reflexivity].
    + assert (Hdiv : (n / 10 < 2 ^ N.of_nat fuel)%N).
      { rewrite Nat2N.inj_succ, N.pow_succ_r' in Hn.
        apply N.Div0.div_lt_upper_bound. lia. }
      assert (Hpos : (0 < fuel)%nat).
      { destruct fuel; [|lia]. change (2 ^ N.of_nat 0)%N with 1%N in Hdiv.
        assert (1 <= n / 10)%N by (apply N.div_le_lower_bound; clear - Hge; lia).
        clear - H Hdiv. lia. }
      destruct (IH (n / 10)%N (digit_char (n mod 10) :: acc) Hdiv Hpos)
        as (ds & Hds & Hall & Hval & Hlead).
      exists (ds ++ [digit_char (n mod 10)]). split.
      { rewrite Hds, <- app_assoc. reflexivity. }
      pose proof (N.mod_upper_bound n 10 ltac:(lia)) as Hm.
      unfold numeral. split; [|split].
      * apply Forall_app. split; [assumption|]. constructor; [|constructor].
        unfold digit_char, is_digit. apply andb_true_iff. split; apply N.leb_le; clear - Hm;
          generalize dependent (n mod 10)%N; intros; lia.
      * rewrite N_of_digits_snoc, Hval. unfold digit_char.
        pose proof (N.div_mod n 10 ltac:(lia)) as Hdm. clear - Hm Hdm.
        generalize dependent (n mod 10)%N. generalize dependent (n / 10)%N.
        intros. lia.
      * destruct ds as [|c ds]; [contradiction|]. simpl. intros ->.
        destruct (Hlead eq_refl) as [H0 _].
        assert (1 <= n / 10)%N by (apply N.div_le_lower_bound; clear - Hge; lia).
        clear - H H0. lia.
Qed.

Lemma str_of_N_numeral n : numeral n (str_of_N n).
Proof.
  unfold str_of_N.
  destruct (@digits_fuel_spec (S (N.to_nat (N.log2 n))) n []) as (ds & Hds & Hnum).
  - rewrite Nat2N.inj_succ, N2Nat.id. destruct n as [|p]; [reflexivity|].
    apply N.log2_spec. lia.
  - lia.
  - rewrite Hds, app_nil_r. exact Hnum.
Qed.

Lemma str_of_N_inj n m : str_of_N n = str_of_N m -> n = m.
Proof.
  intros E. destruct (str_of_N_numeral n) as (_ & Hn & _).
  destruct (str_of_N_numeral m) as (_ & Hm & _). congruence.
Qed.

Lemma str_of_Z_pos_inj a b :
  (0 < a)%Z -> (0 < b)%Z -> str_of_Z a = str_of_Z b -> a = b.
Proof.
  destruct a as [|p|p], b as [|q|q]; try lia. simpl. intros _ _ E.
  apply str_of_N_inj in E. congruence.
Qed.

Lemma mem_str_In s l : mem_str s l = true <-> In s l.
Proof.
  unfold mem_str. rewrite existsb_exists. split.
  - intros (x & Hx & E). apply str_eqb_eq in E. now subst.
  - intros Hs. exists s. split; [assumption | apply str_eqb_refl].
Qed.

Lemma candidate_inj base i j : candidate base i = candidate base j -> i = j.
Proof.
  unfold candidate, suffixed. destruct i as [|i], j as [|j]; intros E.
  - reflexivity.
  - apply (f_equal (@length _)) in E. rewrite length_app in E. simpl in E. lia.
  - apply (f_equal (@length _)) in E. rewrite length_app in E. simpl in E. lia.
  - apply app_inv_head in E.
    assert (E' : str_of_Z (Z.of_nat (S i)) = str_of_Z (Z.of_nat (S j)))
      by congruence.
    apply str_of_Z_pos_inj in E'; lia.
Qed.

Lemma probe_name_spec base existing fuel : forall j,
  exists k,
    probe_name fuel base (candidate base j) (Z.of_nat j + 1) existing
      = candidate base k /\
    (j <= k <= j + fuel)%nat /\
    (forall i, (j <= i < k)%nat -> In (candidate base i) existing) /\
    ((k < j + fuel)%nat -> ~ In (candidate base k) existing).
Proof.
  induction fuel as [|fuel IH]; intros j.
  - exists j. simpl. split; [reflexivity|]. split; [lia|]. split; intros; lia.
  - cbn [probe_name]. destruct (mem_str (candidate base j) existing) eqn:E.
    + destruct (IH (S j)) as (k & Hk & Hjk & Hin & Hout).
      exists k. replace (Z.of_nat j + 1 + 1)%Z with (Z.of_nat (S j) + 1)%Z by lia.
      replace (suffixed base (Z.of_nat j + 1)) with (candidate base (S j))
        by (unfold candidate; f_equal; lia).
      rewrite Hk. split; [reflexivity|]. split; [lia|]. split.
      * intros i Hi. destruct (Nat.eq_dec i j) as [->|].
        -- now apply mem_str_In.
        -- apply Hin. lia.
      * intros Hlt. apply Hout. lia.
    + exists j. split; [reflexivity|]. split; [lia|]. split; [intros; lia|].
      intros _ Hin. apply mem_str_In in Hin. congruence.
Qed.

(** [safe_sheet_name] returns the first candidate that is free; the loop
    ends by its condition, within [len(existing)] rounds. *)
Lemma safe_sheet_name_spec name existing :
  exists k,
    safe_sheet_name name existing = candidate (sheet_base name) k /\
    (k <= length existing)%nat /\
    (forall i, (i < k)%nat -> In (candidate (sheet_base name) i) existing) /\
    ~ In (safe_sheet_name name existing) existing.
Proof.
  unfold safe_sheet_name. fold (sheet_base name).
  destruct (@probe_name_spec (sheet_base name) existing (S (length existing)) 0)
    as (k & Hk & Hrange & Hin & Hout).
  change (candidate (sheet_base name) 0) with (sheet_base name) in Hk.
  change (Z.of_nat 0 + 1)%Z with 1%Z in Hk.
  assert (Hle : (k <= length existing)%nat).
  { assert (Hincl : incl (List.map (candidate (sheet_base name)) (seq 0 k)) existing).
    { intros x Hx. apply in_map_iff in Hx. destruct Hx as (i & <- & Hi).
      apply in_seq in Hi. apply Hin. lia. }
    apply NoDup_incl_length in Hincl.
    - now rewrite length_map, length_seq in Hincl.
    - apply Injective_map_NoDup; [|apply seq_NoDup].
      intros a b. apply candidate_inj. }
  exists k. rewrite Hk. split; [reflexivity|]. split; [assumption|]. split.
  - intros i Hi. apply Hin. lia.
  - apply Hout. lia.
Qed.

Lemma sheet_base_length name : (length (sheet_base name) <= 28)%nat.
Proof.
  unfold sheet_base. pose proof (firstn_le_length 28 (List.map sheet_char name)).
  destruct (firstn 28 (List.map sheet_char name)); simpl in *; lia.
Qed.

Lemma short_suffix k : (k < 100)%nat -> (length (str_of_Z (Z.of_nat k)) <= 2)%nat.
Proof.
  intros Hk.
  assert (Hall : forallb (fun k => length (str_of_Z (Z.of_nat k)) <=? 2) (seq 0 100) = true)
    by (vm_compute; reflexivity).
  rewrite forallb_forall in Hall. apply Nat.leb_le. apply Hall. apply in_seq. lia.
Qed.

(** With fewer than 100 names in use the name stays within 31 characters. *)
Lemma safe_sheet_name_length name existing :
  (length existing < 100)%nat ->
  (length (safe_sheet_name name existing) <= 31)%nat.
Proof.
  intros Hlen. destruct (safe_sheet_name_spec name existing) as (k & -> & Hk & _).
  pose proof (sheet_base_length name). unfold candidate, suffixed.
  destruct k as [|k]; [lia|].
  rewrite length_app. cbn [length].
  pose proof (@short_suffix (S k) ltac:(lia)). lia.
Qed.

Section SheetNames.
Context `{PyRuntime}.

Lemma xlsx_sheet_title i c existing ws :
  xlsx_sheet i c existing = Ret ws ->
  exists t, chart_title i c = PyStr t /\ ws_title ws = safe_sheet_name t existing.
Proof.
  unfold xlsx_sheet. destruct (chart_title i c); try discriminate.
  destruct (get c (lit "type") _); try discriminate.
  destruct (chart_table c); [|discriminate].
  intros [= <-]. eauto.
Qed.

Lemma xlsx_sheets_names cs : forall i existing sheets,
  xlsx_sheets i cs existing = Ret sheets ->
  NoDup existing ->
  NoDup (existing ++ List.map ws_title sheets).
Proof.
  induction cs as [|c cs IH]; intros i existing sheets; simpl.
  - intros [= <-] Hnd. now rewrite app_nil_r.
  - destruct (xlsx_sheet i c existing) as [ws|] eqn:E; [|discriminate].
    destruct (xlsx_sheets (S i) cs _) as [more|] eqn:E'; [|discriminate].
    intros [= <-] Hnd. apply xlsx_sheet_title in E. destruct E as (t & _ & Ht).
    specialize (IH _ _ _ E'). simpl. rewrite <- app_assoc in IH. apply IH.
    apply NoDup_app; [assumption | repeat constructor; intros [] |].
    intros x Hx [<-|[]]. rewrite Ht in Hx.
    destruct (safe_sheet_name_spec t existing) as (_ & _ & _ & _ & Hfresh). auto.
Qed.

(** The names of the sheets of one export are pairwise distinct. *)
Lemma sheet_names_distinct cs sheets :
  xlsx_sheets 0 cs [] = Ret sheets -> NoDup (List.map ws_title sheets).
Proof.
  intros Hs. apply (@xlsx_sheets_names cs 0%nat [] sheets Hs). constructor.
Qed.

Lemma xlsx_sheets_lengths cs : forall i existing sheets,
  xlsx_sheets i cs existing = Ret sheets ->
  (length existing + length cs <= 100)%nat ->
  Forall (fun ws => (length (ws_title ws) <= 31)%nat) sheets.
Proof.
  induction cs as [|c cs IH]; intros i existing sheets; simpl.
  - intros [= <-] _. constructor.
  - destruct (xlsx_sheet i c existing) as [ws|] eqn:E; [|discriminate].
    destruct (xlsx_sheets (S i) cs _) as [more|] eqn:E'; [|discriminate].
    intros [= <-] Hlen. apply xlsx_sheet_title in E. destruct E as (t & _ & Ht).
    constructor.
    + rewrite Ht. apply safe_sheet_name_length. lia.
    + apply (IH _ _ _ E'). rewrite length_app. simpl. lia.
Qed.

(** In an export of at most 100 charts every name has at most 31
    characters. *)
Lemma sheet_names_within_31 cs sheets :
  (length cs <= 100)%nat ->
  xlsx_sheets 0 cs [] = Ret sheets ->
  Forall (fun ws => (length (ws_title ws) <= 31)%nat) sheets.
Proof.
  intros Hlen Hs. apply (@xlsx_sheets_lengths cs 0%nat [] sheets Hs). simpl. lia.
Qed.

(** Two charts titled [Q1] get the sheets [Q1] and [Q1_1]. *)
Lemma sheet_names_q1 :
  match xlsx_sheets 0 [q1_chart; q1_chart] [] with
  | Ret sheets => List.map ws_title sheets
  | Raise _ => []
  end = [lit "Q1"; lit "Q1_1"].
Proof. reflexivity. Qed.

(** C2, as the code has it: the names are distinct for every list of
    charts, but the 101st chart with one 28-character title gets the
    suffix [_100] and a name of 32 characters, one more than the 31 that
    [safe_sheet_name] promises. *)
Theorem sheet_name_of_32_characters :
  match xlsx_sheets 0 (repeat long_chart 101) [] with
  | Ret sheets => nth_error (List.map (fun ws => length (ws_title ws)) sheets) 100
  | Raise _ => None
  end = Some 32%nat /\
  length (safe_sheet_name long_title
            (List.map (candidate long_title) (seq 0 100))) = 32%nat.
Proof. split; vm_compute; reflexivity. Qed.
End SheetNames.

(** ** The JSON export, read back *)

(** *** Strings and numbers *)

Lemma next_char_escape c r :
  next_char (escape_char c ++ r) = Some (c, r) /\
  exists x t, escape_char c ++ r = x :: t /\ x <> 34%N.
Proof.
  destruct (N.ltb_spec c 32) as [Hlt|Hge].
  - assert (Hc : In c (List.map N.of_nat (seq 0 32))).
    { apply in_map_iff. exists (N.to_nat c). split; [lia|]. apply in_seq. lia. }
    cbn in Hc.
    repeat (destruct Hc as [<-|Hc];
            [split; [reflexivity | do 2 eexists; split; [reflexivity | discriminate]]|]).
    contradiction.
  - unfold escape_char.
    destruct (N.eqb_spec c 34) as [->|H34];
      [split; [reflexivity | do 2 eexists; split; [reflexivity | discriminate]]|].
    destruct (N.eqb_spec c 92) as [->|H92];
      [split; [reflexivity | do 2 eexists; split; [reflexivity | discriminate]]|].
    destruct (N.eqb_spec c 10); [lia|]. destruct (N.eqb_spec c 13); [lia|].
    destruct (N.eqb_spec c 9); [lia|]. destruct (N.eqb_spec c 8); [lia|].
    destruct (N.eqb_spec c 12); [lia|].
    destruct (N.ltb_spec c 32); [lia|].
    split; [|do 2 eexists; split; [reflexivity | assumption]].
    unfold next_char. cbn [app].
    destruct (N.eqb_spec c 92); [contradiction|].
    destruct (N.ltb_spec c 32); [lia | reflexivity].
Qed.

(** The string scanner reads back what [encode_basestring] wrote. *)
Lemma scanstring_escaped s rest :
  scanstring (flat_map escape_char s ++ 34%N :: rest) = Some (s, rest).
Proof.
  induction s as [|c s IH]; [reflexivity|].
  cbn [flat_map]. rewrite <- app_assoc.
  destruct (next_char_escape c (flat_map escape_char s ++ 34%N :: rest))
    as (Hnext & x & t & Hx & Hne).
  rewrite scanstring_eq, Hnext, IH, Hx. cbv beta iota.
  destruct (N.eqb_spec x 34); [contradiction | reflexivity].
Qed.

Lemma take_digits_run ds rest :
  Forall (fun c => is_digit c = true) ds ->
  match rest with [] => True | c :: _ => is_digit c = false end ->
  take_digits (ds ++ rest) = (ds, rest).
Proof.
  intros Hds Hrest. induction Hds as [|c ds Hc _ IH].
  - destruct rest as [|c r]; simpl; [reflexivity|]. now rewrite Hrest.
  - simpl. now rewrite Hc, IH.
Qed.

Lemma scan_frac_delimited rest : delimited rest -> scan_frac rest = ([], rest).
Proof.
  unfold scan_frac, delimited. destruct rest as [|c r]; [reflexivity|].
  intros (_ & H46 & _). destruct (N.eqb_spec c 46); [contradiction | reflexivity].
Qed.

Lemma scan_exp_delimited rest : delimited rest -> scan_exp rest = ([], rest).
Proof.
  unfold scan_exp, delimited. destruct rest as [|c r]; [reflexivity|].
  intros (_ & _ & H101 & H69).
  destruct (N.eqb_spec c 101); [contradiction|].
  destruct (N.eqb_spec c 69); [contradiction | reflexivity].
Qed.

Lemma scan_int_numeral n rest :
  delimited rest ->
  scan_int (str_of_N n ++ rest) = Some (str_of_N n, rest).
Proof.
  intros Hrest. destruct (str_of_N_numeral n) as (Hall & _ & Hlead).
  destruct (str_of_N n) as [|c ds]; [contradiction|].
  inversion Hall as [|? ? Hc Hds]; subst. cbn [app scan_int].
  destruct (N.eqb_spec c 48) as [->|Hne].
  - destruct (Hlead eq_refl) as [_ ->]. reflexivity.
  - rewrite Hc, take_digits_run; [reflexivity | assumption|].
    destruct rest; [exact I | apply Hrest].
Qed.

Lemma match_number_int z rest :
  delimited rest ->
  match_number (str_of_Z z ++ rest) = Some (PyInt z, rest).
Proof.
  intros Hrest. unfold match_number.
  assert (Hpos : forall n,
             scan_sign (str_of_N n ++ rest) = ([], str_of_N n ++ rest)).
  { intros n. destruct (str_of_N_numeral n) as (Hall & _ & Hlead).
    destruct (str_of_N n) as [|c ds]; [contradiction|].
    inversion Hall as [|? ? Hc _]; subst. cbn [app scan_sign].
    destruct (N.eqb_spec c 45) as [->|]; [discriminate | reflexivity]. }
  assert (Hval : forall n, N_of_digits (str_of_N n) = n)
    by (intros n; apply str_of_N_numeral).
  destruct z as [|p|p]; cbn [str_of_Z].
  - rewrite Hpos, scan_int_numeral, scan_frac_delimited, scan_exp_delimited
      by assumption.
    now rewrite Hval.
  - rewrite Hpos, scan_int_numeral, scan_frac_delimited, scan_exp_delimited
      by assumption.
    now rewrite Hval.
  - cbn [app scan_sign minus_sign]. rewrite N.eqb_refl.
    rewrite scan_int_numeral, scan_frac_delimited, scan_exp_delimited
      by assumption.
    now rewrite Hval.
Qed.

Lemma take_digits_app a rest :
  delimited rest ->
  take_digits (a ++ rest) = (fst (take_digits a), snd (take_digits a) ++ rest).
Proof.
  intros Hr. induction a as [|c a IH]; cbn [app].
  - destruct rest as [|c r]; [reflexivity|]. cbn. destruct Hr as (Hd & _).
    now rewrite Hd.
  - cbn [take_digits]. destruct (is_digit c); [|reflexivity].
    rewrite IH. destruct (take_digits a); reflexivity.
Qed.

Lemma scan_int_app a rest ds r :
  delimited rest -> scan_int a = Some (ds, r) ->
  scan_int (a ++ rest) = Some (ds, r ++ rest).
Proof.
  intros Hr. destruct a as [|c a]; [discriminate|]. cbn [app scan_int].
  destruct (c =? 48)%N; [intros [= <- <-]; reflexivity|].
  destruct (is_digit c); [|discriminate].
  rewrite take_digits_app by assumption.
  destruct (take_digits a) as [ds' r']. cbn [fst snd].
  intros [= <- <-]. reflexivity.
Qed.

Lemma scan_frac_app a rest :
  delimited rest ->
  scan_frac (a ++ rest) = (fst (scan_frac a), snd (scan_frac a) ++ rest).
Proof.
  intros Hr. destruct a as [|c a].
  - cbn [app]. now rewrite scan_frac_delimited.
  - cbn [app scan_frac]. destruct (c =? 46)%N; [|reflexivity].
    rewrite take_digits_app by assumption.
    destruct (take_digits a) as [[|d ds] r]; reflexivity.
Qed.

Lemma scan_exp_app a rest e :
  delimited rest -> scan_exp a = (e, []) -> scan_exp (a ++ rest) = (e, rest).
Proof.
  intros Hr. destruct a as [|c a].
  - cbn [app]. intros [= <-]. now apply scan_exp_delimited.
  - cbn [app scan_exp]. destruct ((c =? 101) || (c =? 69))%N; [|discriminate].
    destruct a as [|c' a]; [cbn; discriminate|]. cbn [app].
    destruct ((c' =? 45) || (c' =? 43))%N.
    + rewrite take_digits_app by assumption.
      destruct (take_digits a) as [[|d ds] r]; cbn [fst snd]; [discriminate|].
      intros [= <- ->]. reflexivity.
    + change (c' :: a ++ rest) with ((c' :: a) ++ rest).
      rewrite take_digits_app by assumption.
      destruct (take_digits (c' :: a)) as [[|d ds] r]; cbn [fst snd]; [discriminate|].
      intros [= <- ->]. reflexivity.
Qed.

(** The scanner reads a float back from a text it is followed in by
    something else. *)
Lemma match_number_float l rest :
  float_text l = true -> delimited rest ->
  match_number (l ++ rest) = Some (PyFloat l, rest).
Proof.
  unfold float_text. intros Hl Hr.
  destruct (match_number l) as [[[ | | |l'| | | ] [|]]|] eqn:E; try discriminate.
  destruct (str_eqb_spec l' l) as [->|]; [clear Hl | discriminate].
  unfold match_number in *.
  assert (Hsign : scan_sign (l ++ rest)
                  = (fst (scan_sign l), snd (scan_sign l) ++ rest)).
  { destruct l as [|c l]; [discriminate E|]. cbn [app scan_sign].
    destruct (c =? 45)%N; reflexivity. }
  rewrite Hsign. destruct (scan_sign l) as [sign s1]. cbn [fst snd].
  destruct (scan_int s1) as [[ds s2]|] eqn:Ei; [|discriminate].
  rewrite (@scan_int_app _ _ _ _ Hr Ei), scan_frac_app by assumption.
  destruct (scan_frac s2) as [frac s3]. cbn [fst snd].
  destruct (scan_exp s3) as [exp s4] eqn:Ee.
  assert (s4 = []) by (destruct frac, exp; congruence). subst s4.
  rewrite (@scan_exp_app _ _ _ Hr Ee).
  destruct frac, exp; try discriminate E; injection E as <-; reflexivity.
Qed.

Lemma match_number_start s v r : match_number s = Some (v, r) -> number_start s.
Proof.
  unfold match_number, scan_sign.
  assert (Hint : forall t x, scan_int t = Some x ->
            match t with d :: _ => is_digit d = true | [] => False end).
  { intros [|d t] x; [discriminate|]. cbn [scan_int].
    destruct (N.eqb_spec d 48) as [->|]; [reflexivity|].
    destruct (is_digit d); [reflexivity | discriminate]. }
  destruct s as [|c s].
  - cbn. discriminate.
  - destruct (N.eqb_spec c 45) as [->|Hc].
    + destruct (scan_int s) as [x|] eqn:Ei; [|discriminate].
      intros _. right. split; [reflexivity|]. exact (Hint _ _ Ei).
    + destruct (scan_int (c :: s)) as [x|] eqn:Ei; [|discriminate].
      intros _. left. exact (Hint _ _ Ei).
Qed.

Lemma float_text_start l : float_text l = true -> number_start l.
Proof.
  unfold float_text. destruct (match_number l) as [[v r]|] eqn:E; [|discriminate].
  intros _. exact (@match_number_start _ _ _ E).
Qed.

Lemma number_start_app s rest : number_start s -> number_start (s ++ rest).
Proof.
  destruct s as [|c [|d s]]; cbn; tauto.
Qed.

Lemma str_of_Z_start z : number_start (str_of_Z z).
Proof.
  assert (Hnum : forall n,
             match str_of_N n with d :: _ => is_digit d = true | [] => False end).
  { intros n. destruct (str_of_N_numeral n) as (Hall & _ & Hlead).
    destruct (str_of_N n) as [|d ds]; [contradiction|]. now inversion Hall. }
  destruct z as [|p|p]; cbn [str_of_Z].
  - specialize (Hnum 0%N). destruct (str_of_N 0); [contradiction | now left].
  - specialize (Hnum (N.pos p)). destruct (str_of_N (N.pos p)); [contradiction | now left].
  - right. split; [reflexivity | apply Hnum].
Qed.

Lemma digit_range c : is_digit c = true -> (48 <= c <= 57)%N.
Proof.
  unfold is_digit. intros Hd. apply andb_true_iff in Hd. destruct Hd as [H1 H2].
  apply N.leb_le in H1, H2. lia.
Qed.

(** A number is none of the words [null], [true], [false], [NaN],
    [Infinity] and [-Infinity]. *)
Lemma scan_atom_number s : number_start s -> scan_atom s = match_number s.
Proof.
  destruct s as [|c s]; [contradiction|]. intros Hs. unfold scan_atom.
  assert (Hc : c = 45%N \/ (48 <= c <= 57)%N).
  { destruct Hs as [Hd|[-> _]]; [right; now apply digit_range | now left]. }
  change (lit "null") with (110%N :: lit "ull").
  change (lit "true") with (116%N :: lit "rue").
  change (lit "false") with (102%N :: lit "alse").
  change (lit "NaN") with (78%N :: lit "aN").
  change (lit "Infinity") with (73%N :: lit "nfinity").
  change (lit "-Infinity") with (45%N :: 73%N :: lit "nfinity").
  rewrite !strip_prefix_mismatch by (intros <-; destruct Hc as [Hc|Hc]; [discriminate Hc | lia]).
  destruct Hs as [Hd|[-> Hd]].
  - rewrite strip_prefix_mismatch; [reflexivity|]. intros <-. discriminate Hd.
  - destruct s as [|d s]; [contradiction|]. cbn [strip_prefix].
    unfold char_eqb. rewrite N.eqb_refl.
    destruct (N.eqb_spec 73 d) as [<-|]; [discriminate Hd | reflexivity].
Qed.

Lemma scan_once_number fuel s :
  number_start s -> scan_once (S fuel) s = scan_of_option (match_number s).
Proof.
  intros Hs. rewrite scan_once_S, <- (@scan_atom_number _ Hs).
  destruct s as [|c s]; [contradiction|].
  assert (Hc : c = 45%N \/ (48 <= c <= 57)%N).
  { destruct Hs as [Hd|[-> _]]; [right; now apply digit_range | now left]. }
  destruct (N.eqb_spec c 34); [destruct Hc as [Hc|Hc]; [subst; discriminate | lia]|].
  destruct (N.eqb_spec c 123); [destruct Hc as [Hc|Hc]; [subst; discriminate | lia]|].
  destruct (N.eqb_spec c 91); [destruct Hc as [Hc|Hc]; [subst; discriminate | lia]|].
  reflexivity.
Qed.

Lemma pyval_induction (P : pyval -> Prop) :
  P PyNone ->
  (forall b, P (PyBool b)) ->
  (forall n, P (PyInt n)) ->
  (forall l, P (PyFloat l)) ->
  (forall s, P (PyStr s)) ->
  (forall items, Forall P items -> P (PyList items)) ->
  (forall items, Forall (fun kv => P (snd kv)) items -> P (PyDict items)) ->
  forall o, P o.
Proof.
  intros Hnone Hbool Hint Hfloat Hstr Hlist Hdict.
  fix IH 1. intros [ |b|n|l|s|items|items].
  - exact Hnone.
  - apply Hbool.
  - apply Hint.
  - apply Hfloat.
  - apply Hstr.
  - apply Hlist. induction items as [|x items IHi]; constructor; [apply IH | exact IHi].
  - apply Hdict. induction items as [|[k x] items IHi]; constructor;
      [apply IH | exact IHi].
Qed.

Lemma dict_set_fresh d k v :
  ~ In k (List.map fst d) -> dict_set d k v = d ++ [(k, v)].
Proof.
  induction d as [|[k' x] d IH]; simpl; [reflexivity|]. intros Hk.
  destruct (str_eqb_spec k' k) as [->|_]; [tauto|].
  rewrite IH; [reflexivity | tauto].
Qed.

Lemma dict_of_pairs_distinct items :
  NoDup (List.map fst items) -> dict_of_pairs items = items.
Proof.
  unfold dict_of_pairs.
  assert (Hgen : forall acc,
             NoDup (List.map fst (acc ++ items)) ->
             fold_left (fun d kv => dict_set d (fst kv) (snd kv)) items acc
             = acc ++ items).
  { induction items as [|[k v] items IH]; intros acc Hnd; simpl.
    - now rewrite app_nil_r.
    - rewrite dict_set_fresh.
      + rewrite IH; rewrite <- app_assoc; [reflexivity | exact Hnd].
      + rewrite map_app in Hnd. simpl in Hnd.
        apply NoDup_remove_2 in Hnd. intros Hin. apply Hnd.
        apply in_or_app. now left. }
  intros Hnd. now apply (Hgen []).
Qed.

Lemma skip_ws_indent level s : skip_ws (newline_indent level ++ s) = skip_ws s.
Proof.
  unfold newline_indent. cbn [app skip_ws json_space N.eqb Pos.eqb orb].
  induction (2 * level)%nat as [|n IH]; [reflexivity | exact IH].
Qed.

Lemma skip_ws_start c s : json_space c = false -> skip_ws (c :: s) = c :: s.
Proof. intros Hc. simpl. now rewrite Hc. Qed.

Lemma delimited_indent level s : delimited (newline_indent level ++ s).
Proof. unfold delimited, newline_indent. cbn. repeat split; discriminate. Qed.

Section ReadBack.
Context `{PyRuntime}.

Lemma plain_list items : plain (PyList items) <-> Forall plain items.
Proof.
  induction items as [|x items IH]; [split; constructor|].
  split.
  - intros [Hx Hrest]. constructor; [assumption | now apply IH].
  - intros Hall. inversion Hall; subst. split; [assumption | now apply IH].
Qed.

Lemma plain_dict items :
  plain (PyDict items) <->
  NoDup (List.map fst items) /\ Forall (fun kv => plain (snd kv)) items.
Proof.
  cbn [plain]. apply and_iff_compat_l.
  induction items as [|kv items IH]; [split; constructor|].
  split.
  - intros [Hx Hrest]. constructor; [assumption | now apply IH].
  - intros Hall. inversion Hall; subst. split; [assumption | now apply IH].
Qed.

Lemma number_value_start s :
  number_start s -> exists c t, s = c :: t /\ value_start c.
Proof.
  destruct s as [|c s]; [contradiction|]. intros Hs. exists c, s.
  split; [reflexivity|].
  assert (Hc : c = 45%N \/ (48 <= c <= 57)%N).
  { destruct Hs as [Hd|[-> _]]; [right; now apply digit_range | now left]. }
  destruct Hc as [->|Hc]; [repeat split; discriminate|].
  unfold value_start, json_space. repeat split; try (intros ->; lia).
  repeat (apply orb_false_iff; split); apply N.eqb_neq; lia.
Qed.

Lemma iterencode_start level o :
  plain o -> exists c t, iterencode level o = c :: t /\ value_start c.
Proof.
  assert (Hlit : forall c t, In c [110; 116; 102; 34; 91; 123]%N ->
            exists c' t', c :: t = c' :: t' /\ value_start c').
  { intros c t Hc. exists c, t. split; [reflexivity|]. cbn in Hc.
    repeat (destruct Hc as [<-|Hc]; [repeat split; discriminate|]). contradiction. }
  destruct o as [ |[|]|n|l|s|[|x items]|[|kv items]]; cbn [iterencode]; intros Hp;
    try (apply Hlit; cbn; tauto).
  - apply number_value_start, str_of_Z_start.
  - destruct Hp as [Hl ->]. now apply number_value_start, float_text_start.
Qed.

Lemma scan_once_found_mono f f' s v r :
  scan_once f s = Found v r -> (f <= f')%nat -> scan_once f' s = Found v r.
Proof.
  intros Hs Hle. replace f' with ((f' - f) + f)%nat by lia.
  rewrite scan_once_more_fuel; [assumption|]. rewrite Hs. discriminate.
Qed.

Lemma array_items_found_mono f f' s vs r :
  array_items f s = Found vs r -> (f <= f')%nat -> array_items f' s = Found vs r.
Proof.
  intros Hs Hle. replace f' with ((f' - f) + f)%nat by lia.
  induction (f' - f)%nat as [|extra IH]; [assumption|].
  simpl plus. rewrite (proj1 (proj2 (scan_fuel_mono (extra + f)))); [assumption|].
  rewrite IH. discriminate.
Qed.

Lemma object_items_found_mono f f' s kvs r :
  object_items f s = Found kvs r -> (f <= f')%nat -> object_items f' s = Found kvs r.
Proof.
  intros Hs Hle. replace f' with ((f' - f) + f)%nat by lia.
  induction (f' - f)%nat as [|extra IH]; [assumption|].
  simpl plus. rewrite (proj2 (proj2 (scan_fuel_mono (extra + f)))); [assumption|].
  rewrite IH. discriminate.
Qed.
End ReadBack.

(** *** Lists and dicts *)

Lemma scan_once_list f body c t items rest :
  skip_ws body = c :: t -> c <> 93%N ->
  array_items f (c :: t) = Found items rest ->
  scan_once (S f) (91%N :: body) = Found (PyList items) rest.
Proof.
  intros Hw Hc Ha. rewrite scan_once_S. cbn [N.eqb Pos.eqb]. rewrite Hw.
  destruct (N.eqb_spec c 93); [contradiction|]. now rewrite Ha.
Qed.

Lemma scan_once_dict f body c t pairs rest :
  skip_ws body = c :: t -> c <> 125%N ->
  object_items f (c :: t) = Found pairs rest ->
  scan_once (S f) (123%N :: body) = Found (PyDict (dict_of_pairs pairs)) rest.
Proof.
  intros Hw Hc Ha. rewrite scan_once_S. cbn [N.eqb Pos.eqb]. rewrite Hw.
  destruct (N.eqb_spec c 125); [contradiction|]. now rewrite Ha.
Qed.

Lemma array_items_last f s v rest1 r :
  scan_once f s = Found v rest1 -> skip_ws rest1 = 93%N :: r ->
  array_items (S f) s = Found [v] r.
Proof. intros Hs Hw. rewrite array_items_S, Hs, Hw. reflexivity. Qed.

Lemma array_items_more f s v rest1 r vs rest :
  scan_once f s = Found v rest1 -> skip_ws rest1 = 44%N :: r ->
  array_items f (skip_ws r) = Found vs rest ->
  array_items (S f) s = Found (v :: vs) rest.
Proof. intros Hs Hw Ha. rewrite array_items_S, Hs, Hw. cbn [N.eqb Pos.eqb]. now rewrite Ha. Qed.

Lemma object_items_last f key after v body r r' :
  skip_ws after = 58%N :: 32%N :: body ->
  scan_once f (skip_ws (32%N :: body)) = Found v r ->
  skip_ws r = 125%N :: r' ->
  object_items (S f) (34%N :: flat_map escape_char key ++ 34%N :: after)
  = Found [(key, v)] r'.
Proof.
  intros Hw Hs Hr. rewrite object_items_S. cbn [N.eqb Pos.eqb].
  rewrite scanstring_escaped, Hw. cbn [N.eqb Pos.eqb]. rewrite Hs, Hr. reflexivity.
Qed.

Lemma object_items_more f key after v body r r' kvs rest :
  skip_ws after = 58%N :: 32%N :: body ->
  scan_once f (skip_ws (32%N :: body)) = Found v r ->
  skip_ws r = 44%N :: r' ->
  object_items f (skip_ws r') = Found kvs rest ->
  object_items (S f) (34%N :: flat_map escape_char key ++ 34%N :: after)
  = Found ((key, v) :: kvs) rest.
Proof.
  intros Hw Hs Hr Ho. rewrite object_items_S. cbn [N.eqb Pos.eqb].
  rewrite scanstring_escaped, Hw. cbn [N.eqb Pos.eqb]. rewrite Hs, Hr.
  cbn [N.eqb Pos.eqb]. now rewrite Ho.
Qed.

Section ReadBackValues.
Context `{PyRuntime}.

Lemma array_read_back inner level items rest :
  items <> [] -> Forall reads_back items -> Forall plain items ->
  exists f,
    array_items f
      (join (comma_indent inner) (List.map (iterencode inner) items)
         ++ newline_indent level ++ 93%N :: rest)
    = Found items rest.
Proof.
  intros Hne Hrb Hpl. induction items as [|x items IH]; [congruence|].
  inversion Hrb as [|? ? Hx Hrb']; inversion Hpl as [|? ? Hpx Hpl']; subst.
  destruct items as [|y items].
  - cbn [List.map join].
    destruct (Hx Hpx inner (newline_indent level ++ 93%N :: rest)
                (delimited_indent _ _)) as (f & Hf).
    exists (S f). eapply array_items_last; [exact Hf|].
    rewrite skip_ws_indent. reflexivity.
  - destruct (IH ltac:(discriminate) Hrb' Hpl') as (f2 & Hf2).
    set (tail := join (comma_indent inner) (List.map (iterencode inner) (y :: items))
                   ++ newline_indent level ++ 93%N :: rest) in *.
    assert (Hjoin : join (comma_indent inner)
                      (List.map (iterencode inner) (x :: y :: items))
                      ++ newline_indent level ++ 93%N :: rest
                    = iterencode inner x ++ 44%N :: newline_indent inner ++ tail).
    { cbn [List.map join]. unfold tail, comma_indent. cbn [List.map].
      repeat (rewrite <- app_assoc || rewrite <- app_comm_cons). reflexivity. }
    rewrite Hjoin.
    destruct (Hx Hpx inner (44%N :: newline_indent inner ++ tail)) as (f1 & Hf1).
    { cbn. repeat split; discriminate. }
    inversion Hpl' as [|? ? Hpy _]; subst.
    destruct (@iterencode_start _ inner _ Hpy) as (c & t & Hc & Hstart).
    assert (Htail : skip_ws (newline_indent inner ++ tail) = tail).
    { rewrite skip_ws_indent. unfold tail. cbn [List.map].
      destruct items; cbn [join]; rewrite Hc; cbn [app];
        apply skip_ws_start; apply Hstart. }
    exists (S (Nat.max f1 f2)). eapply array_items_more.
    + eapply scan_once_found_mono; [exact Hf1 | lia].
    + reflexivity.
    + rewrite Htail. eapply array_items_found_mono; [exact Hf2 | lia].
Qed.

Lemma encode_pair_eq level k v tail :
  encode_pair level (k, v) ++ tail
  = 34%N :: flat_map escape_char k ++ 34%N :: 58%N :: 32%N :: iterencode level v ++ tail.
Proof.
  unfold encode_pair, encode_basestring. cbn [fst snd].
  repeat (rewrite <- app_assoc || rewrite <- app_comm_cons). reflexivity.
Qed.

Lemma object_read_back inner level items rest :
  items <> [] ->
  Forall (fun kv => reads_back (snd kv)) items ->
  Forall (fun kv => plain (snd kv)) items ->
  exists f,
    object_items f
      (join (comma_indent inner) (List.map (encode_pair inner) items)
         ++ newline_indent level ++ 125%N :: rest)
    = Found items rest.
Proof.
  intros Hne Hrb Hpl. induction items as [|[k x] items IH]; [congruence|].
  inversion Hrb as [|? ? Hx Hrb']; inversion Hpl as [|? ? Hpx Hpl']; subst.
  cbn [snd] in Hx, Hpx.
  destruct (@iterencode_start _ inner _ Hpx) as (cx & tx & Hcx & Hsx).
  assert (Hvalue : forall tail,
             skip_ws (32%N :: iterencode inner x ++ tail) = iterencode inner x ++ tail).
  { intros tail. cbn [skip_ws json_space N.eqb Pos.eqb orb]. rewrite Hcx. cbn [app].
    apply skip_ws_start. apply Hsx. }
  destruct items as [|[k' y] items].
  - cbn [List.map join]. rewrite encode_pair_eq.
    destruct (Hx Hpx inner (newline_indent level ++ 125%N :: rest)
                (delimited_indent _ _)) as (f & Hf).
    exists (S f). eapply object_items_last.
    + reflexivity.
    + rewrite Hvalue. exact Hf.
    + rewrite skip_ws_indent. reflexivity.
  - destruct (IH ltac:(discriminate) Hrb' Hpl') as (f2 & Hf2).
    set (tail := join (comma_indent inner) (List.map (encode_pair inner) ((k', y) :: items))
                   ++ newline_indent level ++ 125%N :: rest) in *.
    assert (Hjoin : join (comma_indent inner)
                      (List.map (encode_pair inner) ((k, x) :: (k', y) :: items))
                      ++ newline_indent level ++ 125%N :: rest
                    = encode_pair inner (k, x)
                        ++ 44%N :: newline_indent inner ++ tail).
    { cbn [List.map join]. unfold tail, comma_indent. cbn [List.map].
      repeat (rewrite <- app_assoc || rewrite <- app_comm_cons). reflexivity. }
    rewrite Hjoin, encode_pair_eq.
    destruct (Hx Hpx inner (44%N :: newline_indent inner ++ tail)) as (f1 & Hf1).
    { cbn. repeat split; discriminate. }
    assert (Htail : skip_ws (newline_indent inner ++ tail) = tail).
    { rewrite skip_ws_indent. unfold tail. cbn [List.map].
      destruct items; cbn [join]; unfold encode_pair at 1, encode_basestring;
        cbn [app]; reflexivity. }
    exists (S (Nat.max f1 f2)). eapply object_items_more.
    + reflexivity.
    + rewrite Hvalue. eapply scan_once_found_mono; [exact Hf1 | lia].
    + reflexivity.
    + rewrite Htail. eapply object_items_found_mono; [exact Hf2 | lia].
Qed.

Theorem iterencode_read_back o : reads_back o.
Proof.
  induction o as [ |b|n|l|s|items IH|items IH] using pyval_induction;
    intros Hp level rest Hrest.
  - exists 1%nat. reflexivity.
  - exists 1%nat. destruct b; reflexivity.
  - exists 1%nat. cbn [iterencode].
    rewrite scan_once_number by apply number_start_app, str_of_Z_start.
    now rewrite match_number_int.
  - destruct Hp as [Hl Hjson]. exists 1%nat. cbn [iterencode]. rewrite Hjson.
    rewrite scan_once_number by now apply number_start_app, float_text_start.
    now rewrite match_number_float.
  - exists 1%nat. cbn [iterencode]. unfold encode_basestring.
    rewrite scan_once_S. cbn [app N.eqb Pos.eqb].
    rewrite <- app_assoc. cbn [app]. now rewrite scanstring_escaped.
  - apply plain_list in Hp. destruct items as [|x items].
    + exists 1%nat. reflexivity.
    + destruct (@array_read_back (S level) level (x :: items) rest
                  ltac:(discriminate)) as (f & Hf).
      { rewrite Forall_forall in *. intros y Hy. exact (IH y Hy). }
      { assumption. }
      inversion Hp as [|? ? Hpx _]; subst.
      destruct (@iterencode_start _ (S level) _ Hpx) as (c & t & Hc & Hs).
      assert (Hhead : exists t',
                 join (comma_indent (S level))
                   (List.map (iterencode (S level)) (x :: items))
                   ++ newline_indent level ++ 93%N :: rest = c :: t').
      { destruct items; cbn [List.map join]; rewrite Hc; cbn [app]; eauto. }
      destruct Hhead as (t' & Ht'). exists (S f).
      assert (Henc : iterencode level (PyList (x :: items)) ++ rest
                     = 91%N :: newline_indent (S level) ++ c :: t').
      { rewrite <- Ht'. cbn [iterencode]. unfold comma_indent.
        change (lit "[") with [91%N]. change (lit "]") with [93%N].
        repeat (rewrite <- app_assoc || rewrite <- app_comm_cons). reflexivity. }
      rewrite Henc. eapply scan_once_list.
      * rewrite skip_ws_indent. apply skip_ws_start. apply Hs.
      * apply Hs.
      * rewrite <- Ht'. exact Hf.
  - apply plain_dict in Hp. destruct Hp as [Hnd Hp]. destruct items as [|[k x] items].
    + exists 1%nat. reflexivity.
    + destruct (@object_read_back (S level) level ((k, x) :: items) rest
                  ltac:(discriminate)) as (f & Hf).
      { rewrite Forall_forall in *. intros y Hy. exact (IH y Hy). }
      { assumption. }
      assert (Hhead : exists t',
                 join (comma_indent (S level))
                   (List.map (encode_pair (S level)) ((k, x) :: items))
                   ++ newline_indent level ++ 125%N :: rest = 34%N :: t').
      { destruct items; cbn [List.map join];
          unfold encode_pair at 1, encode_basestring; cbn [app]; eauto. }
      destruct Hhead as (t' & Ht'). exists (S f).
      assert (Henc : iterencode level (PyDict ((k, x) :: items)) ++ rest
                     = 123%N :: newline_indent (S level) ++ 34%N :: t').
      { rewrite <- Ht'. cbn [iterencode]. unfold comma_indent, encode_pair.
        change (lit "{") with [123%N]. change (lit "}") with [125%N].
        repeat (rewrite <- app_assoc || rewrite <- app_comm_cons). reflexivity. }
      rewrite Henc.
      rewrite <- (@dict_of_pairs_distinct ((k, x) :: items) Hnd) at 1.
      eapply scan_once_dict.
      * rewrite skip_ws_indent. reflexivity.
      * discriminate.
      * rewrite <- Ht'. exact Hf.
Qed.

(** [json.loads(json.dumps(o, indent=2, ensure_ascii=False)) == o] *)
Theorem json_loads_dumps o : plain o -> json_loads (json_dumps o) = Some o.
Proof.
  intros Hp. destruct (@iterencode_read_back o Hp 0%nat [] I) as (f & Hf).
  rewrite app_nil_r in Hf. fold (json_dumps o) in Hf.
  destruct (@iterencode_start _ 0 _ Hp) as (c & t & Hc & Hs).
  fold (json_dumps o) in Hc.
  eapply json_loads_found with (fuel := f) (rest := []); [| |reflexivity].
  - rewrite Hc. unfold startswith. rewrite strip_prefix_mismatch; [reflexivity|].
    intros <-. clear - Hc Hp.
    destruct o as [ |[|]|n|l|s|[|x items]|[|kv items]]; cbn in Hc; try discriminate.
    + pose proof (str_of_Z_start n) as Hn. rewrite Hc in Hn.
      destruct Hn as [Hd|[Hd _]]; discriminate Hd.
    + destruct Hp as [Hl Hjson]. rewrite Hjson in Hc.
      apply float_text_start in Hl. rewrite Hc in Hl.
      destruct Hl as [Hd|[Hd _]]; discriminate Hd.
  - rewrite Hc, skip_ws_start by apply Hs. rewrite <- Hc. exact Hf.
Qed.
End ReadBackValues.

(** *** UTF-8 *)

Lemma byte_of_N_value n : (n < 256)%N -> Byte.to_N (byte_of_N n) = n.
Proof.
  intros Hn. unfold byte_of_N. destruct (Byte.of_N n) as [b|] eqn:E.
  - now apply Byte.to_of_N.
  - apply Byte.of_N_None_iff in E. lia.
Qed.

Lemma utf8_decode_cons b0 r :
  utf8_decode (b0 :: r) =
  let cons_to c r :=
    match r with Some t => Some (c :: t) | None => None end in
  let n0 := Byte.to_N b0 in
  (if n0 <? 128 then cons_to n0 (utf8_decode r)
   else if n0 <? 194 then None
   else if n0 <? 224 then
     match r with
     | b1 :: r1 =>
         if is_continuation b1 then
           cons_to ((n0 - 192) * 64 + (Byte.to_N b1 - 128)) (utf8_decode r1)
         else None
     | _ => None
     end
   else if n0 <? 240 then
     match r with
     | b1 :: b2 :: r2 =>
         let c := (n0 - 224) * 4096 + (Byte.to_N b1 - 128) * 64
                  + (Byte.to_N b2 - 128) in
         if is_continuation b1 && is_continuation b2
            && negb (c <? 2048) && negb (is_surrogate c)
         then cons_to c (utf8_decode r2) else None
     | _ => None
     end
   else if n0 <? 245 then
     match r with
     | b1 :: b2 :: b3 :: r3 =>
         let c := (n0 - 240) * 262144 + (Byte.to_N b1 - 128) * 4096
                  + (Byte.to_N b2 - 128) * 64 + (Byte.to_N b3 - 128) in
         if is_continuation b1 && is_continuation b2 && is_continuation b3
            && negb (c <? 65536) && (c <? 1114112)
         then cons_to c (utf8_decode r3) else None
     | _ => None
     end
   else None)%N.
Proof. destruct r as [|b1 [|b2 [|b3 r]]]; reflexivity. Qed.

Lemma continuation_byte r : (r < 64)%N -> is_continuation (byte_of_N (128 + r)) = true.
Proof.
  intros Hr. unfold is_continuation. rewrite byte_of_N_value by lia.
  apply andb_true_iff. split; [apply N.leb_le | apply N.ltb_lt]; lia.
Qed.

(** The digits of a code point in base 64. *)
Lemma base64_digits c :
  exists q1 q2 q3 r1 r2 r3,
    (c / 64 = q1 /\ c mod 64 = r1 /\
     c / 4096 = q2 /\ (c / 64) mod 64 = r2 /\
     c / 262144 = q3 /\ (c / 4096) mod 64 = r3 /\
     c = 64 * q1 + r1 /\ q1 = 64 * q2 + r2 /\ q2 = 64 * q3 + r3 /\
     r1 < 64 /\ r2 < 64 /\ r3 < 64)%N.
Proof.
  exists (c / 64)%N, (c / 4096)%N, (c / 262144)%N,
         (c mod 64)%N, ((c / 64) mod 64)%N, ((c / 4096) mod 64)%N.
  assert (H1 : (c / 4096 = c / 64 / 64)%N) by (now rewrite N.Div0.div_div).
  assert (H2 : (c / 262144 = c / 4096 / 64)%N) by (now rewrite N.Div0.div_div).
  repeat split.
  - apply N.div_mod. discriminate.
  - rewrite H1. apply N.div_mod. discriminate.
  - rewrite H2. apply N.div_mod. discriminate.
  - apply N.mod_lt. discriminate.
  - apply N.mod_lt. discriminate.
  - apply N.mod_lt. discriminate.
Qed.

(** One character through [encode] and [decode]. *)
Lemma utf8_char_decode c r :
  scalar c = true ->
  exists b, utf8_char c = Some b /\
    utf8_decode (b ++ r)
    = match utf8_decode r with Some t => Some (c :: t) | None => None end.
Proof.
  unfold scalar. intros Hc. apply andb_true_iff in Hc. destruct Hc as [Hmax Hsur].
  apply N.ltb_lt in Hmax. apply negb_true_iff in Hsur.
  unfold utf8_char. rewrite Hsur.
  destruct (base64_digits c)
    as (q1 & q2 & q3 & r1 & r2 & r3 & -> & -> & -> & -> & -> & -> &
        Hc1 & Hq1 & Hq2 & Hr1 & Hr2 & Hr3).
  destruct (N.ltb_spec c 128) as [H128|H128].
  { eexists. split; [reflexivity|]. cbn [app]. rewrite utf8_decode_cons.
    cbv zeta. rewrite byte_of_N_value by lia.
    destruct (N.ltb_spec c 128); [reflexivity | lia]. }
  destruct (N.ltb_spec c 2048) as [H2048|H2048].
  { eexists. split; [reflexivity|]. cbn [app]. rewrite utf8_decode_cons.
    cbv zeta. rewrite continuation_byte by assumption.
    rewrite !byte_of_N_value by lia.
    destruct (N.ltb_spec (192 + q1) 128); [lia|].
    destruct (N.ltb_spec (192 + q1) 194); [lia|].
    destruct (N.ltb_spec (192 + q1) 224); [|lia].
    replace ((192 + q1 - 192) * 64 + (128 + r1 - 128))%N with c by lia.
    reflexivity. }
  destruct (N.ltb_spec c 65536) as [H65536|H65536].
  { eexists. split; [reflexivity|]. cbn [app]. rewrite utf8_decode_cons.
    cbv zeta. rewrite !continuation_byte by assumption.
    rewrite !byte_of_N_value by lia.
    destruct (N.ltb_spec (224 + q2) 128); [lia|].
    destruct (N.ltb_spec (224 + q2) 194); [lia|].
    destruct (N.ltb_spec (224 + q2) 224); [lia|].
    destruct (N.ltb_spec (224 + q2) 240); [|lia].
    replace ((224 + q2 - 224) * 4096 + (128 + r2 - 128) * 64 + (128 + r1 - 128))%N
      with c by lia.
    rewrite Hsur. destruct (N.ltb_spec c 2048); [lia | reflexivity]. }
  destruct (N.ltb_spec c 1114112) as [_|]; [|lia].
  eexists. split; [reflexivity|]. cbn [app]. rewrite utf8_decode_cons.
  cbv zeta. rewrite !continuation_byte by assumption.
  rewrite !byte_of_N_value by lia.
  destruct (N.ltb_spec (240 + q3) 128); [lia|].
  destruct (N.ltb_spec (240 + q3) 194); [lia|].
  destruct (N.ltb_spec (240 + q3) 224); [lia|].
  destruct (N.ltb_spec (240 + q3) 240); [lia|].
  destruct (N.ltb_spec (240 + q3) 245); [|lia].
  replace ((240 + q3 - 240) * 262144 + (128 + r3 - 128) * 4096
           + (128 + r2 - 128) * 64 + (128 + r1 - 128))%N with c by lia.
  destruct (N.ltb_spec c 65536); [lia|].
  destruct (N.ltb_spec c 1114112); [reflexivity | lia].
Qed.

(** [s.encode().decode() == s] for a string without surrogates. *)
Lemma utf8_encode_decode s :
  forallb scalar s = true ->
  exists b, utf8_encode s = Some b /\ utf8_decode b = Some s.
Proof.
  induction s as [|c s IH]; [exists []; split; reflexivity|].
  cbn [forallb]. intros Hs. apply andb_true_iff in Hs. destruct Hs as [Hc Hs].
  destruct (IH Hs) as (bs & Hbs & Hdec).
  destruct (@utf8_char_decode c bs Hc) as (b & Hb & Hd).
  exists (b ++ bs). cbn [utf8_encode]. rewrite Hb, Hbs. split; [reflexivity|].
  now rewrite Hd, Hdec.
Qed.

(** *** The text of [json.dumps] has bytes *)

Lemma ascii_scalar c : (c < 128)%N -> scalar c = true.
Proof.
  intros Hc. unfold scalar, is_surrogate. apply andb_true_iff. split.
  - apply N.ltb_lt. lia.
  - apply negb_true_iff, andb_false_iff. left. apply N.leb_gt. lia.
Qed.

Lemma ascii_encodable s : Forall (fun c => (c < 128)%N) s -> encodable s.
Proof. apply Forall_impl. intros c. apply ascii_scalar. Qed.

Lemma encodable_app a b : encodable a -> encodable b -> encodable (a ++ b).
Proof. intros Ha Hb. apply Forall_app. now split. Qed.

Lemma encodable_cons c s : (c < 128)%N -> encodable s -> encodable (c :: s).
Proof. intros Hc Hs. constructor; [now apply ascii_scalar | assumption]. Qed.

Lemma encodable_forallb s : forallb scalar s = true <-> encodable s.
Proof. unfold encodable. rewrite Forall_forall. apply forallb_forall. Qed.

Lemma digits_ascii ds :
  Forall (fun c => is_digit c = true) ds -> Forall (fun c => (c < 128)%N) ds.
Proof. apply Forall_impl. intros c Hc. apply digit_range in Hc. lia. Qed.

Lemma hex_digit_ascii n : (n < 16)%N -> (hex_digit n < 128)%N.
Proof. unfold hex_digit. intros Hn. destruct (N.ltb_spec n 10); lia. Qed.

Lemma escape_char_encodable c : scalar c = true -> encodable (escape_char c).
Proof.
  intros Hc. unfold escape_char.
  repeat match goal with
         | |- encodable (if (c =? ?k)%N then _ else _) =>
             destruct (c =? k)%N;
             [repeat apply encodable_cons; try (constructor || reflexivity)|]
         end.
  destruct (N.ltb_spec c 32) as [Hlt|Hge].
  - repeat apply encodable_cons; try reflexivity; try constructor.
    + apply hex_digit_ascii. apply N.Div0.div_lt_upper_bound. lia.
    + apply hex_digit_ascii. apply N.mod_lt. discriminate.
  - constructor; [assumption | constructor].
Qed.

Lemma encode_basestring_encodable s :
  forallb scalar s = true -> encodable (encode_basestring s).
Proof.
  intros Hs. unfold encode_basestring. apply encodable_cons; [reflexivity|].
  apply encodable_app; [|apply encodable_cons; [reflexivity | constructor]].
  induction s as [|c s IH]; [constructor|]. cbn [forallb flat_map] in *.
  apply andb_true_iff in Hs. destruct Hs as [Hc Hs].
  apply encodable_app; [now apply escape_char_encodable | now apply IH].
Qed.

Lemma newline_indent_encodable level : encodable (newline_indent level).
Proof.
  unfold newline_indent. apply encodable_cons; [reflexivity|].
  apply Forall_forall. intros c Hc. apply repeat_spec in Hc. now subst.
Qed.

Lemma join_encodable sep parts :
  encodable sep -> Forall encodable parts -> encodable (join sep parts).
Proof.
  intros Hsep Hparts. induction Hparts as [|p parts Hp _ IH]; [constructor|].
  destruct parts as [|q parts]; cbn [join]; [assumption|].
  apply encodable_app; [assumption|]. apply encodable_app; assumption.
Qed.

Lemma str_of_Z_encodable z : encodable (str_of_Z z).
Proof.
  assert (Hnum : forall n, encodable (str_of_N n)).
  { intros n. apply ascii_encodable, digits_ascii, str_of_N_numeral. }
  destruct z; cbn [str_of_Z]; try apply Hnum.
  apply encodable_cons; [reflexivity | apply Hnum].
Qed.

Lemma scan_int_digits s ds r :
  scan_int s = Some (ds, r) -> Forall (fun c => is_digit c = true) ds.
Proof.
  unfold scan_int. destruct s as [|c s]; [discriminate|].
  destruct (N.eqb_spec c 48) as [->|].
  - intros [= <- <-]. now constructor.
  - destruct (is_digit c) eqn:Ec; [|discriminate].
    destruct (take_digits s) as [ds' rest'] eqn:Et.
    apply take_digits_spec in Et. destruct Et as [_ Hall].
    intros [= <- <-]. now constructor.
Qed.

Lemma scan_frac_ascii s m r :
  scan_frac s = (m, r) -> Forall (fun c => (c < 128)%N) m.
Proof.
  unfold scan_frac. destruct s as [|c s]; [intros [= <- <-]; constructor|].
  destruct (N.eqb_spec c 46) as [->|]; [|intros [= <- <-]; constructor].
  destruct (take_digits s) as [[|f fs] rest] eqn:Et; [intros [= <- <-]; constructor|].
  apply take_digits_spec in Et. destruct Et as [_ Hall].
  intros [= <- <-]. constructor; [reflexivity | now apply digits_ascii].
Qed.

Lemma scan_exp_ascii s m r :
  scan_exp s = (m, r) -> Forall (fun c => (c < 128)%N) m.
Proof.
  unfold scan_exp. destruct s as [|c s]; [intros [= <- <-]; constructor|].
  destruct ((c =? 101) || (c =? 69))%N eqn:Ec; [|intros [= <- <-]; constructor].
  assert (Hc : (c < 128)%N).
  { apply orb_true_iff in Ec. destruct Ec as [Ec|Ec]; apply N.eqb_eq in Ec; lia. }
  assert (Hsign : exists esign r',
            match s with
            | c' :: r'' => if ((c' =? 45) || (c' =? 43))%N then ([c'], r'') else ([], s)
            | [] => ([], s)
            end = (esign, r') /\ Forall (fun c => (c < 128)%N) esign).
  { destruct s as [|c' s']; [exists [], []; split; [reflexivity | constructor]|].
    destruct ((c' =? 45) || (c' =? 43))%N eqn:Es; do 2 eexists;
      (split; [reflexivity|]); [|constructor].
    apply orb_true_iff in Es. constructor; [|constructor].
    destruct Es as [Es|Es]; apply N.eqb_eq in Es; lia. }
  destruct Hsign as (esign & r' & -> & Hes).
  destruct (take_digits r') as [[|f fs] rest] eqn:Et; [intros [= <- <-]; constructor|].
  apply take_digits_spec in Et. destruct Et as [_ Hall].
  intros [= <- <-]. constructor; [assumption|].
  apply Forall_app. split; [assumption | now apply digits_ascii].
Qed.

(** A float of JSON is written in ASCII. *)
Lemma float_text_ascii l : float_text l = true -> Forall (fun c => (c < 128)%N) l.
Proof.
  unfold float_text.
  destruct (match_number l) as [[[ | | |l'| | | ] [|]]|] eqn:E; try discriminate.
  destruct (str_eqb_spec l' l) as [->|]; [intros _ | discriminate].
  unfold match_number in E.
  destruct (scan_sign l) as [sign s1] eqn:E1. apply scan_sign_spec in E1.
  destruct E1 as [_ Hsign].
  destruct (scan_int s1) as [[ds s2]|] eqn:E2; [|discriminate].
  apply scan_int_digits in E2.
  destruct (scan_frac s2) as [frac s3] eqn:E3. apply scan_frac_ascii in E3.
  destruct (scan_exp s3) as [exp s4] eqn:E4. apply scan_exp_ascii in E4.
  assert (Hl : l = sign ++ ds ++ frac ++ exp) by (destruct frac, exp; congruence).
  rewrite Hl. repeat (apply Forall_app; split); try assumption.
  - destruct Hsign as [->| ->]; [constructor|]. constructor; [reflexivity | constructor].
  - now apply digits_ascii.
Qed.

Section Encodable.
Context `{PyRuntime}.

(** What [json.dumps] writes for values without surrogates has none. *)
Lemma iterencode_encodable o :
  plain o -> utf8_clean o = true -> forall level, encodable (iterencode level o).
Proof.
  assert (Hlit : forall s, Forall (fun c => (c < 128)%N) (lit s) -> encodable (lit s))
    by (intros s; apply ascii_encodable).
  induction o as [ |b|n|l|s|items IH|items IH] using pyval_induction;
    intros Hp Hc level.
  - apply Hlit. repeat constructor.
  - destruct b; apply Hlit; repeat constructor.
  - apply str_of_Z_encodable.
  - destruct Hp as [Hl Hjson]. cbn [iterencode]. rewrite Hjson.
    now apply ascii_encodable, float_text_ascii.
  - now apply encode_basestring_encodable.
  - apply plain_list in Hp. cbn [utf8_clean] in Hc.
    rewrite forallb_forall in Hc. rewrite Forall_forall in IH, Hp.
    destruct items as [|x items]; [apply Hlit; repeat constructor|].
    cbn [iterencode].
    repeat (apply encodable_app || apply newline_indent_encodable);
      try (apply Hlit; repeat constructor).
    apply join_encodable.
    + apply encodable_app; [apply Hlit; repeat constructor|].
      apply newline_indent_encodable.
    + apply Forall_map, Forall_forall. intros y Hy.
      apply IH; auto.
  - apply plain_dict in Hp. destruct Hp as [_ Hp]. cbn [utf8_clean] in Hc.
    rewrite forallb_forall in Hc. rewrite Forall_forall in IH, Hp.
    destruct items as [|kv items]; [apply Hlit; repeat constructor|].
    cbn [iterencode].
    repeat (apply encodable_app || apply newline_indent_encodable);
      try (apply Hlit; repeat constructor).
    apply join_encodable.
    + apply encodable_app; [apply Hlit; repeat constructor|].
      apply newline_indent_encodable.
    + apply Forall_map, Forall_forall. intros y Hy.
      specialize (Hc y Hy). apply andb_true_iff in Hc. destruct Hc as [Hk Hv].
      apply encodable_app; [now apply encode_basestring_encodable|].
      apply encodable_app; [apply Hlit; repeat constructor|].
      apply IH; auto.
Qed.

(** [json.loads(json.dumps(o, indent=2, ensure_ascii=False).encode()) == o] *)
Lemma json_loads_encoded o :
  plain o -> utf8_clean o = true ->
  exists payload,
    str_encode (json_dumps o) = Ret payload /\ json_loads_bytes payload = Some o.
Proof.
  intros Hp Hc.
  destruct (@utf8_encode_decode (json_dumps o)) as (b & Hb & Hd).
  { apply encodable_forallb. now apply iterencode_encodable. }
  exists b. unfold str_encode, json_loads_bytes. rewrite Hb, Hd.
  split; [reflexivity | now apply json_loads_dumps].
Qed.
End Encodable.

Section JsonExport.
Context `{PyRuntime} `{Openpyxl}.

Lemma plain_charts cs :
  Forall (fun c => plain (PyDict c)) cs -> plain (PyList (List.map PyDict cs)).
Proof. intros Hcs. apply plain_list. now apply Forall_map. Qed.

Lemma utf8_clean_charts cs :
  Forall (fun c => utf8_clean (PyDict c) = true) cs ->
  utf8_clean (PyList (List.map PyDict cs)) = true.
Proof.
  intros Hcs. cbn [utf8_clean]. apply forallb_forall. intros o Ho.
  apply in_map_iff in Ho. destruct Ho as (c & <- & Hc).
  rewrite Forall_forall in Hcs. now apply Hcs.
Qed.

End JsonExport.

Ltac distinct_keys :=
  repeat (constructor; [cbn; intuition discriminate|]); constructor.



(** * Further properties of the routes *)

(** ** The upload route *)

Lemma lower_char_idem c : lower_char (lower_char c) = lower_char c.
Proof.
  unfold lower_char.
  destruct ((65 <=? c) && (c <=? 90))%N eqn:E; [|now rewrite E].
  apply andb_true_iff in E. destruct E as [H1 H2]. apply N.leb_le in H1, H2.
  destruct (N.leb_spec 65 (c + 32)); destruct (N.leb_spec (c + 32) 90);
    cbn [andb]; try reflexivity; lia.
Qed.

Lemma lower_idem s : lower (lower s) = lower s.
Proof. unfold lower. rewrite map_map. apply map_ext, lower_char_idem. Qed.

Lemma lower_char_dot c : lower_char c = 46%N <-> c = 46%N.
Proof.
  unfold lower_char.
  destruct ((65 <=? c) && (c <=? 90))%N eqn:E; [|tauto].
  apply andb_true_iff in E. destruct E as [H1 H2]. apply N.leb_le in H1, H2. lia.
Qed.

Lemma endswith_last s p x : endswith s (p ++ [x]) = true -> In x s.
Proof.
  intros Hs. apply endswith_app in Hs. destruct Hs as [r ->].
  apply in_or_app. right. apply in_or_app. right. now left.
Qed.

(** A suffix that holds a dot is not the end of a text without one. *)
Lemma endswith_dot s p : In 46%N p -> ~ In 46%N s -> endswith s p = false.
Proof.
  intros Hp Hs. destruct (endswith s p) eqn:E; [|reflexivity].
  apply endswith_app in E. destruct E as [r ->]. exfalso. apply Hs.
  apply in_or_app. now right.
Qed.

Section UploadInvariants.
Context `{Pillow} `{PyMuPDF} `{PythonPptx}.

Lemma pdf_pages_numbered pages : forall i imgs,
  pdf_pages i pages = Ret imgs ->
  length imgs = length pages /\
  List.map page imgs = List.map (fun k => i + Z.of_nat k)%Z (seq 1 (length imgs)) /\
  Forall (fun p => placeholder p = None) imgs.
Proof.
  induction pages as [|p pages IH]; intros i imgs; simpl.
  - intros [= <-]. repeat split; constructor.
  - unfold bind. destruct (pixmap_png p); [|discriminate].
    destruct (compress_image _ _) as [[d mt]|]; [|discriminate].
    destruct (pdf_pages (i + 1) pages) as [more|] eqn:E; [|discriminate].
    destruct (IH _ _ E) as (Hlen & Hpages & Hnone).
    intros [= <-]. simpl. split; [now rewrite Hlen|]. split.
    + f_equal. rewrite Hpages, <- (seq_shift (length more) 1), map_map.
      apply map_ext. intros k. lia.
    + constructor; [reflexivity | assumption].
Qed.

Lemma slide_pictures_usable n shapes pics :
  slide_pictures n shapes = Ret pics -> pics = flat_map (usable_picture n) shapes.
Proof.
  revert pics. induction shapes as [|sh shapes IH]; intros pics; simpl.
  - now intros [= <-].
  - unfold bind at 1. unfold usable_picture at 1.
    destruct (is_picture sh) as [pic|]; [|discriminate].
    unfold bind at 2. destruct (slide_pictures n shapes) as [more|]; [|discriminate].
    intros [= <-]. rewrite (IH more eq_refl). f_equal.
    destruct pic; [|reflexivity]. unfold bind.
    destruct (image_blob sh); [|reflexivity].
    destruct (compress_image _ _) as [[d mt]|]; reflexivity.
Qed.

Lemma usable_picture_page n sh :
  Forall (fun p => page p = n /\ placeholder p = None) (usable_picture n sh).
Proof.
  unfold usable_picture. destruct (is_picture sh) as [[|]|]; try constructor.
  destruct (image_blob sh); [|constructor].
  destruct (compress_image _ _) as [[d mt]|]; repeat constructor.
Qed.

Lemma slide_image_page n shapes :
  page (slide_image n shapes) = n /\
  (placeholder (slide_image n shapes) = None \/
   placeholder (slide_image n shapes) = Some true /\ data (slide_image n shapes) = []).
Proof.
  unfold slide_image.
  assert (Hall : Forall (fun p => page p = n /\ placeholder p = None)
                   (flat_map (usable_picture n) shapes)).
  { induction shapes as [|sh shapes IH]; simpl; [constructor|].
    apply Forall_app. split; [apply usable_picture_page | exact IH]. }
  destruct (flat_map _ shapes) as [|img rest].
  - split; [reflexivity|]. right. split; reflexivity.
  - inversion Hall as [|? ? [Hp Hn] _]; subst. split; [reflexivity | now left].
Qed.

Lemma pptx_slides_images slides : forall (n : nat) imgs,
  pptx_slides (Z.of_nat n) slides = Ret imgs ->
  imgs = List.map (fun ks => slide_image (Z.of_nat (fst ks)) (snd ks))
           (combine (seq n (length slides)) slides).
Proof.
  induction slides as [|sl slides IH]; intros n imgs;
    cbn [pptx_slides length seq combine List.map].
  - now intros [= <-].
  - unfold bind.
    destruct (slide_pictures (Z.of_nat n) sl) as [pics|] eqn:E; [|discriminate].
    replace (Z.of_nat n + 1)%Z with (Z.of_nat (S n)) by lia.
    destruct (pptx_slides (Z.of_nat (S n)) slides) as [more|] eqn:E'; [|discriminate].
    intros [= <-]. apply slide_pictures_usable in E. subst pics.
    rewrite (IH _ _ E'). cbn [fst snd]. unfold slide_image at 2.
    destruct (flat_map _ sl); reflexivity.
Qed.
End UploadInvariants.

Lemma combine_seq_fst {A} (l : list A) : forall n,
  List.map fst (combine (seq n (length l)) l) = seq n (length l).
Proof.
  induction l as [|x l IH]; intros n; simpl; [reflexivity|]. now rewrite IH.
Qed.

Section UploadTheorems.
Context `{Pillow} `{PyMuPDF} `{PythonPptx}.

Lemma pptx_images_inv content imgs :
  pptx_images content = Ret imgs ->
  exists slides,
    Presentation content = Ret slides /\ pptx_slides 1 slides = Ret imgs.
Proof.
  unfold pptx_images, try_except, bind.
  destruct import_pptx as [[]|e]; [|destruct e; discriminate].
  destruct (Presentation content) as [prs|e]; [|destruct e; discriminate].
  destruct (pptx_slides 1 prs) as [l|e] eqn:E; [|destruct e; discriminate].
  intros [= <-]. eauto.
Qed.

Lemma deck_pages (slides : list (list shape)) n :
  let imgs := List.map (fun ks => slide_image (Z.of_nat (fst ks)) (snd ks))
                (combine (seq n (length slides)) slides) in
  length imgs = length slides /\
  List.map page imgs = List.map Z.of_nat (seq n (length slides)) /\
  Forall (fun p => placeholder p = None \/
                   placeholder p = Some true /\ data p = []) imgs.
Proof.
  intros imgs. unfold imgs. split; [|split].
  - rewrite length_map, length_combine, length_seq. lia.
  - rewrite <- (combine_seq_fst slides n) at 2. rewrite !map_map.
    apply map_ext. intros [k s]. apply slide_image_page.
  - apply Forall_map, Forall_forall. intros [k s] _. apply slide_image_page.
Qed.

(** What the three branches of [upload_file] build, when they build a
    list. *)
Lemma upload_file_inv file resp :
  upload_file file = Ret resp ->
  resp_filename resp = file_filename file /\
  total_pages resp = Z.of_nat (length (images resp)) /\
  images resp <> [] /\
  ((endswith (lowered_name file) (lit ".pdf") = true /\
    pdf_images (file_content file) = Ret (images resp)) \/
   (endswith (lowered_name file) (lit ".pdf") = false /\
    exists d mt,
      compress_image (file_content file) max_side_default = Ret (d, mt) /\
      images resp = [{| page := 1; data := d; media_type := mt;
                        placeholder := None |}]) \/
   (endswith (lowered_name file) (lit ".pdf") = false /\
    endswith (lowered_name file) (lit ".pptx") = true /\
    pptx_images (file_content file) = Ret (images resp))).
Proof.
  unfold upload_file, lowered_name, bind.
  destruct (endswith _ (lit ".pdf")).
  - destruct (pdf_images _) as [[|im imgs]|]; try discriminate.
    intros [= <-]. cbn [resp_filename total_pages images].
    repeat split; try discriminate. now left.
  - destruct (existsb _ raster_suffixes).
    + destruct (compress_image _ _) as [[d mt]|]; [|discriminate].
      intros [= <-]. cbn [resp_filename total_pages images].
      repeat split; try discriminate. right. left. split; [reflexivity|]. eauto.
    + destruct (endswith _ (lit ".pptx")); [|discriminate].
      destruct (pptx_images _) as [[|im imgs]|]; try discriminate.
      intros [= <-]. cbn [resp_filename total_pages images].
      repeat split; try discriminate. right. right. auto.
Qed.

(** X1: whatever the kind of the file, a response of the upload route
    holds at least one image, [total_pages] is the number of images, and
    the images are numbered 1, 2, ... in order without a gap; a PDF
    gives at most 30 of them. *)
Theorem upload_pages_numbered file resp :
  upload_file file = Ret resp ->
  images resp <> [] /\
  total_pages resp = Z.of_nat (length (images resp)) /\
  List.map page (images resp)
  = List.map Z.of_nat (seq 1 (length (images resp))) /\
  (endswith (lowered_name file) (lit ".pdf") = true ->
   (length (images resp) <= 30)%nat).
Proof.
  intros Hup. destruct (upload_file_inv _ Hup) as (_ & Htotal & Hne & Hkind).
  split; [exact Hne|]. split; [exact Htotal|].
  destruct Hkind as [[Hpdf Hrun]|[[Hpdf (d & mt & _ & Himgs)]|(Hpdf & _ & Hrun)]].
  - unfold pdf_images, bind in Hrun.
    destruct (fitz_open _) as [doc|]; [|discriminate].
    destruct (pdf_pages_numbered _ _ Hrun) as (Hlen & Hpages & _). split.
    + rewrite Hpages. apply map_ext. intros k. lia.
    + intros _. rewrite Hlen, length_firstn. lia.
  - rewrite Himgs. split; [reflexivity|]. congruence.
  - split; [|congruence].
    destruct (pptx_images_inv _ Hrun) as (slides & _ & Hs).
    apply (pptx_slides_images slides 1) in Hs.
    destruct (deck_pages slides 1) as (Hlen & Hpages & _).
    rewrite Hs, Hpages. now rewrite Hlen.
Qed.

(** X2: an image of a response is flagged as a placeholder with [True]
    or not at all, a placeholder carries no data, and only a slide deck
    gives placeholders. *)
Theorem upload_placeholders file resp :
  upload_file file = Ret resp ->
  Forall (fun p => placeholder p = None \/
                   placeholder p = Some true /\ data p = []) (images resp) /\
  (endswith (lowered_name file) (lit ".pptx") = false ->
   Forall (fun p => placeholder p = None) (images resp)).
Proof.
  intros Hup. destruct (upload_file_inv _ Hup) as (_ & _ & _ & Hkind).
  destruct Hkind as [[Hpdf Hrun]|[[Hpdf (d & mt & _ & Himgs)]|(Hpdf & Hx & Hrun)]].
  - unfold pdf_images, bind in Hrun.
    destruct (fitz_open _) as [doc|]; [|discriminate].
    destruct (pdf_pages_numbered _ _ Hrun) as (_ & _ & Hnone).
    split; [|intros _; exact Hnone].
    eapply Forall_impl; [|exact Hnone]. intros p Hp. now left.
  - rewrite Himgs. split; [|intros _]; repeat constructor.
  - split; [|congruence].
    destruct (pptx_images_inv _ Hrun) as (slides & _ & Hs).
    apply (pptx_slides_images slides 1) in Hs. rewrite Hs.
    apply (deck_pages slides 1).
Qed.


(** X4: the kind of a file is read off its name without regard to
    case: the route answers for [name] as it does for the lowered name,
    with the same images, and gives back the name it was sent. *)
Theorem upload_name_case_insensitive file name :
  upload_file (renamed file name)
  = match upload_file (renamed file (lower name)) with
    | Ret resp =>
        Ret {| resp_filename := Some name;
               total_pages := total_pages resp;
               images := images resp |}
    | Raise e => Raise e
    end.
Proof.
  unfold upload_file, renamed. cbn [file_filename file_content].
  rewrite lower_idem. unfold bind.
  destruct (endswith (lower name) (lit ".pdf")).
  - destruct (pdf_images _) as [[|im imgs]|]; reflexivity.
  - destruct (existsb _ raster_suffixes).
    + destruct (compress_image _ _) as [[d mt]|]; reflexivity.
    + destruct (endswith (lower name) (lit ".pptx")); [|reflexivity].
      destruct (pptx_images _) as [[|im imgs]|]; reflexivity.
Qed.

(** X5: whatever goes wrong with a slide deck is answered with status
    400, never 500: a missing python-pptx with its own message, any
    other exception of the branch with [PPTX processing error:] and the
    text of the exception, a deck without slides with
    [Could not extract any images]. *)
Theorem slide_deck_errors_are_400 file :
  endswith (lowered_name file) (lit ".pptx") = true ->
  (response_status (upload_file file) = 200 \/
   response_status (upload_file file) = 400)%Z /\
  (forall msg,
     import_pptx = Raise (ImportError msg) ->
     upload_file file
     = Raise (HTTPException 400
         (lit "python-pptx is required for PPTX support. Run: pip install python-pptx"))) /\
  (forall e,
     import_pptx = Ret tt ->
     Presentation (file_content file) = Raise e ->
     (forall msg, e <> ImportError msg) ->
     upload_file file
     = Raise (HTTPException 400 (lit "PPTX processing error: " ++ exn_str e))) /\
  (import_pptx = Ret tt ->
   Presentation (file_content file) = Ret [] ->
   upload_file file
   = Raise (HTTPException 400 (lit "Could not extract any images from the file."))).
Proof.
  intros Hx. rewrite (upload_file_pptx _ Hx).
  unfold upload_answer, pptx_images, try_except, bind. repeat split.
  - destruct import_pptx as [[]|e]; [|destruct e; right; reflexivity].
    destruct (Presentation _) as [prs|e]; [|destruct e; right; reflexivity].
    destruct (pptx_slides 1 prs) as [[|im l]|e];
      [right | left | destruct e; right]; reflexivity.
  - intros msg ->. reflexivity.
  - intros e -> -> Hne. destruct e; try reflexivity. now destruct (Hne msg).
  - intros -> ->. reflexivity.
Qed.

(** X6: the entry of each slide is its first picture shape that the
    normaliser accepts; a picture that fails to normalise is passed
    over, and a slide where none is left gets the placeholder.  This
    holds for every deck whose shapes tell their type. *)
Theorem slide_deck_first_usable_picture content slides :
  import_pptx = Ret tt ->
  Presentation content = Ret slides ->
  Forall readable slides ->
  pptx_images content
  = Ret (List.map (fun ks => slide_image (Z.of_nat (fst ks)) (snd ks))
           (combine (seq 1 (length slides)) slides)).
Proof.
  intros Himp Hprs Hr.
  destruct (pptx_slides_spec 1 Hr) as (imgs & Himgs & _).
  unfold pptx_images, try_except, bind. rewrite Himp, Hprs, Himgs.
  now rewrite (pptx_slides_images slides 1 Himgs).
Qed.
(** X15: a PDF upload is all or nothing: when one of the pages that
    the route renders, the first 30, fails to render or to normalise,
    the route raises and returns no image at all. *)
Theorem pdf_page_failure file doc p :
  endswith (lowered_name file) (lit ".pdf") = true ->
  fitz_open (file_content file) = Ret doc ->
  In p (firstn 30 doc) ->
  ~ page_ok p ->
  exists e, upload_file file = Raise e.
Proof.
  intros Hpdf Hopen Hin Hbad. rewrite (upload_file_pdf _ Hpdf).
  unfold pdf_images, bind. rewrite Hopen.
  assert (Hpages : forall pages i, In p pages -> exists e, pdf_pages i pages = Raise e).
  { induction pages as [|q pages IH]; intros i Hq; [contradiction|]. simpl.
    unfold bind. destruct (pixmap_png q) as [png|e] eqn:Epng; [|eauto].
    destruct (compress_image png max_side_default) as [[d mt]|e] eqn:Ec; [|eauto].
    destruct Hq as [->|Hq].
    - destruct Hbad. exists png, d, mt. auto.
    - destruct (IH (i + 1)%Z Hq) as (e & ->). eauto. }
  destruct (Hpages (firstn 30 doc) 0%Z Hin) as (e & ->). cbn. eauto.
Qed.
End UploadTheorems.

Section UploadWitnesses.
Import Sample.

Lemma upload_pages_numbered_witness :
  exists resp,
    upload_file sample_pdf = Ret resp /\
    total_pages resp = 3%Z /\
    List.map page (images resp) = [1; 2; 3]%Z.
Proof.
  assert (Hrun : exists resp, upload_file sample_pdf = Ret resp)
    by (eexists; vm_compute; reflexivity).
  destruct Hrun as (resp & Hresp). exists resp. split; [exact Hresp|].
  destruct (@upload_pages_numbered pillow pymupdf pptx sample_pdf resp Hresp)
    as (_ & Htotal & Hpages & _).
  assert (Hlen : length (images resp) = 3%nat).
  { revert Hresp. vm_compute. intros [= <-]. reflexivity. }
  rewrite Htotal, Hpages, Hlen. split; reflexivity.
Defined.

Lemma upload_placeholders_witness :
  exists resp,
    upload_file sample_deck = Ret resp /\
    Forall (fun p => placeholder p = None \/
                     placeholder p = Some true /\ data p = []) (images resp).
Proof.
  assert (Hrun : exists resp, upload_file sample_deck = Ret resp)
    by (eexists; vm_compute; reflexivity).
  destruct Hrun as (resp & Hresp). exists resp. split; [exact Hresp|].
  apply (@upload_placeholders pillow pymupdf pptx sample_deck resp Hresp).
Defined.


Lemma slide_deck_errors_are_400_witness :
  (response_status (upload_file sample_deck) = 200 \/
   response_status (upload_file sample_deck) = 400)%Z.
Proof.
  apply (@slide_deck_errors_are_400 pillow pymupdf pptx sample_deck).
  vm_compute. reflexivity.
Defined.

Lemma slide_deck_first_usable_picture_witness :
  exists first second,
    pptx_images (file_content sample_deck) = Ret [first; second] /\
    placeholder first = Some true /\ placeholder second = None.
Proof.
  pose proof (@slide_deck_first_usable_picture pillow pptx
                (file_content sample_deck) [[]; Sample.slide_of x05]) as Hdeck.
  do 2 eexists. split.
  - rewrite Hdeck.
    + cbn [length seq combine List.map fst snd]. reflexivity.
    + reflexivity.
    + reflexivity.
    + repeat constructor; eexists; reflexivity.
  - split; vm_compute; reflexivity.
Defined.
Lemma pdf_page_failure_witness :
  exists e,
    @upload_file pillow
      {| pdf_page := byte; fitz_open := fun b => Ret b;
         pixmap_png := fun p => match p with
                                | x00 => Raise (Exception (lit "cannot render"))
                                | _ => Ret [p]
                                end |}
      pptx
      {| file_filename := Some (lit "scan.pdf"); file_content := [x10; x00] |}
    = Raise e.
Proof.
  apply (@pdf_page_failure pillow
           {| pdf_page := byte; fitz_open := fun b => Ret b;
              pixmap_png := fun p => match p with
                                     | x00 => Raise (Exception (lit "cannot render"))
                                     | _ => Ret [p]
                                     end |}
           pptx
           {| file_filename := Some (lit "scan.pdf"); file_content := [x10; x00] |}
           [x10; x00] x00).
  - vm_compute. reflexivity.
  - reflexivity.
  - right. left. reflexivity.
  - intros (png & d & mt & Hpng & _). discriminate Hpng.
Defined.
End UploadWitnesses.

(** ** The normaliser at its edges *)

(** The longer side [M], scaled to [S] as [int(M * (S / M))], comes out
    as [S] or one less: the two roundings cost less than one pixel. *)
Lemma scaled_longer_side M S :
  (0 < S < M)%Z -> (M < 2147483648)%Z ->
  (S - 1 <= int_of_float (fl (inject_Z M * fl (inject_Z S / inject_Z M))))%Z.
Proof.
  intros HS HM.
  assert (HMq : 0 < inject_Z M) by (change 0 with (inject_Z 0); rewrite <- Zlt_Qlt; lia).
  assert (HSq : 1 <= inject_Z S) by (change 1 with (inject_Z 1); rewrite <- Zle_Qle; lia).
  assert (HSb : inject_Z S <= 2147483648) by
    (change 2147483648 with (inject_Z 2147483648); rewrite <- Zle_Qle; lia).
  set (r0 := inject_Z S / inject_Z M).
  assert (Hr0 : inject_Z M * r0 == inject_Z S) by (unfold r0; field; lra).
  assert (Hr0pos : 0 <= r0) by (apply Qle_shift_div_l; lra).
  destruct (fl_bounds Hr0pos) as [Hrl _]. set (r := fl r0) in *.
  assert (Hrpos : 0 <= r) by (unfold unit_roundoff in *; nra).
  assert (Hxpos : 0 <= inject_Z M * r) by (apply Qmult_le_0_compat; lra).
  destruct (fl_bounds Hxpos) as [Hpl _]. set (p := fl (inject_Z M * r)) in *.
  assert (Hx : inject_Z S * (1 - unit_roundoff) <= inject_Z M * r).
  { rewrite <- Hr0. unfold unit_roundoff in *. nra. }
  assert (Hp : inject_Z S - 1 <= p) by (unfold unit_roundoff in *; nra).
  unfold int_of_float.
  assert (E : Qle_bool 0 p = true) by (apply Qle_bool_iff; lra).
  rewrite E. replace (S - 1)%Z with (Qfloor (inject_Z (S - 1))) by apply Qfloor_Z.
  apply Qfloor_resp_le. unfold Z.sub. rewrite inject_Z_plus.
  change (inject_Z (- (1))) with (- (1)). lra.
Qed.

(** A side that scales to half a pixel or less is rounded away. *)
Lemma scaled_side_zero s M S :
  (0 <= s)%Z -> (0 < S < M)%Z -> (2 * s * S <= M)%Z ->
  int_of_float (fl (inject_Z s * fl (inject_Z S / inject_Z M))) = 0%Z.
Proof.
  intros Hs HS Hthin.
  assert (HMq : 0 < inject_Z M) by (change 0 with (inject_Z 0); rewrite <- Zlt_Qlt; lia).
  assert (HSq : 0 < inject_Z S) by (change 0 with (inject_Z 0); rewrite <- Zlt_Qlt; lia).
  assert (Hsq : 0 <= inject_Z s) by (change 0 with (inject_Z 0); rewrite <- Zle_Qle; lia).
  assert (Hb : 2 * (inject_Z s * inject_Z S) <= inject_Z M).
  { change 2 with (inject_Z 2). rewrite <- !inject_Z_mult, <- Zle_Qle. lia. }
  set (r0 := inject_Z S / inject_Z M).
  assert (Hr0 : r0 * inject_Z M == inject_Z S) by (unfold r0; field; lra).
  assert (Hr0pos : 0 <= r0) by (apply Qle_shift_div_l; lra).
  destruct (fl_bounds Hr0pos) as [Hrl Hru]. set (r := fl r0) in *.
  assert (Hrpos : 0 <= r) by (unfold unit_roundoff in *; nra).
  assert (Hxpos : 0 <= inject_Z s * r) by (apply Qmult_le_0_compat; assumption).
  destruct (fl_bounds Hxpos) as [Hpl Hpu]. set (p := fl (inject_Z s * r)) in *.
  set (t := inject_Z s * r0).
  assert (Ht0 : 0 <= t) by (apply Qmult_le_0_compat; assumption).
  assert (Hthalf : t <= 1 # 2).
  { assert (Ht : t * inject_Z M == inject_Z s * inject_Z S)
      by (unfold t; rewrite <- Hr0; ring).
    apply Qmult_lt_0_le_reg_r with (z := inject_Z M); [assumption|]. lra. }
  assert (Hwr : inject_Z s * r <= t * (1 + unit_roundoff)) by (unfold t; nra).
  assert (Hp0 : 0 <= p) by (unfold unit_roundoff in *; nra).
  assert (Hp1 : p < 1) by (unfold unit_roundoff in *; nra).
  assert (0 <= int_of_float p <= 0)%Z.
  { apply int_of_float_lt; [assumption|]. change (inject_Z 0) with 0. lra. }
  lia.
Qed.

Section NormalizerEdges.
Context `{Pillow}.

(** X7: a picture whose longer side exceeds the maximum is scaled so
    that its longer side is the maximum or one pixel less: [int]
    truncates a product that rounding may leave just below the
    maximum. *)
Theorem downscaled_longer_side (img : pil_image raster) (max_side : Z) out :
  (0 <= fst (size img) < 2147483648)%Z ->
  (0 <= snd (size img) < 2147483648)%Z ->
  (0 < max_side < Z.max (fst (size img)) (snd (size img)))%Z ->
  prepare_image img max_side = Ret out ->
  (max_side - 1 <= Z.max (fst (size out)) (snd (size out)) <= max_side)%Z.
Proof.
  intros Hw Hh HS.
  destruct (prepare_image_unfold img max_side) as (img' & Hsize & ->).
  set (longer := Z.max (fst (size img)) (snd (size img))) in *.
  destruct (Z.gtb_spec longer max_side) as [Hgt|Hle]; [|lia]. cbv zeta.
  destruct (@scaled_side (fst (size img)) longer max_side) as [Hw1 _];
    try (unfold longer; lia).
  destruct (@scaled_side (snd (size img)) longer max_side) as [Hh1 _];
    try (unfold longer; lia).
  pose proof (@scaled_longer_side longer max_side) as Hlong.
  set (ratio := fl (inject_Z max_side / inject_Z longer)) in *.
  set (w' := int_of_float (fl (inject_Z (fst (size img)) * ratio))) in *.
  set (h' := int_of_float (fl (inject_Z (snd (size img)) * ratio))) in *.
  assert (Hone : (max_side - 1 <= w' \/ max_side - 1 <= h')%Z).
  { destruct (Z.max_spec (fst (size img)) (snd (size img))) as [[_ E]|[_ E]];
      fold longer in E.
    - right. unfold h'. rewrite <- E. apply Hlong; unfold longer; lia.
    - left. unfold w'. rewrite <- E. apply Hlong; unfold longer; lia. }
  unfold resize. cbv beta iota.
  destruct ((w' <? 1)%Z || (h' <? 1)%Z); [discriminate|].
  intros [= <-]. simpl. lia.
Qed.

(** X8: a picture so thin that its shorter side scales to half a pixel
    or less is not normalised: the target size has a zero, Pillow
    refuses it, and [compress_image] raises. *)
Theorem thin_picture_refused (image_bytes : bytes) (img : pil_image raster)
  (max_side : Z) :
  Image_open image_bytes = Ret img ->
  (0 <= Z.min (fst (size img)) (snd (size img)))%Z ->
  (0 < max_side < Z.max (fst (size img)) (snd (size img)))%Z ->
  (2 * Z.min (fst (size img)) (snd (size img)) * max_side
   <= Z.max (fst (size img)) (snd (size img)))%Z ->
  compress_image image_bytes max_side
  = Raise (Exception (lit "height and width must be > 0")).
Proof.
  intros Hopen Hmin HS Hthin. unfold compress_image, bind. rewrite Hopen.
  destruct (prepare_image_unfold img max_side) as (img' & Hsize & ->).
  set (longer := Z.max (fst (size img)) (snd (size img))) in *.
  destruct (Z.gtb_spec longer max_side) as [Hgt|Hle]; [|lia]. cbv zeta.
  set (ratio := fl (inject_Z max_side / inject_Z longer)).
  assert (Hzero : (int_of_float (fl (inject_Z (fst (size img)) * ratio)) = 0
                   \/ int_of_float (fl (inject_Z (snd (size img)) * ratio)) = 0)%Z).
  { destruct (Z.min_spec (fst (size img)) (snd (size img))) as [[_ E]|[_ E]];
      rewrite E in Hmin, Hthin; [left | right];
      apply scaled_side_zero; lia. }
  unfold resize. cbv beta iota.
  destruct Hzero as [-> | ->]; cbn [Z.ltb Z.compare orb]; [reflexivity|].
  now rewrite orb_true_r.
Qed.

(** X9: the picture that is handed to the JPEG encoder is never in one
    of the modes [RGBA], [P] and [LA]: those are converted to [RGB], and
    every other mode is left as it is. *)
Theorem prepared_mode (img : pil_image raster) (max_side : Z) out :
  prepare_image img max_side = Ret out ->
  mode out = (if mem_str (mode img) converted_modes then lit "RGB" else mode img) /\
  mem_str (mode out) converted_modes = false.
Proof.
  unfold prepare_image. fold converted_modes.
  set (c := if mem_str (mode img) converted_modes then _ else img).
  assert (Hmode : mode c = if mem_str (mode img) converted_modes
                           then lit "RGB" else mode img)
    by (unfold c; destruct (mem_str (mode img) converted_modes); reflexivity).
  assert (Hout : mode out = mode c -> 
            mode out = (if mem_str (mode img) converted_modes
                        then lit "RGB" else mode img) /\
            mem_str (mode out) converted_modes = false).
  { intros ->. split; [exact Hmode|]. rewrite Hmode.
    destruct (mem_str (mode img) converted_modes) eqn:E; [reflexivity | exact E]. }
  destruct (size c) as [w h].
  destruct (Z.max w h >? max_side)%Z.
  - unfold resize. destruct (_ || _); [discriminate|]. intros [= <-]. now apply Hout.
  - intros [= <-]. now apply Hout.
Qed.
End NormalizerEdges.

Lemma downscaled_longer_side_witness :
  exists out,
    @prepare_image Sample.pillow (Image (lit "RGBA") (3200, 300)%Z tt) 1400 = Ret out /\
    (1399 <= Z.max (fst (size out)) (snd (size out)) <= 1400)%Z.
Proof.
  assert (Hrun : exists out,
             @prepare_image Sample.pillow (Image (lit "RGBA") (3200, 300)%Z tt) 1400
             = Ret out) by (eexists; vm_compute; reflexivity).
  destruct Hrun as (out & Hout). exists out. split; [exact Hout|].
  apply (@downscaled_longer_side Sample.pillow
           (Image (lit "RGBA") (3200, 300)%Z tt) 1400 out); simpl; try lia.
  exact Hout.
Defined.

Lemma thin_picture_refused_witness :
  @compress_image Sample.pillow [x20] 5
  = Raise (Exception (lit "height and width must be > 0")).
Proof.
  apply (@thin_picture_refused Sample.pillow [x20]
           (Image (lit "RGBA") (3200, 300)%Z tt) 5).
  - reflexivity.
  - simpl. lia.
  - simpl. lia.
  - simpl. lia.
Defined.

Lemma prepared_mode_witness :
  exists out,
    @prepare_image Sample.pillow (Image (lit "RGBA") (3200, 300)%Z tt) 1400 = Ret out /\
    mode out = lit "RGB".
Proof.
  assert (Hrun : exists out,
             @prepare_image Sample.pillow (Image (lit "RGBA") (3200, 300)%Z tt) 1400
             = Ret out) by (eexists; vm_compute; reflexivity).
  destruct Hrun as (out & Hout). exists out. split; [exact Hout|].
  apply (@prepared_mode Sample.pillow _ _ _ Hout).
Defined.

(** ** Base64 text *)

Lemma b64_char_inj a b :
  (a < 64)%N -> (b < 64)%N -> b64_char a = b64_char b -> a = b.
Proof.
  unfold b64_char. intros Ha Hb.
  destruct (N.ltb_spec a 26); destruct (N.ltb_spec b 26); try lia;
    destruct (N.ltb_spec a 52); destruct (N.ltb_spec b 52); try lia;
    destruct (N.ltb_spec a 62); destruct (N.ltb_spec b 62); try lia;
    destruct (N.eqb_spec a 62); destruct (N.eqb_spec b 62); lia.
Qed.

Lemma b64_char_symbol a : b64_symbol (b64_char a) = true /\ b64_char a <> 61%N.
Proof.
  unfold b64_char, b64_symbol.
  destruct (N.ltb_spec a 26); [|destruct (N.ltb_spec a 52);
    [|destruct (N.ltb_spec a 62); [|destruct (N.eqb_spec a 62)]]];
    (split; [|lia]).
  - replace ((65 <=? 65 + a) && (65 + a <=? 90))%N with true; [reflexivity|].
    symmetry. apply andb_true_iff. split; apply N.leb_le; lia.
  - replace ((97 <=? 97 + (a - 26)) && (97 + (a - 26) <=? 122))%N with true;
      [now rewrite orb_true_r|].
    symmetry. apply andb_true_iff. split; apply N.leb_le; lia.
  - replace ((48 <=? 48 + (a - 52)) && (48 + (a - 52) <=? 57))%N with true;
      [now rewrite !orb_true_r|].
    symmetry. apply andb_true_iff. split; apply N.leb_le; lia.
  - reflexivity.
  - reflexivity.
Qed.

Lemma byte_value x : (Byte.to_N x < 256)%N.
Proof. pose proof (Byte.to_N_bounded x). lia. Qed.

Lemma byte_eq x y : Byte.to_N x = Byte.to_N y -> x = y.
Proof.
  intros E. apply (f_equal Byte.of_N) in E. rewrite !Byte.of_to_N in E. congruence.
Qed.

(** Lists taken three elements at a time. *)
Lemma list_ind3 {A} (P : list A -> Prop) :
  P [] -> (forall x, P [x]) -> (forall x y, P [x; y]) ->
  (forall x y z l, P l -> P (x :: y :: z :: l)) ->
  forall l, P l.
Proof.
  intros H0 H1 H2 H3.
  assert (Hall : forall l, P l /\ (forall x, P (x :: l)) /\ (forall x y, P (x :: y :: l))).
  { induction l as [|a l (IH0 & IH1 & IH2)].
    - auto.
    - split; [apply IH1|]. split; [intros x; apply IH2|]. intros x y. now apply H3. }
  intros l. apply Hall.
Qed.

Lemma b64encode_triple x y z rest :
  b64encode (x :: y :: z :: rest) =
  let n := (Byte.to_N x * 65536 + Byte.to_N y * 256 + Byte.to_N z)%N in
  b64_char (n / 262144) :: b64_char ((n / 4096) mod 64)
    :: b64_char ((n / 64) mod 64) :: b64_char (n mod 64) :: b64encode rest.
Proof. reflexivity. Qed.

(** X10: the text of [base64.b64encode] is made of the 64 digits and
    the padding sign, and four characters stand for every three bytes or
    fewer. *)
Theorem b64encode_shape (b : bytes) :
  forallb b64_symbol (b64encode b) = true /\
  length (b64encode b) = (4 * ((length b + 2) / 3))%nat.
Proof.
  induction b as [|x|x y|x y z rest [IHs IHl]] using list_ind3.
  - split; reflexivity.
  - cbn [b64encode forallb length]. split; [|reflexivity].
    now rewrite !(proj1 (b64_char_symbol _)).
  - cbn [b64encode forallb length]. split; [|reflexivity].
    now rewrite !(proj1 (b64_char_symbol _)).
  - rewrite b64encode_triple. cbv zeta. cbn [forallb length]. split.
    + now rewrite !(proj1 (b64_char_symbol _)), IHs.
    + rewrite IHl. replace (S (S (S (length rest))) + 2)%nat
        with (1 * 3 + (length rest + 2))%nat by lia.
      rewrite Nat.div_add_l by discriminate. lia.
Qed.

Lemma sextets_of n :
  (n < 16777216)%N ->
  exists s1 s2 s3 s4,
    (n / 262144 = s1 /\ (n / 4096) mod 64 = s2 /\ (n / 64) mod 64 = s3 /\
     n mod 64 = s4 /\ n = 262144 * s1 + 4096 * s2 + 64 * s3 + s4 /\
     s1 < 64 /\ s2 < 64 /\ s3 < 64 /\ s4 < 64)%N.
Proof.
  intros Hn.
  destruct (base64_digits n)
    as (q1 & q2 & q3 & r1 & r2 & r3 & E1 & E2 & E3 & E4 & E5 & E6 &
        Hc1 & Hq1 & Hq2 & Hr1 & Hr2 & Hr3).
  exists q3, r3, r2, r1. repeat split; try assumption; lia.
Qed.

(** The four digits of a group of three bytes determine the group. *)
Lemma group_inj n m :
  (n < 16777216)%N -> (m < 16777216)%N ->
  b64_char (n / 262144) = b64_char (m / 262144) ->
  b64_char ((n / 4096) mod 64) = b64_char ((m / 4096) mod 64) ->
  ((n / 64) mod 64 = (m / 64) mod 64)%N ->
  (n mod 64 = m mod 64)%N ->
  n = m.
Proof.
  intros Hn Hm.
  destruct (sextets_of Hn) as (a1 & a2 & a3 & a4 & -> & -> & -> & -> & Ha & ?).
  destruct (sextets_of Hm) as (b1 & b2 & b3 & b4 & -> & -> & -> & -> & Hb & ?).
  intros E1 E2 E3 E4. apply b64_char_inj in E1, E2; lia.
Qed.

Ltac pad_clash :=
  match goal with
  | H : 61%N = b64_char _ |- _ => symmetry in H; destruct (proj2 (b64_char_symbol _) H)
  | H : b64_char _ = 61%N |- _ => destruct (proj2 (b64_char_symbol _) H)
  end.

(** X11: [base64.b64encode] loses nothing: two byte strings with the
    same base64 text are the same byte string. *)
Theorem b64encode_injective (a b : bytes) :
  b64encode a = b64encode b -> a = b.
Proof.
  revert b. induction a as [|x|x y|x y z rest IH] using list_ind3;
    intros [|x' [|y' [|z' rest']]] E;
    try rewrite !b64encode_triple in E; cbv zeta in E; cbn [b64encode] in E;
    try discriminate E; try reflexivity;
    injection E; clear E; intros; try pad_clash.
  - pose proof (byte_value x). pose proof (byte_value x').
    set (n := (Byte.to_N x * 65536)%N) in *.
    set (m := (Byte.to_N x' * 65536)%N) in *.
    assert (Hn : (n < 16777216)%N) by (unfold n; lia).
    assert (Hm : (m < 16777216)%N) by (unfold m; lia).
    assert (Hlow : forall k, (k < 256)%N ->
              ((k * 65536 / 64) mod 64 = 0 /\ (k * 65536) mod 64 = 0)%N).
    { intros k Hk.
      destruct (@sextets_of (k * 65536)%N) as (a1 & a2 & a3 & a4 & _ & _ & -> & -> & ?);
        lia. }
    assert (n = m).
    { apply group_inj; try assumption; unfold n, m.
      - destruct (Hlow _ H1) as [-> _]. destruct (Hlow _ H2) as [-> _]. reflexivity.
      - destruct (Hlow _ H1) as [_ ->]. destruct (Hlow _ H2) as [_ ->]. reflexivity. }
    f_equal. apply byte_eq. unfold n, m in *. lia.
  - pose proof (byte_value x). pose proof (byte_value x').
    pose proof (byte_value y). pose proof (byte_value y').
    set (n := (Byte.to_N x * 65536 + Byte.to_N y * 256)%N) in *.
    set (m := (Byte.to_N x' * 65536 + Byte.to_N y' * 256)%N) in *.
    assert (Hn : (n < 16777216)%N) by (unfold n; lia).
    assert (Hm : (m < 16777216)%N) by (unfold m; lia).
    destruct (sextets_of Hn) as (a1 & a2 & a3 & a4 & Ea1 & Ea2 & Ea3 & Ea4 & Ha & ?).
    destruct (sextets_of Hm) as (b1 & b2 & b3 & b4 & Eb1 & Eb2 & Eb3 & Eb4 & Hb & ?).
    rewrite Ea1, Eb1, Ea2, Eb2, Ea3, Eb3 in *.
    repeat match goal with
           | E : b64_char _ = b64_char _ |- _ => apply b64_char_inj in E; [|lia|lia]
           end.
    assert (Byte.to_N x = Byte.to_N x' /\ Byte.to_N y = Byte.to_N y') as [Ex Ey]
      by (unfold n, m in *; lia).
    apply byte_eq in Ex, Ey. now subst.
  - pose proof (byte_value x). pose proof (byte_value x').
    pose proof (byte_value y). pose proof (byte_value y').
    pose proof (byte_value z). pose proof (byte_value z').
    set (n := (Byte.to_N x * 65536 + Byte.to_N y * 256 + Byte.to_N z)%N) in *.
    set (m := (Byte.to_N x' * 65536 + Byte.to_N y' * 256 + Byte.to_N z')%N) in *.
    assert (Hn : (n < 16777216)%N) by (unfold n; lia).
    assert (Hm : (m < 16777216)%N) by (unfold m; lia).
    destruct (sextets_of Hn) as (a1 & a2 & a3 & a4 & Ea1 & Ea2 & Ea3 & Ea4 & Ha & ?).
    destruct (sextets_of Hm) as (b1 & b2 & b3 & b4 & Eb1 & Eb2 & Eb3 & Eb4 & Hb & ?).
    rewrite Ea1, Eb1, Ea2, Eb2, Ea3, Eb3, Ea4, Eb4 in *.
    repeat match goal with
           | E : b64_char _ = b64_char _ |- _ => apply b64_char_inj in E; [|lia|lia]
           end.
    assert (Byte.to_N x = Byte.to_N x' /\ Byte.to_N y = Byte.to_N y'
            /\ Byte.to_N z = Byte.to_N z') as (Ex & Ey & Ez)
      by (unfold n, m in *; lia).
    apply byte_eq in Ex, Ey, Ez. subst. f_equal. f_equal. f_equal.
    apply IH. assumption.
Qed.

Lemma b64encode_injective_witness :
  b64encode [x4d; x61] = lit "TWE=" /\ [x4d; x61] = [x4d; x61].
Proof.
  split; [reflexivity|].
  apply (@b64encode_injective [x4d; x61] [x4d; x61]). reflexivity.
Defined.

(** ** The extraction route *)

Lemma first_text_skips pre rest :
  Forall other_block pre -> first_text (pre ++ rest) = first_text rest.
Proof.
  induction 1 as [|b pre Hb _ IH]; simpl; [reflexivity|].
  destruct (str_eqb_spec (block_type b) (lit "text")); [contradiction | assumption].
Qed.

Lemma parse_reply_total content : exists doc, parse_reply content = Ret doc.
Proof.
  unfold parse_reply. destruct (json_loads _); [eauto|].
  destruct (search_braces _); [|eauto]. destruct (json_loads _); eauto.
Qed.

Section ExtractionEdges.
Context `{ModelProvider}.


End ExtractionEdges.

(** X13: a reply without a text block is read as the text [{}]: the
    route returns the empty object, which has no key [has_charts], and
    not the no-charts document. *)
Theorem reply_without_text_block (content : list content_block) :
  Forall other_block content ->
  parse_reply content = Ret (PyDict []) /\ PyDict [] <> no_charts.
Proof.
  intros Hc. split; [|discriminate].
  assert (Hfirst : first_text content = lit "{}").
  { rewrite <- (app_nil_r content). now rewrite first_text_skips. }
  unfold parse_reply. rewrite Hfirst. vm_compute. reflexivity.
Qed.

(** X14: the reply is read from its first text block alone: the blocks
    before it that are not text are passed over, and what comes after it
    is never looked at. *)
Theorem first_text_block_decides (pre rest : list content_block) (b : content_block) :
  Forall other_block pre ->
  block_type b = lit "text" ->
  parse_reply (pre ++ b :: rest) = parse_reply (text_reply (block_text b)).
Proof.
  intros Hpre Hb. unfold parse_reply.
  rewrite first_text_skips by assumption.
  unfold text_reply, first_text. cbn [block_type block_text].
  now rewrite Hb, str_eqb_refl.
Qed.

Lemma reply_without_text_block_witness :
  parse_reply [{| block_type := lit "thinking"; block_text := lit "[1]" |}]
  = Ret (PyDict []).
Proof.
  apply (@reply_without_text_block
           [{| block_type := lit "thinking"; block_text := lit "[1]" |}]).
  repeat constructor. discriminate.
Defined.

Lemma first_text_block_decides_witness :
  parse_reply thinking_reply = Ret (PyList [PyInt 1]).
Proof.
  change thinking_reply
    with ([{| block_type := lit "thinking"; block_text := lit "{oops" |}]
            ++ {| block_type := lit "text"; block_text := lit "[1]" |}
            :: [{| block_type := lit "text"; block_text := lit "[2]" |}]).
  rewrite first_text_block_decides.
  - vm_compute. reflexivity.
  - repeat constructor. discriminate.
  - reflexivity.
Defined.

(** ** The export route *)

Lemma for_each_raises {A B} (f : A -> res B) xs x :
  In x xs -> (exists e, f x = Raise e) -> exists e, for_each f xs = Raise e.
Proof.
  intros Hx Hf. induction xs as [|y xs IH]; [contradiction|]. simpl.
  destruct (f y) as [b|e] eqn:E; [|eauto].
  destruct Hx as [->|Hx].
  - destruct Hf as (e & He). congruence.
  - destruct (IH Hx) as (e & ->). eauto.
Qed.

Lemma for_each_all {A B} (f : A -> res B) (g : A -> B) xs :
  Forall (fun x => f x = Ret (g x)) xs -> for_each f xs = Ret (List.map g xs).
Proof.
  induction 1 as [|x xs Hx _ IH]; simpl; [reflexivity|]. now rewrite Hx, IH.
Qed.

Lemma utf8_char_scalar c b : utf8_char c = Some b -> scalar c = true.
Proof.
  unfold utf8_char, scalar, is_surrogate.
  destruct (N.ltb_spec c 128).
  { intros _. apply andb_true_iff. split; [apply N.ltb_lt; lia|].
    apply negb_true_iff, andb_false_iff. left. apply N.leb_gt. lia. }
  destruct (N.ltb_spec c 2048).
  { intros _. apply andb_true_iff. split; [apply N.ltb_lt; lia|].
    apply negb_true_iff, andb_false_iff. left. apply N.leb_gt. lia. }
  destruct ((55296 <=? c) && (c <=? 57343))%N eqn:Es; [discriminate|].
  destruct (N.ltb_spec c 65536).
  { intros _. apply andb_true_iff. split; [apply N.ltb_lt; lia | reflexivity]. }
  destruct (N.ltb_spec c 1114112); [reflexivity | discriminate].
Qed.

Lemma utf8_encode_scalar s b : utf8_encode s = Some b -> forallb scalar s = true.
Proof.
  revert b. induction s as [|c s IH]; intros b; simpl; [reflexivity|].
  destruct (utf8_char c) as [bc|] eqn:Ec; [|discriminate].
  destruct (utf8_encode s) as [bs|]; [|discriminate]. intros _.
  now rewrite (utf8_char_scalar _ Ec), (IH bs).
Qed.

(** X16: [str.encode()] and UTF-8 decoding are inverse to each other on
    what the export encodes: the bytes decode back to the text, and the
    encoding fails exactly when the text holds a surrogate. *)
Theorem str_encode_decode (s : pystr) :
  (forall b, str_encode s = Ret b -> utf8_decode b = Some s) /\
  ((exists b, str_encode s = Ret b) <-> forallb scalar s = true).
Proof.
  unfold str_encode. split.
  - intros b. destruct (utf8_encode s) as [b'|] eqn:E; [|discriminate].
    intros [= <-]. pose proof (utf8_encode_scalar _ E) as Hs.
    destruct (utf8_encode_decode _ Hs) as (b2 & Hb2 & Hd). congruence.
  - split.
    + intros (b & Hb). destruct (utf8_encode s) as [b'|] eqn:E; [|discriminate].
      now apply utf8_encode_scalar in E.
    + intros Hs. destruct (utf8_encode_decode _ Hs) as (b & -> & _). eauto.
Qed.

Lemma str_encode_decode_witness :
  exists b, str_encode (lit "Caf" ++ [233%N]) = Ret b /\
            utf8_decode b = Some (lit "Caf" ++ [233%N]).
Proof.
  destruct (str_encode_decode (lit "Caf" ++ [233%N])) as [Hdec [_ Hex]].
  destruct (Hex eq_refl) as (b & Hb). exists b. split; [exact Hb|]. exact (Hdec b Hb).
Defined.

Section ExportEdges.
Context `{PyRuntime} `{Openpyxl}.

(** X17: a download is named after the request: the file name with
    every character that is no word character, hyphen or underscore
    replaced, then a dot and the format in lower case, between quotes
    after [attachment; filename=]. *)
Theorem export_attachment (request : ExportRequest) (response : FileResponse) :
  export_data request = Ret response ->
  recognised (lower (format request)) = true /\
  content_disposition response
  = attachment (safe_filename (filename request)) (46%N :: lower (format request)).
Proof.
  unfold export_data, recognised. destruct (charts request); [discriminate|].
  destruct (str_eqb_spec (lower (format request)) (lit "json")) as [->|_].
  { destruct (str_encode _); [|discriminate]. intros [= <-]. split; reflexivity. }
  destruct (str_eqb_spec (lower (format request)) (lit "csv")) as [->|_].
  { destruct (csv_text _); [|discriminate].
    destruct (str_encode _); [|discriminate]. intros [= <-]. split; reflexivity. }
  destruct (str_eqb_spec (lower (format request)) (lit "xlsx")) as [->|_];
    [|discriminate].
  destruct (xlsx_sheets _ _ _); [|discriminate].
  destruct (wb_save _); [|discriminate]. intros [= <-]. split; reflexivity.
Qed.

(** X18: the sanitised file name is never empty: the empty name
    becomes [chart_data], and a name that is not empty keeps its length,
    holds only word characters, hyphens and underscores afterwards, and
    is left alone when it is sanitised again. *)
Theorem safe_filename_chars (name : pystr) :
  safe_filename name <> [] /\
  (name = [] -> safe_filename name = lit "chart_data") /\
  (name <> [] ->
   length (safe_filename name) = length name /\
   forallb filename_char (safe_filename name) = true /\
   safe_filename (safe_filename name) = safe_filename name).
Proof.
  unfold safe_filename.
  set (keep := fun c : N => if is_word_char c || (c =? 45)%N || (c =? 95)%N
                            then c else 95%N).
  assert (Hkeep : forall c, filename_char (keep c) = true /\ keep (keep c) = keep c).
  { intros c. unfold keep, filename_char.
    destruct (is_word_char c || (c =? 45)%N || (c =? 95)%N) eqn:E.
    - now rewrite E.
    - cbn [N.eqb Pos.eqb]. rewrite !orb_true_r. split; reflexivity. }
  destruct name as [|c name]; cbn [List.map].
  - split; [discriminate|]. split; [reflexivity | congruence].
  - split; [discriminate|]. split; [discriminate|].
    intros _. split; [cbn [length]; now rewrite length_map|]. split.
    + change (keep c :: List.map keep name) with (List.map keep (c :: name)).
      apply forallb_forall. intros x Hx. apply in_map_iff in Hx.
      destruct Hx as (y & <- & _). apply Hkeep.
    + cbn [List.map]. rewrite (proj2 (Hkeep c)), map_map. f_equal.
      apply map_ext. intros x. apply Hkeep.
Qed.
End ExportEdges.

Lemma export_attachment_witness :
  exists response,
    @export_data Sample.runtime Sample.openpyxl
      {| charts := [Sample.sales]; format := lit "CSV"; filename := lit "q1 2024" |}
    = Ret response /\
    content_disposition response = lit "attachment; filename=" ++ 34%N :: lit "q1_2024.csv" ++ [34%N].
Proof.
  assert (Hrun : exists response,
             @export_data Sample.runtime Sample.openpyxl
               {| charts := [Sample.sales]; format := lit "CSV";
                  filename := lit "q1 2024" |}
             = Ret response) by (eexists; vm_compute; reflexivity).
  destruct Hrun as (response & Hr). exists response. split; [exact Hr|].
  destruct (@export_attachment Sample.runtime Sample.openpyxl _ response Hr) as [_ ->].
  reflexivity.
Defined.

Lemma safe_filename_chars_witness :
  length (@safe_filename Sample.runtime (lit "q1 2024")) = 7%nat /\
  @safe_filename Sample.runtime (@safe_filename Sample.runtime (lit "q1 2024"))
  = @safe_filename Sample.runtime (lit "q1 2024").
Proof.
  destruct (@safe_filename_chars Sample.runtime (lit "q1 2024")) as (_ & _ & Hname).
  destruct Hname as (Hlen & _ & Hidem); [discriminate|].
  split; [exact Hlen | exact Hidem].
Defined.

Section TableEdges.
Context `{PyRuntime}.

Lemma py_or_list l : py_or (PyList l) (PyList []) = PyList l.
Proof. destruct l; reflexivity. Qed.

(** X19: the table of a chart with series: the header is [Category]
    and the series names, and every data point gives its label and, in
    the order of the series, the value that its [values] hold for each;
    a series that [values] lacks, and every series of a point without
    [values], gives the empty string. *)
Theorem table_with_series (c : chart) (names : list pystr) (points : list chart) :
  names <> [] ->
  get c (lit "series") PyNone = PyList (List.map PyStr names) ->
  get c (lit "data") PyNone = PyList (List.map PyDict points) ->
  Forall (fun p => exists d, point_values p = PyDict d) points ->
  chart_table c
  = Ret ((PyStr (lit "Category") :: List.map PyStr names)
           :: List.map (series_row names) points) /\
  Forall (fun p =>
            dict_get p (lit "values") = None ->
            series_row names p
            = get p (lit "label") (PyStr []) :: List.map (fun _ => PyStr []) names)
         points.
Proof.
  intros Hne Hseries Hdata Hvals. split.
  - unfold chart_table. rewrite Hseries, Hdata, !py_or_list.
    assert (Htrue : truthy (PyList (List.map PyStr names)) = true)
      by (destruct names; [congruence | reflexivity]).
    unfold table_header. rewrite Htrue. cbn [py_iter].
    rewrite (@for_each_all _ _ (table_row (PyList (List.map PyStr names)))
               (fun o => match o with PyDict p => series_row names p | _ => [] end)).
    + now rewrite map_map.
    + apply Forall_map. eapply Forall_impl; [|exact Hvals].
      intros p (d & Hd). unfold table_row. rewrite Htrue. cbn [obj_get py_iter].
      fold (point_values p). unfold series_row. rewrite Hd.
      rewrite (@for_each_all _ _ _ (fun s => match s with
                                             | PyStr k => get d k (PyStr [])
                                             | _ => PyStr []
                                             end)).
      * now rewrite map_map.
      * apply Forall_map, Forall_forall. intros s _. reflexivity.
  - apply Forall_forall. intros p _ Hnone. unfold series_row, point_values, get.
    rewrite Hnone. reflexivity.
Qed.

Lemma table_row_rejects series o :
  (forall d, o <> PyDict d) -> exists e, table_row series o = Raise e.
Proof.
  intros Ho. unfold table_row.
  destruct o as [ | | | | | |items];
    try (destruct (truthy series); cbn [obj_get]; eexists; reflexivity).
  now destruct (Ho items).
Qed.

(** A data point that is not a [dict] fails the table of its chart. *)
Lemma chart_table_rejects c points o :
  get c (lit "data") PyNone = PyList points ->
  In o points -> (forall d, o <> PyDict d) ->
  exists e, chart_table c = Raise e.
Proof.
  intros Hdata Hin Ho. unfold chart_table. rewrite Hdata, py_or_list.
  destruct (table_header _ _); [|eauto]. cbn [py_iter].
  destruct (@for_each_raises _ _
              (table_row (py_or (get c (lit "series") PyNone) (PyList [])))
              points o Hin) as (e & ->); [|eauto].
  now apply table_row_rejects.
Qed.

Lemma csv_rows_rejects cs c : forall i,
  In c cs -> (exists e, chart_table c = Raise e) -> exists e, csv_rows i cs = Raise e.
Proof.
  induction cs as [|x cs IH]; intros i Hin Hc; [contradiction|]. simpl.
  unfold csv_block at 1. destruct Hin as [->|Hin].
  - destruct Hc as (e & ->). eauto.
  - destruct (chart_table x); [|eauto].
    destruct (IH (S i) Hin Hc) as (e & ->). eauto.
Qed.

Lemma xlsx_sheets_rejects cs c : forall i existing,
  In c cs -> (exists e, chart_table c = Raise e) ->
  exists e, xlsx_sheets i cs existing = Raise e.
Proof.
  induction cs as [|x cs IH]; intros i existing Hin Hc; [contradiction|]. simpl.
  destruct (xlsx_sheet i x existing) as [ws|e] eqn:E; [|eauto].
  destruct Hin as [->|Hin].
  - exfalso. destruct Hc as (e & He). revert E. unfold xlsx_sheet.
    destruct (chart_title i c); try discriminate.
    destruct (get c (lit "type") _); try discriminate.
    rewrite He. discriminate.
  - destruct (IH (S i) (existing ++ [ws_title ws]) Hin Hc) as (e & ->). eauto.
Qed.
End TableEdges.

Section ExportFailures.
Context `{PyRuntime} `{Openpyxl}.

(** X20: one data point that is not an object fails the whole CSV or
    spreadsheet export, with status 500 and no file, wherever the chart
    stands in the list. *)
Theorem malformed_point_fails_export (request : ExportRequest) (c : chart)
  (points : list pyval) (o : pyval) :
  In c (charts request) ->
  get c (lit "data") PyNone = PyList points ->
  In o points ->
  (forall d, o <> PyDict d) ->
  lower (format request) = lit "csv" \/ lower (format request) = lit "xlsx" ->
  response_status (export_data request) = 500%Z.
Proof.
  intros Hc Hdata Ho Hnd Hfmt.
  pose proof (@chart_table_rejects _ c points o Hdata Ho Hnd) as Hrej.
  unfold export_data. destruct (charts request) as [|c0 cs] eqn:Ecs; [contradiction|].
  rewrite <- Ecs in *. destruct Hfmt as [-> | ->].
  - change (str_eqb (lit "csv") (lit "json")) with false.
    change (str_eqb (lit "csv") (lit "csv")) with true. cbv iota.
    unfold csv_text.
    destruct (@csv_rows_rejects _ (charts request) c 0%nat Hc Hrej) as (e & He).
    rewrite He. pose proof (@csv_rows_no_http _ (charts request) 0%nat) as Hno.
    destruct e; try reflexivity. exfalso. eapply Hno. exact He.
  - change (str_eqb (lit "xlsx") (lit "json")) with false.
    change (str_eqb (lit "xlsx") (lit "csv")) with false.
    change (str_eqb (lit "xlsx") (lit "xlsx")) with true. cbv iota.
    destruct (@xlsx_sheets_rejects _ (charts request) c 0%nat [] Hc Hrej) as (e & He).
    rewrite He. pose proof (@xlsx_sheets_no_http _ (charts request) 0%nat []) as Hno.
    destruct e; try reflexivity. exfalso. eapply Hno. exact He.
Qed.

(** X21: the body of a CSV export is the byte order mark [EF BB BF]
    and then the UTF-8 bytes of the rows, which decode back to the text
    that [csv.writer] wrote. *)
Theorem csv_export_bytes (request : ExportRequest) (response : FileResponse) :
  lower (format request) = lit "csv" ->
  export_data request = Ret response ->
  exists text payload,
    csv_text (charts request) = Ret text /\
    body response = utf8_bom ++ payload /\
    utf8_decode payload = Some text /\
    content_type response = lit "text/csv".
Proof.
  intros Hfmt. unfold export_data. destruct (charts request) as [|c0 cs] eqn:Ecs;
    [discriminate|].
  rewrite <- Ecs. rewrite Hfmt.
  change (str_eqb (lit "csv") (lit "json")) with false.
  change (str_eqb (lit "csv") (lit "csv")) with true. cbv iota.
  destruct (csv_text (charts request)) as [text|]; [|discriminate].
  destruct (str_encode text) as [b|] eqn:Eb; [|discriminate].
  intros [= <-]. exists text, b. cbn [body content_type].
  repeat split. now apply str_encode_decode.
Qed.
End ExportFailures.

Lemma table_with_series_witness :
  @chart_table Sample.runtime survey
  = Ret [[PyStr (lit "Category"); PyStr (lit "Yes"); PyStr (lit "No")];
         [PyStr (lit "Q1"); PyInt 3; PyStr []];
         [PyStr (lit "Q2"); PyStr []; PyStr []]].
Proof.
  destruct (@table_with_series Sample.runtime survey [lit "Yes"; lit "No"]
              [[(lit "label", PyStr (lit "Q1"));
                (lit "values", PyDict [(lit "Yes", PyInt 3)])];
               [(lit "label", PyStr (lit "Q2"))]]) as [Htable _].
  - discriminate.
  - reflexivity.
  - reflexivity.
  - repeat constructor; eexists; reflexivity.
  - rewrite Htable. reflexivity.
Defined.

Lemma malformed_point_fails_export_witness :
  response_status
    (@export_data Sample.runtime Sample.openpyxl
       {| charts := [Sample.sales; broken]; format := lit "CSV";
          filename := lit "chart_data" |}) = 500%Z.
Proof.
  apply (@malformed_point_fails_export Sample.runtime Sample.openpyxl
           {| charts := [Sample.sales; broken]; format := lit "CSV";
              filename := lit "chart_data" |}
           broken
           [PyDict [(lit "label", PyStr (lit "a")); (lit "value", PyInt 1)]; PyInt 7]
           (PyInt 7)).
  - right. left. reflexivity.
  - reflexivity.
  - right. left. reflexivity.
  - discriminate.
  - left. reflexivity.
Defined.

Lemma csv_export_bytes_witness :
  exists response text payload,
    @export_data Sample.runtime Sample.openpyxl
      {| charts := [Sample.sales]; format := lit "csv"; filename := lit "q" |}
    = Ret response /\
    body response = [xef; xbb; xbf] ++ payload /\
    utf8_decode payload = Some text.
Proof.
  assert (Hrun : exists response,
             @export_data Sample.runtime Sample.openpyxl
               {| charts := [Sample.sales]; format := lit "csv"; filename := lit "q" |}
             = Ret response) by (eexists; vm_compute; reflexivity).
  destruct Hrun as (response & Hr). exists response.
  destruct (@csv_export_bytes Sample.runtime Sample.openpyxl
              {| charts := [Sample.sales]; format := lit "csv"; filename := lit "q" |}
              response eq_refl Hr)
    as (text & payload & _ & Hbody & Hdec & _).
  exists text, payload. split; [exact Hr|]. split; assumption.
Defined.

(** ** Sheet names and sheets *)

Lemma sheet_char_legal c : sheet_illegal (sheet_char c) = false.
Proof.
  unfold sheet_char. fold (sheet_illegal c).
  destruct (sheet_illegal c) eqn:E; [reflexivity | exact E].
Qed.

Lemma digit_legal c : is_digit c = true -> sheet_illegal c = false.
Proof.
  intros Hc. apply digit_range in Hc. unfold sheet_illegal.
  repeat (apply orb_false_iff; split); apply N.eqb_neq; lia.
Qed.

Lemma sheet_base_legal name :
  sheet_base name <> [] /\ forallb (fun c => negb (sheet_illegal c)) (sheet_base name) = true.
Proof.
  unfold sheet_base.
  assert (Hall : forallb (fun c => negb (sheet_illegal c))
                   (firstn 28 (List.map sheet_char name)) = true).
  { apply forallb_forall. intros c Hc.
    assert (Hin : In c (List.map sheet_char name))
      by (rewrite <- (firstn_skipn 28 (List.map sheet_char name));
          apply in_or_app; now left).
    clear Hc. rename Hin into Hc. apply in_map_iff in Hc. destruct Hc as (x & <- & _). now rewrite sheet_char_legal. }
  destruct (firstn 28 (List.map sheet_char name)) as [|b bs].
  - split; [discriminate | reflexivity].
  - split; [discriminate | exact Hall].
Qed.

(** X22: [safe_sheet_name] returns the first of the names [base],
    [base_1], [base_2], ... that is not in use, where [base] is the
    title with the illegal characters replaced, cut to 28 characters,
    or [Chart] for an empty title: the name it returns is never in use,
    it is the base itself whenever that is free, and the suffix is at
    most the number of names in use. *)
Theorem safe_sheet_name_fresh (name : pystr) (existing : list pystr) :
  ~ In (safe_sheet_name name existing) existing /\
  (~ In (sheet_base name) existing ->
   safe_sheet_name name existing = sheet_base name) /\
  exists k,
    (k <= length existing)%nat /\
    safe_sheet_name name existing = candidate (sheet_base name) k /\
    (forall i, (i < k)%nat -> In (candidate (sheet_base name) i) existing).
Proof.
  destruct (safe_sheet_name_spec name existing) as (k & Hk & Hle & Hin & Hout).
  split; [exact Hout|]. split; [|eauto].
  intros Hfree. rewrite Hk. destruct k as [|k]; [reflexivity|].
  destruct Hfree. apply (Hin 0%nat). lia.
Qed.

(** X23: a sheet name is never empty and never holds one of the
    characters [\ / * ? : [ ]], whatever the title was; and it has at
    most 31 characters as long as fewer than 100 names are in use. *)
Theorem safe_sheet_name_legal (name : pystr) (existing : list pystr) :
  safe_sheet_name name existing <> [] /\
  forallb (fun c => negb (sheet_illegal c)) (safe_sheet_name name existing) = true /\
  ((length existing < 100)%nat ->
   (length (safe_sheet_name name existing) <= 31)%nat).
Proof.
  destruct (safe_sheet_name_spec name existing) as (k & Hk & _).
  destruct (sheet_base_legal name) as [Hne Hbase].
  split; [|split; [|apply safe_sheet_name_length]].
  - rewrite Hk. unfold candidate, suffixed. destruct k; [exact Hne|].
    destruct (sheet_base name); discriminate.
  - rewrite Hk. unfold candidate, suffixed. destruct k as [|k]; [exact Hbase|].
    rewrite forallb_app, Hbase. cbn [forallb andb sheet_illegal N.eqb Pos.eqb orb negb].
    apply forallb_forall. intros c Hc.
    assert (Hd : Forall (fun c => is_digit c = true) (str_of_Z (Z.of_nat (S k)))).
    { cbn [Z.of_nat str_of_Z]. apply str_of_N_numeral. }
    rewrite Forall_forall in Hd. now rewrite digit_legal by auto.
Qed.

Section Spreadsheet.
Context `{PyRuntime}.

Lemma xlsx_sheets_titles cs : forall i existing sheets,
  xlsx_sheets i cs existing = Ret sheets ->
  length sheets = length cs /\
  forall k ws, nth_error sheets k = Some ws ->
    exists c t,
      nth_error cs k = Some c /\
      chart_title (i + k) c = PyStr t /\
      ws_title ws
      = safe_sheet_name t (existing ++ List.map ws_title (firstn k sheets)).
Proof.
  induction cs as [|c cs IH]; intros i existing sheets; cbn [xlsx_sheets].
  - intros [= <-]. split; [reflexivity|]. intros [|k] ws; discriminate.
  - destruct (xlsx_sheet i c existing) as [w|] eqn:E; [|discriminate].
    destruct (xlsx_sheets (S i) cs (existing ++ [ws_title w])) as [more|] eqn:E';
      [|discriminate].
    intros [= <-]. destruct (IH _ _ _ E') as (Hlen & Hnth).
    split; [cbn [length]; now rewrite Hlen|].
    intros [|k] ws Hk; cbn [nth_error] in Hk.
    + injection Hk as <-. apply xlsx_sheet_title in E. destruct E as (t & Ht & Hw).
      exists c, t. rewrite Nat.add_0_r. cbn [firstn List.map].
      rewrite app_nil_r. auto.
    + destruct (Hnth k ws Hk) as (c' & t & Hc' & Ht & Hw).
      exists c', t. cbn [nth_error firstn List.map].
      replace (i + S k)%nat with (S i + k)%nat by lia.
      rewrite <- app_assoc in Hw. auto.
Qed.

End Spreadsheet.

Lemma safe_sheet_name_fresh_witness :
  safe_sheet_name (lit "Q1") [lit "Q1_1"] = lit "Q1".
Proof.
  apply (proj1 (proj2 (safe_sheet_name_fresh (lit "Q1") [lit "Q1_1"]))).
  cbn. intuition discriminate.
Defined.

Lemma safe_sheet_name_legal_witness :
  (length (safe_sheet_name (lit "a/b") [lit "a_b"]) <= 31)%nat.
Proof.
  apply (safe_sheet_name_legal (lit "a/b") [lit "a_b"]). simpl. lia.
Defined.


(** ** The allowed origins *)

Lemma split_on_pieces sep s : Forall (fun p => ~ In sep p) (split_on sep s).
Proof.
  induction s as [|c s IH]; simpl; [repeat constructor; auto|].
  unfold char_eqb. destruct (N.eqb_spec c sep) as [->|Hne].
  - constructor; [auto | assumption].
  - destruct (split_on sep s) as [|p ps]; [repeat constructor; simpl; tauto|].
    inversion IH; subst. constructor; [simpl; tauto | assumption].
Qed.

Lemma lstrip_idem s : lstrip (lstrip s) = lstrip s.
Proof.
  destruct (lstrip s) as [|c r] eqn:E; [reflexivity|].
  apply lstrip_head in E. now apply lstrip_solid.
Qed.

Lemma rstrip_idem s : rstrip (rstrip s) = rstrip s.
Proof. unfold rstrip. now rewrite rev_involutive, lstrip_idem. Qed.

Lemma strip_idem s : strip (strip s) = strip s.
Proof.
  unfold strip. set (m := rstrip (lstrip s)).
  assert (Hm : lstrip m = m).
  { destruct (rstrip_split (lstrip s)) as (ws & Hs & _). fold m in Hs.
    destruct m as [|c r]; [reflexivity|].
    apply lstrip_solid. apply (@lstrip_head s c (r ++ ws)). exact Hs. }
  rewrite Hm. unfold m. apply rstrip_idem.
Qed.

Lemma strip_within s c : In c (strip s) -> In c s.
Proof.
  unfold strip. intros Hc.
  destruct (lstrip_split s) as (ws & Hs & _).
  destruct (rstrip_split (lstrip s)) as (ws' & Hl & _).
  rewrite Hs, Hl. apply in_or_app. right. apply in_or_app. now left.
Qed.

Lemma strip_spaces s : Forall (fun c => isspace c = true) s -> strip s = [].
Proof.
  intros Hs. unfold strip.
  rewrite <- (app_nil_r s), lstrip_spaces by assumption. reflexivity.
Qed.

(** X25: the list of allowed origins starts with the two local origins
    whatever the environment says; every origin after them is a piece
    of the environment variable with the white space around it taken
    off: it is not empty, has no white space at either end and holds no
    comma.  Without the variable, or with one that holds only commas
    and white space, the list is the two local origins. *)
Theorem allowed_origins_clean (env : option pystr) :
  firstn 2 (allowed_origins env) = local_origins /\
  Forall (fun o => o <> [] /\ strip o = o /\ ~ In 44%N o)
         (skipn 2 (allowed_origins env)) /\
  (match env with
   | Some v => Forall (fun c => c = 44%N \/ isspace c = true) v
   | None => True
   end -> allowed_origins env = local_origins).
Proof.
  unfold allowed_origins. set (v := match env with Some v => v | None => [] end).
  split; [reflexivity|]. split.
  - cbn [local_origins app skipn]. apply Forall_map, Forall_forall.
    intros o Ho. apply filter_In in Ho. destruct Ho as [Ho Hkeep].
    split; [destruct (strip o); [discriminate | discriminate]|].
    split; [apply strip_idem|].
    intros Hc. apply strip_within in Hc.
    pose proof (split_on_pieces 44%N v) as Hp. rewrite Forall_forall in Hp.
    exact (Hp o Ho Hc).
  - intros Hblank.
    assert (Hv : Forall (fun c => c = 44%N \/ isspace c = true) v)
      by (unfold v; destruct env; [assumption | constructor]).
    clear Hblank.
    assert (Hpieces : Forall (fun p => Forall (fun c => isspace c = true) p)
                        (split_on 44%N v)).
    { induction Hv as [|c r Hc _ IH]; simpl; [repeat constructor|].
      unfold char_eqb. destruct (N.eqb_spec c 44) as [->|Hne].
      - constructor; [constructor | assumption].
      - destruct Hc as [->|Hc]; [congruence|].
        destruct (split_on 44%N r) as [|p ps]; [repeat constructor; assumption|].
        inversion IH; subst. constructor; [constructor; assumption | assumption]. }
    assert (Hnone : filter (fun o => match strip o with [] => false | _ :: _ => true end)
                      (split_on 44%N v) = []).
    { induction Hpieces as [|p ps Hp _ IH]; simpl; [reflexivity|].
      now rewrite (strip_spaces Hp). }
    rewrite Hnone. reflexivity.
Qed.

Lemma allowed_origins_clean_witness :
  allowed_origins (Some (lit " https://a.example , ,https://b.example"))
  = local_origins ++ [lit "https://a.example"; lit "https://b.example"] /\
  allowed_origins (Some (lit " , ,")) = local_origins.
Proof.
  split; [vm_compute; reflexivity|].
  apply (proj2 (proj2 (allowed_origins_clean (Some (lit " , ,"))))).
  repeat (constructor; [first [left; reflexivity | right; reflexivity]|]).
  constructor.
Defined.



(** ** Column widths *)

Section ColumnWidths.
Context `{PyRuntime}.

Lemma fold_max_ge (l : list nat) x : In x l -> (x <= fold_right Nat.max 0 l)%nat.
Proof.
  induction l as [|y l IH]; [contradiction|]. simpl.
  intros [->|Hx]; [lia | specialize (IH Hx); lia].
Qed.

End ColumnWidths.

